(** * Automated trading bot: configuration, position lifecycle and run loop

    A shallow embedding of [src/config.py] and [src/trading_bot.py].

    Numbers.  A Python [float] is an IEEE 754 binary64 value, and so is a
    value of the primitive type [float] used here: [+], [-], [*], [/] and the
    comparisons are the correctly rounded binary64 operations, with their
    infinities, signed zeros and NaN, and they evaluate.  Python [int] values
    (quantities, volumes, intervals, counters) are [Z].  [int(x)] truncates
    the value of [x] toward zero and raises on an infinity or a NaN.  The
    conversion of an [int] to a [float] inside [float * int] rounds to
    nearest; Python raises [OverflowError] when the [int] is beyond the
    binary64 range (2^1024 and more), which no quantity computed by
    [int(pot / price)] is, and that case is not modelled.

    Effects.  The bot talks to the Alpaca REST gateway, sleeps and logs.  The
    gateway is a scripted one: every API method has a list of canned replies,
    consumed one per call; a call with no reply left does not return
    ([Blocked]).  Orders, sleeps and the log records that the properties
    mention are appended to a ghost trace, [effects].

    Exceptions.  A method can raise ([Raised]); [run] catches what a cycle
    raises in its [except Exception] handler.  [KeyboardInterrupt] arrives
    while the bot waits: the operator's Ctrl-C is modelled at the gateway
    call that does not return, and [run] takes a flag that says whether the
    operator interrupts there or lets the bot wait.  An interrupt during the
    [sleep] of the [except Exception] handler (where it is not caught) and
    [time.sleep] rejecting a negative or an oversized argument are not
    modelled. *)

From Stdlib Require Import ZArith QArith Qround Reals Lra Lia Bool List String
  Floats.
Import ListNotations.

#[local] Set Warnings "-inexact-float".

Local Open Scope string_scope.
Local Open Scope list_scope.
Local Open Scope Z_scope.

(** ** Exceptions and results of fallible pure code *)

Inductive Exception : Type :=
| ValueError (msg : string)
| OverflowError (msg : string).

Inductive Outcome (A : Type) : Type :=
| Returns (a : A)
| Raises (e : Exception).

Arguments Returns {A} a.
Arguments Raises {A} e.

(** ** Python numerics *)

(** The rational number that a finite binary64 value with sign [s], mantissa
    [m] and exponent [e] stands for. *)
Definition finite_value (s : bool) (m : positive) (e : Z) : Q :=
  let n := if s then Zneg m else Zpos m in
  match e with
  | Zneg k => Qmake n (2 ^ k)
  | _ => inject_Z (n * 2 ^ e)
  end.

(** The exact value of a float; none for the infinities and NaN. *)
Definition exact (x : float) : option Q :=
  match Prim2SF x with
  | S754_zero _ => Some 0%Q
  | S754_finite s m e => Some (finite_value s m e)
  | S754_infinity _ => None
  | S754_nan => None
  end.

(** Truncation of a rational toward zero. *)
Definition truncate (q : Q) : Z := Z.quot (Qnum q) (Zpos (Qden q)).

(** [int(x)] on a float. *)
Definition int (x : float) : Outcome Z :=
  match Prim2SF x with
  | S754_zero _ => Returns 0
  | S754_finite s m e => Returns (truncate (finite_value s m e))
  | S754_infinity _ =>
      Raises (OverflowError "cannot convert float infinity to integer")
  | S754_nan => Raises (ValueError "cannot convert float NaN to integer")
  end.

(** The float nearest to an integer: the conversion inside [float * int]. *)
Definition float_of_int (z : Z) : float :=
  SF2Prim (binary_normalize prec emax z 0 false).

(** [x <= y] and [x < y] on floats, as propositions. *)
Definition fle (x y : float) : Prop := PrimFloat.leb x y = true.
Definition flt (x y : float) : Prop := PrimFloat.ltb x y = true.

(** Truthiness of a float: [0.0] and [-0.0] are falsy, NaN is truthy. *)
Definition truthy_float (x : float) : bool := negb (PrimFloat.eqb x 0).

(** Truthiness of a string: the empty string is falsy. *)
Definition truthy_str (s : string) : bool := negb (String.eqb s "").

(** ** config.py *)

Record Config : Type := mkConfig {
  API_KEY : string;
  API_SECRET : string;
  BASE_URL : string;
  INITIAL_POT : float;
  PROFIT_TARGET : float;
  STOP_LOSS_PCT : float;
  TAKE_PROFIT_PCT : float;
  CHECK_INTERVAL : Z;
  TRADE_INTERVAL : Z;
  MAX_CONSECUTIVE_LOSSES : Z;
  MIN_STOCK_PRICE : float;
  MAX_STOCK_PRICE : float;
  LOG_FILE : string;
  LOG_LEVEL : string
}.

Definition placeholder_key : string := "YOUR_ALPACA_API_KEY_HERE".
Definition placeholder_secret : string := "YOUR_ALPACA_SECRET_KEY_HERE".

(** [Config.validate]: the checks in source order; the first that fails
    raises. *)
Definition validate (self : Config) : Outcome unit :=
  if String.eqb (API_KEY self) placeholder_key then
    Raises (ValueError
      "Please set your Alpaca API key in config.py or as environment variable ALPACA_API_KEY")
  else if String.eqb (API_SECRET self) placeholder_secret then
    Raises (ValueError
      "Please set your Alpaca API secret in config.py or as environment variable ALPACA_API_SECRET")
  else if PrimFloat.leb (INITIAL_POT self) 0 then
    Raises (ValueError "Initial pot must be greater than 0")
  else if PrimFloat.leb (PROFIT_TARGET self) 0 then
    Raises (ValueError "Profit target must be greater than 0")
  else if negb (PrimFloat.ltb 0 (STOP_LOSS_PCT self) &&
                PrimFloat.ltb (STOP_LOSS_PCT self) 1) then
    Raises (ValueError "Stop loss percentage must be between 0 and 1")
  else if negb (PrimFloat.ltb 0 (TAKE_PROFIT_PCT self) &&
                PrimFloat.ltb (TAKE_PROFIT_PCT self) 1) then
    Raises (ValueError "Take profit percentage must be between 0 and 1")
  else if CHECK_INTERVAL self <=? 0 then
    Raises (ValueError "Check interval must be greater than 0")
  else Returns tt.

(** [Config.__init__]: construction is validation. *)
Definition Config_init (self : Config) : Outcome Config :=
  match validate self with
  | Returns _ => Returns self
  | Raises e => Raises e
  end.

Definition construction_fails (c : Config) : Prop :=
  exists e, Config_init c = Raises e.

(** Functional updates of single configuration fields. *)
Definition set_STOP_LOSS_PCT (x : float) (c : Config) : Config :=
  mkConfig (API_KEY c) (API_SECRET c) (BASE_URL c) (INITIAL_POT c)
    (PROFIT_TARGET c) x (TAKE_PROFIT_PCT c) (CHECK_INTERVAL c)
    (TRADE_INTERVAL c) (MAX_CONSECUTIVE_LOSSES c) (MIN_STOCK_PRICE c)
    (MAX_STOCK_PRICE c) (LOG_FILE c) (LOG_LEVEL c).

Definition set_API_KEY (k : string) (c : Config) : Config :=
  mkConfig k (API_SECRET c) (BASE_URL c) (INITIAL_POT c)
    (PROFIT_TARGET c) (STOP_LOSS_PCT c) (TAKE_PROFIT_PCT c) (CHECK_INTERVAL c)
    (TRADE_INTERVAL c) (MAX_CONSECUTIVE_LOSSES c) (MIN_STOCK_PRICE c)
    (MAX_STOCK_PRICE c) (LOG_FILE c) (LOG_LEVEL c).

(** The three risk-management settings replaced, everything else kept. *)
Definition set_risk (mcl : Z) (lo hi : float) (c : Config) : Config :=
  mkConfig (API_KEY c) (API_SECRET c) (BASE_URL c) (INITIAL_POT c)
    (PROFIT_TARGET c) (STOP_LOSS_PCT c) (TAKE_PROFIT_PCT c) (CHECK_INTERVAL c)
    (TRADE_INTERVAL c) mcl lo hi (LOG_FILE c) (LOG_LEVEL c).

(** ** The scripted gateway *)

Record Asset : Type := mkAsset {
  symbol : string;
  tradable : bool;
  shortable : bool
}.

(** Reply of [api.get_barset(symbol, 'day', limit=1)]: the call raises (or
    the bar list is empty, so that indexing it raises), or the symbol is
    missing from the bar set, or the latest daily bar has volume [v]. *)
Inductive BarReply : Type :=
| BarsRaise
| BarsWithoutSymbol
| BarsVolume (v : Z).

(** One list of canned replies per API method.  For [list_assets] and
    [get_latest_trade], [None] is a call that raises; for [submit_order],
    [false] is a call that raises (the order is rejected). *)
Record Gateway : Type := mkGateway {
  list_assets_replies : list (option (list Asset));
  get_barset_replies : list BarReply;
  get_latest_trade_replies : list (option float);
  submit_order_replies : list bool
}.

Inductive Side : Type := buy | sell.

Inductive ExitType : Type := stop_loss | take_profit.

Inductive LogRecord : Type :=
| MostTradedStock (top_symbol : option string) (max_volume : Z)
| CouldNotFindStock
| CouldNotGetPrice (sym : string)
| InsufficientFunds (sym : string) (entry_price : float)
| TradeCompleted (exit_type : ExitType) (result : float)
| TradeCycleFailed
| ProfitTargetReached
| StoppedByUser
| UnexpectedError (e : Exception).

(** What the bot does to the outside world, in order. *)
Inductive Effect : Type :=
| SubmitOrder (sym : string) (qty : Z) (side : Side) (accepted : bool)
| Sleep (seconds : Z)
| Log (r : LogRecord).

(** ** trading_bot.py: the bot object *)

Record TradingBot : Type := mkBot {
  config : Config;
  api : Gateway;
  pot : float;
  total_profit : float;
  trades_completed : Z;
  effects : list Effect
}.

(** [TradingBot.__init__]. *)
Definition TradingBot_init (config : Config) (gw : Gateway) : TradingBot :=
  mkBot config gw (INITIAL_POT config) 0%float 0 [].

Definition set_config (c : Config) (self : TradingBot) : TradingBot :=
  mkBot c (api self) (pot self) (total_profit self) (trades_completed self)
    (effects self).

Definition set_api (gw : Gateway) (self : TradingBot) : TradingBot :=
  mkBot (config self) gw (pot self) (total_profit self) (trades_completed self)
    (effects self).

Definition emit (e : Effect) (self : TradingBot) : TradingBot :=
  mkBot (config self) (api self) (pot self) (total_profit self)
    (trades_completed self) (effects self ++ [e]).

(** Lines 220-222: [self.pot += result; self.total_profit += result;
    self.trades_completed += 1]: two binary64 additions, each rounded on its
    own. *)
Definition book (result : float) (self : TradingBot) : TradingBot :=
  mkBot (config self) (api self) (pot self + result)%float
    (total_profit self + result)%float (trades_completed self + 1)
    (effects self).

(** The financial part of the bot state. *)
Definition account (self : TradingBot) : float * float * Z :=
  (pot self, total_profit self, trades_completed self).

(** ** The monad of bot methods: state passing, blocking and raising *)

Inductive Result (A : Type) : Type :=
| Ret (a : A) (self : TradingBot)
| Blocked (self : TradingBot)
| Raised (e : Exception) (self : TradingBot).

Arguments Ret {A} a self.
Arguments Blocked {A} self.
Arguments Raised {A} e self.

Definition M (A : Type) : Type := TradingBot -> Result A.

Definition ret {A : Type} (a : A) : M A := fun self => Ret a self.

Definition bind {A B : Type} (m : M A) (k : A -> M B) : M B :=
  fun self =>
    match m self with
    | Ret a self' => k a self'
    | Blocked self' => Blocked self'
    | Raised e self' => Raised e self'
    end.

Notation "x <- m ;; k" := (bind m (fun x => k))
  (at level 61, m at next level, right associativity).
Notation "m ;;; k" := (bind m (fun _ => k))
  (at level 61, right associativity).

(** Reading an attribute of [self]. *)
Definition reads {A : Type} (attr : TradingBot -> A) : M A :=
  fun self => Ret (attr self) self.

Definition modify (f : TradingBot -> TradingBot) : M unit :=
  fun self => Ret tt (f self).

(** The value of fallible pure code, or its exception raised in the method. *)
Definition lift {A : Type} (o : Outcome A) : M A :=
  fun self =>
    match o with
    | Returns a => Ret a self
    | Raises e => Raised e self
    end.

Definition sleep (seconds : Z) : M unit := modify (emit (Sleep seconds)).

Definition log (r : LogRecord) : M unit := modify (emit (Log r)).

(** The final state of a computation, however it ended. *)
Definition final {A : Type} (r : Result A) : TradingBot :=
  match r with
  | Ret _ self => self
  | Blocked self => self
  | Raised _ self => self
  end.

Definition map_state {A : Type} (f : TradingBot -> TradingBot) (r : Result A)
  : Result A :=
  match r with
  | Ret a self => Ret a (f self)
  | Blocked self => Blocked (f self)
  | Raised e self => Raised e (f self)
  end.

(** *** Gateway calls: pop the next canned reply *)

Definition api_list_assets : M (option (list Asset)) :=
  fun self =>
    let gw := api self in
    match list_assets_replies gw with
    | [] => Blocked self
    | r :: rest =>
        Ret r (set_api (mkGateway rest (get_barset_replies gw)
                 (get_latest_trade_replies gw) (submit_order_replies gw)) self)
    end.

Definition api_get_barset : M BarReply :=
  fun self =>
    let gw := api self in
    match get_barset_replies gw with
    | [] => Blocked self
    | r :: rest =>
        Ret r (set_api (mkGateway (list_assets_replies gw) rest
                 (get_latest_trade_replies gw) (submit_order_replies gw)) self)
    end.

Definition api_get_latest_trade : M (option float) :=
  fun self =>
    let gw := api self in
    match get_latest_trade_replies gw with
    | [] => Blocked self
    | r :: rest =>
        Ret r (set_api (mkGateway (list_assets_replies gw)
                 (get_barset_replies gw) rest (submit_order_replies gw)) self)
    end.

Definition api_submit_order (sym : string) (qty : Z) (side : Side) : M bool :=
  fun self =>
    let gw := api self in
    match submit_order_replies gw with
    | [] => Blocked self
    | r :: rest =>
        Ret r (emit (SubmitOrder sym qty side r)
                 (set_api (mkGateway (list_assets_replies gw)
                    (get_barset_replies gw) (get_latest_trade_replies gw) rest)
                    self))
    end.

(** *** [get_most_traded_stock] *)

(** The [for asset in assets[:100]] loop, carrying [max_volume] and
    [top_symbol]. *)
Fixpoint scan_assets (assets : list Asset) (max_volume : Z)
    (top_symbol : option string) : M (Z * option string) :=
  match assets with
  | [] => ret (max_volume, top_symbol)
  | asset :: rest =>
      if negb (tradable asset) || negb (shortable asset) then
        scan_assets rest max_volume top_symbol
      else
        bars <- api_get_barset ;;
        match bars with
        | BarsRaise => scan_assets rest max_volume top_symbol
        | BarsWithoutSymbol => scan_assets rest max_volume top_symbol
        | BarsVolume volume =>
            if volume >? max_volume then
              scan_assets rest volume (Some (symbol asset))
            else scan_assets rest max_volume top_symbol
        end
  end.

Definition get_most_traded_stock : M (option string) :=
  assets <- api_list_assets ;;
  match assets with
  | None => ret None
  | Some assets =>
      r <- scan_assets (firstn 100 assets) 0 None ;;
      log (MostTradedStock (snd r) (fst r)) ;;;
      ret (snd r)
  end.

(** *** [get_current_price], [place_buy_order], [place_sell_order] *)

Definition get_current_price (sym : string) : M (option float) :=
  api_get_latest_trade.

(** The order object is modelled by [tt]; [None] after a failed submission. *)
Definition place_buy_order (sym : string) (quantity : Z) : M (option unit) :=
  ok <- api_submit_order sym quantity buy ;;
  ret (if ok then Some tt else None).

Definition place_sell_order (sym : string) (quantity : Z) : M (option unit) :=
  ok <- api_submit_order sym quantity sell ;;
  ret (if ok then Some tt else None).

(** *** [monitor_position] *)

(** The [while True] loop; every iteration reads one price, so the fuel given
    by [monitor_position] below is never the reason for blocking.
    [current_price >= take_profit_price] is [take_profit_price <=
    current_price]. *)
Fixpoint monitor_loop (fuel : nat) (sym : string) (entry_price : float)
    (quantity : Z) (stop_loss_price take_profit_price : float)
  : M (float * ExitType) :=
  match fuel with
  | O => fun self => Blocked self
  | S fuel' =>
      current_price <- get_current_price sym ;;
      match current_price with
      | None =>
          interval <- reads (fun self => CHECK_INTERVAL (config self)) ;;
          sleep interval ;;;
          monitor_loop fuel' sym entry_price quantity stop_loss_price
            take_profit_price
      | Some current_price =>
          if PrimFloat.leb current_price stop_loss_price then
            place_sell_order sym quantity ;;;
            ret (((current_price - entry_price) * float_of_int quantity)%float,
                 stop_loss)
          else if PrimFloat.leb take_profit_price current_price then
            place_sell_order sym quantity ;;;
            ret (((current_price - entry_price) * float_of_int quantity)%float,
                 take_profit)
          else
            interval <- reads (fun self => CHECK_INTERVAL (config self)) ;;
            sleep interval ;;;
            monitor_loop fuel' sym entry_price quantity stop_loss_price
              take_profit_price
      end
  end.

Definition monitor_position (sym : string) (entry_price : float)
    (quantity : Z) (stop_loss_price take_profit_price : float)
  : M (float * ExitType) :=
  fun self =>
    monitor_loop (S (List.length (get_latest_trade_replies (api self)))) sym
      entry_price quantity stop_loss_price take_profit_price self.

(** *** [execute_trade_cycle] *)

(** Line 191: [quantity = int(self.pot / entry_price)]: the binary64
    quotient, then [int]. *)
Definition position_size (pot entry_price : float) : Outcome Z :=
  int (pot / entry_price)%float.

(** Lines 197-198, in binary64. *)
Definition stop_loss_of (entry_price stop_loss_pct : float) : float :=
  (entry_price * (1 - stop_loss_pct))%float.

Definition take_profit_of (entry_price take_profit_pct : float) : float :=
  (entry_price * (1 + take_profit_pct))%float.

Definition execute_trade_cycle : M bool :=
  top <- get_most_traded_stock ;;
  match top with
  | None => log CouldNotFindStock ;;; ret false
  | Some sym =>
      if negb (truthy_str sym) then log CouldNotFindStock ;;; ret false
      else
        price <- get_current_price sym ;;
        match price with
        | None => log (CouldNotGetPrice sym) ;;; ret false
        | Some entry_price =>
            if negb (truthy_float entry_price) then
              log (CouldNotGetPrice sym) ;;; ret false
            else
              self_pot <- reads pot ;;
              quantity <- lift (position_size self_pot entry_price) ;;
              if quantity =? 0 then
                log (InsufficientFunds sym entry_price) ;;; ret false
              else
                stop_loss_pct <- reads (fun self => STOP_LOSS_PCT (config self)) ;;
                take_profit_pct <-
                  reads (fun self => TAKE_PROFIT_PCT (config self)) ;;
                let stop_loss_price := stop_loss_of entry_price stop_loss_pct in
                let take_profit_price :=
                  take_profit_of entry_price take_profit_pct in
                buy_order <- place_buy_order sym quantity ;;
                match buy_order with
                | None => ret false
                | Some _ =>
                    sleep 5 ;;;
                    outcome <- monitor_position sym entry_price quantity
                                 stop_loss_price take_profit_price ;;
                    modify (book (fst outcome)) ;;;
                    log (TradeCompleted (snd outcome) (fst outcome)) ;;;
                    ret true
                end
        end
  end.

(** *** [run] *)

(** Lines 245-263, the body of the [try]; the flag says whether it ends in
    [break]. *)
Definition try_body : M bool :=
  success <- execute_trade_cycle ;;
  if negb success then
    log TradeCycleFailed ;;;
    sleep 60 ;;;
    ret false
  else
    reached <- reads (fun self =>
                 PrimFloat.leb (PROFIT_TARGET (config self))
                   (total_profit self)) ;;
    if (reached : bool) then
      log ProfitTargetReached ;;;
      ret true
    else
      interval <- reads (fun self => TRADE_INTERVAL (config self)) ;;
      sleep interval ;;;
      ret false.

(** One iteration of the [while] body: the [try] with its
    [except Exception] handler (lines 268-270), which logs the error, sleeps
    60 seconds and lets the loop go on. *)
Definition run_body : M bool :=
  fun self =>
    match try_body self with
    | Ret stop self' => Ret stop self'
    | Blocked self' => Blocked self'
    | Raised e self' =>
        Ret false (emit (Sleep 60) (emit (Log (UnexpectedError e)) self'))
    end.

(** [while self.total_profit < self.config.PROFIT_TARGET: ...].  An
    iteration that does not return is one the operator can interrupt:
    [except KeyboardInterrupt] (lines 265-267) logs and leaves the loop.
    Every iteration that returns has called [list_assets] once, which bounds
    the fuel [run] needs. *)
Fixpoint run_loop (ctrl_c : bool) (fuel : nat) : M unit :=
  fun self =>
    if PrimFloat.ltb (total_profit self) (PROFIT_TARGET (config self)) then
      match fuel with
      | O => Blocked self
      | S fuel' =>
          match run_body self with
          | Ret stop self' =>
              if (stop : bool) then Ret tt self'
              else run_loop ctrl_c fuel' self'
          | Blocked self' =>
              if ctrl_c then Ret tt (emit (Log StoppedByUser) self')
              else Blocked self'
          | Raised e self' => Raised e self'
          end
      end
    else Ret tt self.

Definition run (ctrl_c : bool) : M unit :=
  fun self =>
    run_loop ctrl_c (S (List.length (list_assets_replies (api self)))) self.

(** Lines 272-278: the script entry point. *)
Definition main (c : Config) (gw : Gateway) (ctrl_c : bool)
  : Outcome (Result unit) :=
  match Config_init c with
  | Raises e => Raises e
  | Returns config => Returns (run ctrl_c (TradingBot_init config gw))
  end.

(** ** Vocabulary of the properties *)

(** A polled price breaches a threshold. *)
Definition breaches (stop_loss_price take_profit_price p : float) : bool :=
  PrimFloat.leb p stop_loss_price || PrimFloat.leb take_profit_price p.

(** The exit reason the priority order gives: stop-loss is looked at first. *)
Definition exit_reason (stop_loss_price p : float) : ExitType :=
  if PrimFloat.leb p stop_loss_price then stop_loss else take_profit.

(** A poll that makes the monitor wait: a failed read, or a price that
    breaches neither threshold. *)
Definition quiet_poll (stop_loss_price take_profit_price : float)
    (reply : option float) : Prop :=
  match reply with
  | None => True
  | Some p => breaches stop_loss_price take_profit_price p = false
  end.

(** The bot with its price script and order script replaced. *)
Definition with_scripts (prices : list (option float)) (orders : list bool)
    (self : TradingBot) : TradingBot :=
  set_api (mkGateway (list_assets_replies (api self))
             (get_barset_replies (api self)) prices orders) self.

Definition emit_all (es : list Effect) (self : TradingBot) : TradingBot :=
  mkBot (config self) (api self) (pot self) (total_profit self)
    (trades_completed self) (effects self ++ es).

(** The results of the completed trades, read off the trace in order. *)
Fixpoint trade_results (es : list Effect) : list float :=
  match es with
  | [] => []
  | Log (TradeCompleted _ result) :: es' => result :: trade_results es'
  | _ :: es' => trade_results es'
  end.

(** The failed cycles that the run loop reported. *)
Fixpoint failed_cycles (es : list Effect) : nat :=
  match es with
  | [] => O
  | Log TradeCycleFailed :: es' => S (failed_cycles es')
  | _ :: es' => failed_cycles es'
  end.

(** The cycles whose exception the run loop caught. *)
Fixpoint crashed_cycles (es : list Effect) : nat :=
  match es with
  | [] => O
  | Log (UnexpectedError _) :: es' => S (crashed_cycles es')
  | _ :: es' => crashed_cycles es'
  end.

(** Running sum, the way [+=] accumulates it: one rounded addition after
    the other, from the left. *)
Definition accumulate (start : float) (results : list float) : float :=
  fold_left PrimFloat.add results start.

(** Some reply script of the gateway has run dry. *)
Definition exhausted (gw : Gateway) : Prop :=
  list_assets_replies gw = [] \/ get_barset_replies gw = [] \/
  get_latest_trade_replies gw = [] \/ submit_order_replies gw = [].

(** The bot moved on without touching configuration or account, and without
    completing a trade. *)
Definition same_books (s s' : TradingBot) : Prop :=
  config s' = config s /\ account s' = account s /\
  trade_results (effects s') = trade_results (effects s).

(** What a cycle does to the books: nothing when it aborts, blocks or raises,
    one booked result when it succeeds. *)
Definition cycle_books (s : TradingBot) (r : Result bool) : Prop :=
  match r with
  | Ret true s' =>
      exists why result,
        config s' = config s /\
        account s' = ((pot s + result)%float, (total_profit s + result)%float,
                      trades_completed s + 1) /\
        effects s' <> effects s /\
        trade_results (effects s') = trade_results (effects s) ++ [result] /\
        exists es, effects s' = es ++ [Log (TradeCompleted why result)]
  | Ret false s' => same_books s s'
  | Blocked s' => same_books s s'
  | Raised _ s' => same_books s s'
  end.

(** States of the run loop at its observation points: after [__init__],
    after every cycle and every iteration of the [while] body (however they
    ended), and after the interrupt handler. *)
Inductive reachable (c : Config) (gw : Gateway) : TradingBot -> Prop :=
| reach_init : reachable c gw (TradingBot_init c gw)
| reach_iteration : forall s,
    reachable c gw s -> reachable c gw (final (run_body s))
| reach_cycle : forall s,
    reachable c gw s -> reachable c gw (final (execute_trade_cycle s))
| reach_interrupt : forall s,
    reachable c gw s -> reachable c gw (emit (Log StoppedByUser) s).

(** How a computation ended. *)
Inductive Ending (A : Type) : Type :=
| Returned (a : A)
| Waiting
| Failing (e : Exception).

Arguments Returned {A} a.
Arguments Waiting {A}.
Arguments Failing {A} e.

Definition ending {A : Type} (r : Result A) : Ending A :=
  match r with
  | Ret a _ => Returned a
  | Blocked _ => Waiting
  | Raised e _ => Failing e
  end.

(** What an observer of the bot sees: everything but the configuration
    object. *)
Definition behaviour {A : Type} (r : Result A)
  : Ending A * Gateway * (float * float * Z) * list Effect :=
  (ending r, api (final r), account (final r), effects (final r)).



(** The result that the last entry of the trace reports, if it is a
    completed trade. *)
Definition last_result (s : TradingBot) : option float :=
  match List.last (effects s) (Sleep 0) with
  | Log (TradeCompleted _ result) => Some result
  | _ => None
  end.

(** What the loop itself does between two cycles: after a failed cycle, after
    a cycle that raised, and after a trade that has not reached the target. *)
Definition cooldown (s : TradingBot) : TradingBot :=
  emit (Sleep 60) (emit (Log TradeCycleFailed) s).

Definition recovery (e : Exception) (s : TradingBot) : TradingBot :=
  emit (Sleep 60) (emit (Log (UnexpectedError e)) s).

Definition pause (s : TradingBot) : TradingBot :=
  emit (Sleep (TRADE_INTERVAL (config s))) s.


(** The books agree with the trace: pot and total profit are the running
    sums of the results of the completed trades, from the initial pot and
    from 0.0, and the trade count is their number. *)
Definition ledger (c : Config) (s : TradingBot) : Prop :=
  config s = c /\
  pot s = accumulate (INITIAL_POT c) (trade_results (effects s)) /\
  total_profit s = accumulate 0 (trade_results (effects s)) /\
  trades_completed s = Z.of_nat (List.length (trade_results (effects s))).

(** The floor of the exact quotient of the values of two floats. *)
Definition quotient_floor (x y : float) : option Z :=
  match exact x, exact y with
  | Some a, Some b => Some (Qfloor (a / b))
  | _, _ => None
  end.

(** A method blocks only on a gateway script that has run dry. *)
Definition blocks_dry {A : Type} (m : M A) : Prop :=
  forall s s', m s = Blocked s' -> exhausted (api s').

(** The number of [list_assets] replies left. *)
Definition assets_left (s : TradingBot) : nat :=
  List.length (list_assets_replies (api s)).

Definition no_more_assets (s s' : TradingBot) : Prop :=
  (assets_left s' <= assets_left s)%nat.


(** The bot with the three risk-management settings of its configuration
    replaced. *)
Definition with_risk (mcl : Z) (lo hi : float) (s : TradingBot) : TradingBot :=
  set_config (set_risk mcl lo hi (config s)) s.

(** A method that cannot tell [f s] from [s]: it does on [f s] what it does
    on [s], and returns the same value. *)
Definition blind (f : TradingBot -> TradingBot) {A : Type} (m : M A) : Prop :=
  forall s, m (f s) = map_state f (m s).

(** Preservation of a relation between the state before and after a method,
    however it ends. *)
Definition preserves (R : TradingBot -> TradingBot -> Prop) {A : Type}
    (m : M A) : Prop :=
  forall s, R s (final (m s)).

(** ** Scenarios *)

(** A valid configuration: the defaults of config.py with real-looking
    credentials, and a trade interval of 90 seconds so that it cannot be
    mistaken for the 60-second cooldown. *)

Definition demo_config : Config :=
  mkConfig "PK-DEMO" "SK-DEMO" "https://paper-api.alpaca.markets"
    1000 500 0.1 0.1 30 90 3 5 500 "trading_bot.log" "INFO".

Definition demo_assets : list Asset :=
  [mkAsset "PENNY" true false; mkAsset "AAPL" true true;
   mkAsset "MSFT" true true].

(** One cycle's worth of replies: the asset list, volumes for the two
    shortable assets, then the given price and order scripts. *)
Definition demo_gateway (prices : list (option float)) (orders : list bool)
  : Gateway :=
  mkGateway [Some demo_assets] [BarsVolume 900; BarsVolume 700] prices orders.

(** Entry at 50, then polls 50, 48, 44: the stop at 45 fires. *)
Definition stop_loss_bot : TradingBot :=
  TradingBot_init demo_config
    (demo_gateway [Some 50; Some 50; Some 48; Some 44]%float [true; true]).

(** Entry at 50, then polls 50, 52, 56: the target fires. *)
Definition take_profit_bot : TradingBot :=
  TradingBot_init demo_config
    (demo_gateway [Some 50; Some 50; Some 52; Some 56]%float [true; true]).

(** As [stop_loss_bot], but the gateway rejects the sell order. *)
Definition sell_rejected_bot : TradingBot :=
  TradingBot_init demo_config
    (demo_gateway [Some 50; Some 50; Some 48; Some 44]%float [true; false]).

(** As [stop_loss_bot], but the gateway rejects the buy order. *)
Definition buy_rejected_bot : TradingBot :=
  TradingBot_init demo_config
    (demo_gateway [Some 50; Some 50; Some 48; Some 44]%float [false]).

(** A position already entered at 50 with 20 shares; the polls are 50, a
    failed read, 48, 44 and 60. *)
Definition monitor_demo_bot : TradingBot :=
  TradingBot_init demo_config
    (mkGateway [] [] [Some 50; None; Some 48; Some 44; Some 60]%float [true]).

(** The configuration of the scenarios with another profit target. *)
Definition demo_config_with_target (target : float) : Config :=
  mkConfig "PK-DEMO" "SK-DEMO" "https://paper-api.alpaca.markets"
    1000 target 0.1 0.1 30 90 3 5 500 "trading_bot.log" "INFO".

(** The target is 100; the first cycle fails (the asset listing raises),
    the second exits on the take-profit with a result of 120. *)
Definition retry_bot : TradingBot :=
  TradingBot_init (demo_config_with_target 100)
    (mkGateway [None; Some demo_assets] [BarsVolume 900; BarsVolume 700]
       [Some 50; Some 50; Some 52; Some 56]%float [true; true]).

(** The target is 200; two trades, both exits on the take-profit: entry at
    50 and exit at 55.5 with 20 shares, then entry at 56 and exit at 62.3
    with 19 shares. *)
Definition two_trades_bot : TradingBot :=
  TradingBot_init (demo_config_with_target 200)
    (mkGateway [Some demo_assets; Some demo_assets]
       [BarsVolume 900; BarsVolume 700; BarsVolume 900; BarsVolume 700]
       [Some 50; Some 55.5; Some 56; Some 62.3]%float
       [true; true; true; true]).

(** The price read for the entry is so small that [pot / price] overflows to
    infinity; a second listing lets the loop go on after the handler. *)
Definition overflow_bot : TradingBot :=
  TradingBot_init demo_config
    (mkGateway [Some demo_assets; None] [BarsVolume 900; BarsVolume 700]
       [Some 1e-320]%float [true; true]).

(** A stop-loss percentage of 1e-17, which validation accepts; entry at 50,
    then a poll at 50. *)
Definition tiny_stop_bot : TradingBot :=
  TradingBot_init (set_STOP_LOSS_PCT 1e-17 demo_config)
    (demo_gateway [Some 50; Some 50]%float [true; true]).

(** Entry at 50, then polls 55 and 56. *)
Definition just_below_target_bot : TradingBot :=
  TradingBot_init demo_config
    (demo_gateway [Some 50; Some 55; Some 56]%float [true; true]).

(** The price script ends while the position is open. *)
Definition open_position_bot : TradingBot :=
  TradingBot_init demo_config
    (demo_gateway [Some 50; Some 50; Some 52]%float [true; true]).

(** ** Vocabulary of the further properties *)

(** An asset the selector asks bars for: tradable and shortable. *)
Definition eligible (a : Asset) : bool := tradable a && shortable a.

(** The update of [(max_volume, top_symbol)] by one bar reading. *)
Definition better (best : Z * option string) (reading : Asset * BarReply)
  : Z * option string :=
  match snd reading with
  | BarsVolume volume =>
      if volume >? fst best then (volume, Some (symbol (fst reading)))
      else best
  | _ => best
  end.

Definition pick (best : Z * option string)
    (readings : list (Asset * BarReply)) : Z * option string :=
  fold_left better readings best.

(** The bar readings of one selection: the eligible assets among the first
    hundred, each with the reply its bar request got. *)
Definition readings_of (assets : list Asset) (used : list BarReply)
  : list (Asset * BarReply) :=
  combine (filter eligible (firstn 100 assets)) used.

(** The bot has moved forward: price replies were only consumed, and the
    trace only extended. *)
Definition grows (s s' : TradingBot) : Prop :=
  (exists used,
     get_latest_trade_replies (api s) =
       used ++ get_latest_trade_replies (api s')) /\
  (exists es, effects s' = effects s ++ es).

Definition is_order (e : Effect) : bool :=
  match e with
  | SubmitOrder _ _ _ _ => true
  | _ => false
  end.

(** The orders of a trace, in order. *)
Definition submitted (es : list Effect) : list Effect := filter is_order es.

(** What one returned cycle may send to the order gateway: a buy that is
    rejected, or an accepted buy followed by the sell of the same quantity of
    the same symbol. *)
Inductive episode : list Effect -> Prop :=
| rejected_buy : forall sym qty,
    qty <> 0 -> episode [SubmitOrder sym qty buy false]
| round_trip : forall sym qty ok,
    qty <> 0 ->
    episode [SubmitOrder sym qty buy true; SubmitOrder sym qty sell ok].

Definition is_round_trip (ep : list Effect) : bool :=
  Nat.eqb (List.length ep) 2.


(** The trace ends with the interrupt handler's log line. *)
Definition interrupted (s : TradingBot) : Prop :=
  exists es, effects s = es ++ [Log StoppedByUser].


(** ** Vocabulary of the rounding lemmas *)

(** The real number [m * 2^e]; the value of the finite binary64 number with
    mantissa [m] and exponent [e]. *)
Definition bpow (e : Z) : R := powerRZ 2 e.
Definition val (m e : Z) : R := (IZR m * bpow e)%R.

(** The exponent of the power of two just above [m * 2^e]. *)
Definition mag (m : positive) (e : Z) : Z := Zpos (digits2_pos m) + e.

Definition loc_exact (l : location) : bool :=
  match l with
  | loc_Exact => true
  | loc_Inexact _ => false
  end.

(** What a right shift by [k] bits keeps of a number in the unit interval
    that starts at the integer [m0] ([x0] tells whether it is [m0] itself):
    the quotient in [shr_m], and in the two flags whether what was dropped
    is zero. *)
Definition shr_inv (x0 : bool) (m0 k : Z) (x : shr_record) : Prop :=
  0 <= shr_m x /\
  exists rem, m0 = shr_m x * 2 ^ k + rem /\ 0 <= rem < 2 ^ k /\
              (rem = 0 /\ x0 = true <-> shr_r x = false /\ shr_s x = false).

(** The second half of [binary_round_aux]: renormalisation of the rounded
    mantissa [m1] at exponent [e'], and the overflow test. *)
Definition finish (s : bool) (m1 e' : Z) : spec_float :=
  let '(mrs, e'') := shr_fexp prec emax m1 e' loc_Exact in
  match shr_m mrs with
  | Z0 => S754_zero s
  | Zpos m =>
      if Z.leb e'' (emax - prec) then S754_finite s m e'' else S754_infinity s
  | Zneg _ => S754_nan
  end.

(** [rounds_to X r]: [r] is the binary64 rounding (to nearest, ties to even)
    of the real number [X], not negative, as [binary_round_aux] computes it
    from a truncation [m0 * 2^e0] of [X] whose exponent is not above the one
    of the rounding, and a location [l] of [X] between [m0 * 2^e0] and
    [(m0 + 1) * 2^e0]. *)
Definition rounds_to (X : R) (r : spec_float) : Prop :=
  exists m0 e0 l,
    r = binary_round_aux prec emax false m0 e0 l /\
    0 <= m0 /\ e0 <= fexp prec emax (Zdigits2 m0 + e0) /\
    (val m0 e0 <= X < val (m0 + 1) e0)%R /\
    (loc_exact l = true -> X = val m0 e0) /\
    (loc_exact l = false -> (val m0 e0 < X)%R).

(** * Properties *)

(** ** Numerics *)

(** Swapping the arguments of a comparison of binary64 values reverses the
    verdict. *)
Lemma SFcompare_swap (x y : spec_float) :
  SFcompare y x = option_map CompOpp (SFcompare x y).
Proof.
  destruct x as [sx|sx| |sx mx ex], y as [sy|sy| |sy my ey]; simpl;
    try reflexivity;
    try (destruct sx; reflexivity); try (destruct sy; reflexivity);
    try (destruct sx, sy; reflexivity).
  destruct sx, sy; simpl; try reflexivity.
  - rewrite (Z.compare_antisym ey ex).
    destruct (ey ?= ex); simpl; try reflexivity.
    rewrite (Pos.compare_cont_antisym mx my Eq). simpl.
    destruct (Pos.compare_cont Eq mx my); reflexivity.
  - rewrite (Z.compare_antisym ey ex).
    destruct (ey ?= ex); simpl; try reflexivity.
    rewrite (Pos.compare_cont_antisym mx my Eq). reflexivity.
Qed.

(** [x < y] excludes [y <= x]. *)
Lemma flt_not_fle (x y : float) : flt x y -> PrimFloat.leb y x = false.
Proof.
  unfold flt. rewrite ltb_spec, leb_spec. unfold SFltb, SFleb.
  rewrite (SFcompare_swap (Prim2SF x) (Prim2SF y)).
  destruct (SFcompare (Prim2SF x) (Prim2SF y)) as [[| |]|]; simpl;
    intro H; try discriminate; reflexivity.
Qed.


(** [x < y] gives [x <= y]. *)
Lemma flt_fle (x y : float) : flt x y -> fle x y.
Proof.
  unfold flt, fle. rewrite ltb_spec, leb_spec. unfold SFltb, SFleb.
  destruct (SFcompare (Prim2SF x) (Prim2SF y)) as [[| |]|];
    intro H; try discriminate; reflexivity.
Qed.

(** On a non-negative rational, truncation toward zero is the floor. *)
Lemma truncate_floor_nonneg (q : Q) : (0 <= q)%Q -> truncate q = Qfloor q.
Proof.
  destruct q as [n d]. unfold Qle, truncate, Qfloor. simpl. intro H.
  apply Z.quot_div_nonneg; lia.
Qed.

(** Truncation gives zero exactly on the rationals strictly between -1 and
    1. *)
Lemma truncate_zero_iff (q : Q) : truncate q = 0 <-> (- (1) < q /\ q < 1)%Q.
Proof.
  destruct q as [n d]. unfold truncate, Qlt. simpl.
  rewrite Z.quot_small_iff by lia. lia.
Qed.

(** [int] truncates the exact value, and raises where there is none. *)
Lemma int_exact (x : float) :
  match exact x with
  | Some q => int x = Returns (truncate q)
  | None => exists e, int x = Raises e
  end.
Proof.
  unfold exact, int. destruct (Prim2SF x) as [s|s| |s m e].
  - reflexivity.
  - eexists. reflexivity.
  - eexists. reflexivity.
  - reflexivity.
Qed.

Lemma int_returns_exact (x : float) (z : Z) :
  int x = Returns z -> exists q, exact x = Some q /\ z = truncate q.
Proof.
  pose proof (int_exact x) as H. intro E.
  destruct (exact x) as [q|].
  - exists q. split; [reflexivity|congruence].
  - destruct H as [e H]. congruence.
Qed.

(** ** Configuration *)

Lemma Config_init_raises_iff (c : Config) :
  construction_fails c <-> validate c <> Returns tt.
Proof.
  unfold construction_fails, Config_init.
  destruct (validate c) as [[]|e]; split.
  - intros [e E]. discriminate.
  - intro H. congruence.
  - intros _. discriminate.
  - intros _. exists e. reflexivity.
Qed.

Lemma validate_ok_iff (c : Config) :
  validate c = Returns tt <->
  API_KEY c <> placeholder_key /\ API_SECRET c <> placeholder_secret /\
  ~ fle (INITIAL_POT c) 0 /\ ~ fle (PROFIT_TARGET c) 0 /\
  (flt 0 (STOP_LOSS_PCT c) /\ flt (STOP_LOSS_PCT c) 1) /\
  (flt 0 (TAKE_PROFIT_PCT c) /\ flt (TAKE_PROFIT_PCT c) 1) /\
  0 < CHECK_INTERVAL c.
Proof.
  unfold validate, fle, flt.
  destruct (String.eqb_spec (API_KEY c) placeholder_key) as [K|K];
    [split; [discriminate|tauto]|].
  destruct (String.eqb_spec (API_SECRET c) placeholder_secret) as [S|S];
    [split; [discriminate|tauto]|].
  destruct (PrimFloat.leb (INITIAL_POT c) 0) eqn:P;
    [split; [discriminate|tauto]|].
  destruct (PrimFloat.leb (PROFIT_TARGET c) 0) eqn:T;
    [split; [discriminate|tauto]|].
  destruct (PrimFloat.ltb 0 (STOP_LOSS_PCT c)) eqn:L1;
    [|split; [discriminate|intros (_ & _ & _ & _ & [H _] & _); discriminate]].
  destruct (PrimFloat.ltb (STOP_LOSS_PCT c) 1) eqn:L2;
    [|split; [discriminate|intros (_ & _ & _ & _ & [_ H] & _); discriminate]].
  destruct (PrimFloat.ltb 0 (TAKE_PROFIT_PCT c)) eqn:G1;
    [|split; [discriminate
             |intros (_ & _ & _ & _ & _ & [H _] & _); discriminate]].
  destruct (PrimFloat.ltb (TAKE_PROFIT_PCT c) 1) eqn:G2;
    [|split; [discriminate
             |intros (_ & _ & _ & _ & _ & [_ H] & _); discriminate]].
  simpl.
  destruct (Z.leb_spec (CHECK_INTERVAL c) 0) as [I|I].
  - split; [discriminate|]. intros (_ & _ & _ & _ & _ & _ & H). lia.
  - split; [|reflexivity]. intros _.
    repeat split; try assumption; discriminate.
Qed.

(** C8. Constructing the configuration raises exactly when the API key or the
    secret is its placeholder, the initial pot or the profit target is not
    positive, a percentage is outside the open interval (0,1), or the check
    interval is not positive.  A stop-loss percentage of 1 always fails; one
    of 0.1 fails only for one of the other reasons; a placeholder key always
    fails. *)
Theorem config_validation (c : Config) :
  (construction_fails c <->
     API_KEY c = placeholder_key \/ API_SECRET c = placeholder_secret \/
     fle (INITIAL_POT c) 0 \/ fle (PROFIT_TARGET c) 0 \/
     ~ (flt 0 (STOP_LOSS_PCT c) /\ flt (STOP_LOSS_PCT c) 1) \/
     ~ (flt 0 (TAKE_PROFIT_PCT c) /\ flt (TAKE_PROFIT_PCT c) 1) \/
     CHECK_INTERVAL c <= 0) /\
  construction_fails (set_STOP_LOSS_PCT 1 c) /\
  (construction_fails (set_STOP_LOSS_PCT 0.1 c) <->
     API_KEY c = placeholder_key \/ API_SECRET c = placeholder_secret \/
     fle (INITIAL_POT c) 0 \/ fle (PROFIT_TARGET c) 0 \/
     ~ (flt 0 (TAKE_PROFIT_PCT c) /\ flt (TAKE_PROFIT_PCT c) 1) \/
     CHECK_INTERVAL c <= 0) /\
  construction_fails (set_API_KEY placeholder_key c) /\
  Config_init (set_STOP_LOSS_PCT 0.1 demo_config) =
    Returns (set_STOP_LOSS_PCT 0.1 demo_config).
Proof.
  assert (main : forall c0,
    construction_fails c0 <->
     API_KEY c0 = placeholder_key \/ API_SECRET c0 = placeholder_secret \/
     fle (INITIAL_POT c0) 0 \/ fle (PROFIT_TARGET c0) 0 \/
     ~ (flt 0 (STOP_LOSS_PCT c0) /\ flt (STOP_LOSS_PCT c0) 1) \/
     ~ (flt 0 (TAKE_PROFIT_PCT c0) /\ flt (TAKE_PROFIT_PCT c0) 1) \/
     CHECK_INTERVAL c0 <= 0).
  { intro c0. rewrite Config_init_raises_iff, validate_ok_iff.
    destruct (string_dec (API_KEY c0) placeholder_key) as [K|K]; [tauto|].
    destruct (string_dec (API_SECRET c0) placeholder_secret) as [S|S]; [tauto|].
    unfold fle, flt.
    destruct (PrimFloat.leb (INITIAL_POT c0) 0); [tauto|].
    destruct (PrimFloat.leb (PROFIT_TARGET c0) 0); [tauto|].
    destruct (Z_lt_le_dec 0 (CHECK_INTERVAL c0)) as [I|I].
    2:{ split; [tauto|]. intros _ (_ & _ & _ & _ & _ & _ & H). lia. }
    destruct (PrimFloat.ltb 0 (STOP_LOSS_PCT c0));
      [|split; [intros _; right; right; right; right; left;
                intros [H _]; discriminate
               |intros _ (_ & _ & _ & _ & [H _] & _); discriminate]].
    destruct (PrimFloat.ltb (STOP_LOSS_PCT c0) 1);
      [|split; [intros _; right; right; right; right; left;
                intros [_ H]; discriminate
               |intros _ (_ & _ & _ & _ & [_ H] & _); discriminate]].
    destruct (PrimFloat.ltb 0 (TAKE_PROFIT_PCT c0));
      [|split; [intros _; right; right; right; right; right; left;
                intros [H _]; discriminate
               |intros _ (_ & _ & _ & _ & _ & [H _] & _); discriminate]].
    destruct (PrimFloat.ltb (TAKE_PROFIT_PCT c0) 1);
      [|split; [intros _; right; right; right; right; right; left;
                intros [_ H]; discriminate
               |intros _ (_ & _ & _ & _ & _ & [_ H] & _); discriminate]].
    split.
    - intro H. exfalso. apply H.
      repeat split; try assumption; try discriminate.
    - intros [H|[H|[H|[H|[H|[H|H]]]]]] G; try tauto; try discriminate;
        first [apply H; split; reflexivity|lia]. }
  split; [apply main|]. split; [|split; [|split]].
  - apply main. simpl. right. right. right. right. left.
    intros [_ H]. unfold flt in H. vm_compute in H. discriminate.
  - rewrite main. simpl.
    assert (E : flt 0 0.1 /\ flt 0.1 1) by (split; reflexivity).
    tauto.
  - apply main. simpl. left. reflexivity.
  - reflexivity.
Qed.

(** ** The state monad and what methods leave alone *)

Section Preservation.

Variable R : TradingBot -> TradingBot -> Prop.
Hypothesis R_refl : forall s, R s s.
Hypothesis R_trans : forall s1 s2 s3, R s1 s2 -> R s2 s3 -> R s1 s3.

Lemma preserves_ret {A : Type} (a : A) : preserves R (ret a).
Proof. intro s. apply R_refl. Qed.

Lemma preserves_reads {A : Type} (attr : TradingBot -> A) :
  preserves R (reads attr).
Proof. intro s. apply R_refl. Qed.

Lemma preserves_lift {A : Type} (o : Outcome A) : preserves R (lift o).
Proof. intro s. unfold lift. destruct o; apply R_refl. Qed.

Lemma preserves_bind {A B : Type} (m : M A) (k : A -> M B) :
  preserves R m -> (forall a, preserves R (k a)) -> preserves R (bind m k).
Proof.
  intros Hm Hk s. unfold bind. specialize (Hm s).
  destruct (m s) as [a s1|s1|e s1]; simpl in *.
  - apply R_trans with s1; [exact Hm|apply Hk].
  - exact Hm.
  - exact Hm.
Qed.

Lemma preserves_modify (f : TradingBot -> TradingBot) :
  (forall s, R s (f s)) -> preserves R (modify f).
Proof. intros H s. apply H. Qed.

End Preservation.

Lemma trade_results_app (es1 es2 : list Effect) :
  trade_results (es1 ++ es2) = trade_results es1 ++ trade_results es2.
Proof.
  induction es1 as [|e es1 IH]; simpl; [reflexivity|].
  destruct e as [? ? ? ?|?|[]]; simpl; rewrite ?IH; reflexivity.
Qed.

Lemma same_books_refl (s : TradingBot) : same_books s s.
Proof. repeat split. Qed.

Lemma same_books_trans (s1 s2 s3 : TradingBot) :
  same_books s1 s2 -> same_books s2 s3 -> same_books s1 s3.
Proof.
  intros (A1 & B1 & C1) (A2 & B2 & C2). repeat split; congruence.
Qed.

Lemma same_books_emit (e : Effect) (s : TradingBot) :
  trade_results [e] = [] -> same_books s (emit e s).
Proof.
  intro H. repeat split. simpl. rewrite trade_results_app, H.
  apply List.app_nil_r.
Qed.

Lemma same_books_set_api (gw : Gateway) (s : TradingBot) :
  same_books s (set_api gw s).
Proof. repeat split. Qed.

Create HintDb books.

Lemma sb_ret {A : Type} (a : A) : preserves same_books (ret a).
Proof. apply preserves_ret, same_books_refl. Qed.

Lemma sb_reads {A : Type} (attr : TradingBot -> A) :
  preserves same_books (reads attr).
Proof. apply preserves_reads, same_books_refl. Qed.

Lemma sb_lift {A : Type} (o : Outcome A) : preserves same_books (lift o).
Proof. apply preserves_lift, same_books_refl. Qed.

Lemma sb_bind {A B : Type} (m : M A) (k : A -> M B) :
  preserves same_books m -> (forall a, preserves same_books (k a)) ->
  preserves same_books (bind m k).
Proof. apply preserves_bind, same_books_trans. Qed.

Lemma sb_sleep (seconds : Z) : preserves same_books (sleep seconds).
Proof. intro s. apply same_books_emit. reflexivity. Qed.

Lemma sb_log (r : LogRecord) :
  (forall why result, r <> TradeCompleted why result) ->
  preserves same_books (log r).
Proof.
  intros H s. apply same_books_emit.
  destruct r; try reflexivity. exfalso. eapply H. reflexivity.
Qed.

Lemma sb_api_list_assets : preserves same_books api_list_assets.
Proof.
  intro s. unfold api_list_assets.
  destruct (list_assets_replies (api s)); simpl;
    [apply same_books_refl|apply same_books_set_api].
Qed.

Lemma sb_api_get_barset : preserves same_books api_get_barset.
Proof.
  intro s. unfold api_get_barset.
  destruct (get_barset_replies (api s)); simpl;
    [apply same_books_refl|apply same_books_set_api].
Qed.

Lemma sb_api_get_latest_trade : preserves same_books api_get_latest_trade.
Proof.
  intro s. unfold api_get_latest_trade.
  destruct (get_latest_trade_replies (api s)); simpl;
    [apply same_books_refl|apply same_books_set_api].
Qed.

Lemma sb_api_submit_order (sym : string) (qty : Z) (side : Side) :
  preserves same_books (api_submit_order sym qty side).
Proof.
  intro s. unfold api_submit_order.
  destruct (submit_order_replies (api s)); simpl; [apply same_books_refl|].
  eapply same_books_trans; [apply same_books_set_api|].
  apply same_books_emit. reflexivity.
Qed.

#[local] Hint Resolve sb_ret sb_reads sb_lift sb_sleep sb_api_list_assets
  sb_api_get_barset sb_api_get_latest_trade sb_api_submit_order : books.

Ltac books :=
  repeat first
    [ apply sb_bind; [|intro]
    | apply sb_log; intros; discriminate
    | solve [auto with books]
    | match goal with
      | |- preserves _ (match ?x with _ => _ end) => destruct x
      | |- preserves _ (if ?x then _ else _) => destruct x
      end ].

Lemma sb_scan_assets (assets : list Asset) :
  forall max_volume top_symbol,
    preserves same_books (scan_assets assets max_volume top_symbol).
Proof.
  induction assets as [|asset rest IH]; intros; simpl; books.
Qed.

#[local] Hint Resolve sb_scan_assets : books.

Lemma sb_get_most_traded_stock : preserves same_books get_most_traded_stock.
Proof. unfold get_most_traded_stock. books. Qed.

Lemma sb_get_current_price (sym : string) :
  preserves same_books (get_current_price sym).
Proof. unfold get_current_price. books. Qed.

Lemma sb_place_buy_order (sym : string) (quantity : Z) :
  preserves same_books (place_buy_order sym quantity).
Proof. unfold place_buy_order. books. Qed.

Lemma sb_place_sell_order (sym : string) (quantity : Z) :
  preserves same_books (place_sell_order sym quantity).
Proof. unfold place_sell_order. books. Qed.

#[local] Hint Resolve sb_get_most_traded_stock sb_get_current_price
  sb_place_buy_order sb_place_sell_order : books.

Lemma sb_monitor_loop (fuel : nat) (sym : string) (entry_price : float)
    (quantity : Z) (sl tp : float) :
  preserves same_books (monitor_loop fuel sym entry_price quantity sl tp).
Proof.
  induction fuel as [|fuel IH]; simpl.
  - intro s. apply same_books_refl.
  - books; exact IH.
Qed.

Lemma sb_monitor_position (sym : string) (entry_price : float) (quantity : Z)
    (sl tp : float) :
  preserves same_books (monitor_position sym entry_price quantity sl tp).
Proof. intro s. unfold monitor_position. apply sb_monitor_loop. Qed.

#[local] Hint Resolve sb_monitor_position : books.

(** ** One trade cycle *)

(** The decision tree of [execute_trade_cycle], stage by stage. *)
Lemma execute_trade_cycle_unfold (s : TradingBot) :
  execute_trade_cycle s =
  match get_most_traded_stock s with
  | Ret None s0 => Ret false (emit (Log CouldNotFindStock) s0)
  | Ret (Some sym) s0 =>
      if truthy_str sym then
        match api_get_latest_trade s0 with
        | Ret None s1 => Ret false (emit (Log (CouldNotGetPrice sym)) s1)
        | Ret (Some entry) s1 =>
            if truthy_float entry then
              match position_size (pot s1) entry with
              | Raises e => Raised e s1
              | Returns qty =>
                  if qty =? 0 then
                    Ret false (emit (Log (InsufficientFunds sym entry)) s1)
                  else
                    match api_submit_order sym qty buy s1 with
                    | Ret false s2 => Ret false s2
                    | Ret true s2 =>
                        match
                          monitor_position sym entry qty
                            (stop_loss_of entry (STOP_LOSS_PCT (config s1)))
                            (take_profit_of entry (TAKE_PROFIT_PCT (config s1)))
                            (emit (Sleep 5) s2)
                        with
                        | Ret outcome s3 =>
                            Ret true
                              (emit (Log (TradeCompleted (snd outcome)
                                            (fst outcome)))
                                 (book (fst outcome) s3))
                        | Blocked s3 => Blocked s3
                        | Raised e s3 => Raised e s3
                        end
                    | Blocked s2 => Blocked s2
                    | Raised e s2 => Raised e s2
                    end
              end
            else Ret false (emit (Log (CouldNotGetPrice sym)) s1)
        | Blocked s1 => Blocked s1
        | Raised e s1 => Raised e s1
        end
      else Ret false (emit (Log CouldNotFindStock) s0)
  | Blocked s0 => Blocked s0
  | Raised e s0 => Raised e s0
  end.
Proof.
  unfold execute_trade_cycle, get_current_price, place_buy_order.
  unfold bind at 1.
  destruct (get_most_traded_stock s) as [[sym|] s0|s0|e s0];
    try reflexivity.
  destruct (truthy_str sym); [|reflexivity]. cbn [negb].
  unfold bind at 1.
  destruct (api_get_latest_trade s0) as [[entry|] s1|s1|e s1];
    try reflexivity.
  destruct (truthy_float entry); [|reflexivity]. cbn [negb].
  unfold bind at 1, reads at 1. unfold bind at 1, lift.
  destruct (position_size (pot s1) entry) as [qty|e]; [|reflexivity].
  destruct (qty =? 0); [reflexivity|].
  unfold bind at 1, reads at 1. unfold bind at 1, reads at 1.
  unfold bind at 1. unfold bind at 1.
  destruct (api_submit_order sym qty buy s1) as [[|] s2|s2|e s2];
    reflexivity.
Qed.

(** The loop body in terms of what the cycle did. *)
Lemma run_body_unfold (s : TradingBot) :
  run_body s =
  match execute_trade_cycle s with
  | Ret true s1 =>
      if PrimFloat.leb (PROFIT_TARGET (config s1)) (total_profit s1)
      then Ret true (emit (Log ProfitTargetReached) s1)
      else Ret false (pause s1)
  | Ret false s1 => Ret false (cooldown s1)
  | Blocked s1 => Blocked s1
  | Raised e s1 => Ret false (recovery e s1)
  end.
Proof.
  unfold run_body, try_body, bind.
  destruct (execute_trade_cycle s) as [[|] s1|s1|e s1]; try reflexivity.
  cbn [negb]. unfold reads.
  destruct (PrimFloat.leb (PROFIT_TARGET (config s1)) (total_profit s1));
    reflexivity.
Qed.

Lemma execute_trade_cycle_books (s : TradingBot) :
  cycle_books s (execute_trade_cycle s).
Proof.
  rewrite execute_trade_cycle_unfold.
  pose proof (sb_get_most_traded_stock s) as H0.
  destruct (get_most_traded_stock s) as [[sym|] s0|s0|e s0]; simpl in H0;
    try exact H0.
  2:{ eapply same_books_trans; [exact H0|apply same_books_emit; reflexivity]. }
  destruct (truthy_str sym).
  2:{ eapply same_books_trans; [exact H0|apply same_books_emit; reflexivity]. }
  pose proof (sb_api_get_latest_trade s0) as H1.
  destruct (api_get_latest_trade s0) as [[entry|] s1|s1|e s1]; simpl in H1;
    try (eapply same_books_trans; eassumption).
  2:{ eapply same_books_trans; [exact H0|].
      eapply same_books_trans; [exact H1|apply same_books_emit; reflexivity]. }
  assert (B1 : same_books s s1) by (eapply same_books_trans; eassumption).
  clear H0 H1.
  destruct (truthy_float entry).
  2:{ eapply same_books_trans; [exact B1|apply same_books_emit; reflexivity]. }
  destruct (position_size (pot s1) entry) as [qty|e]; [|exact B1].
  destruct (qty =? 0).
  { eapply same_books_trans; [exact B1|apply same_books_emit; reflexivity]. }
  pose proof (sb_api_submit_order sym qty buy s1) as H2.
  destruct (api_submit_order sym qty buy s1) as [[|] s2|s2|e s2]; simpl in H2;
    try (eapply same_books_trans; eassumption).
  assert (B2 : same_books s (emit (Sleep 5) s2)).
  { eapply same_books_trans; [exact B1|].
    eapply same_books_trans; [exact H2|apply same_books_emit; reflexivity]. }
  set (sl := stop_loss_of _ _). set (tp := take_profit_of _ _).
  pose proof (sb_monitor_position sym entry qty sl tp (emit (Sleep 5) s2))
    as H4.
  destruct (monitor_position sym entry qty sl tp (emit (Sleep 5) s2))
    as [[result why] s4|s4|e s4]; simpl in H4;
    try (eapply same_books_trans; eassumption).
  assert (B4 : same_books s s4) by (eapply same_books_trans; eassumption).
  destruct B4 as (C4 & A4 & T4). unfold account in A4. inversion A4.
  cbn. exists why, result. repeat split.
  - exact C4.
  - unfold account, book, emit. simpl. congruence.
  - intro E. apply (f_equal trade_results) in E.
    rewrite trade_results_app, T4 in E. simpl in E.
    apply (f_equal (@List.length float)) in E. rewrite List.length_app in E.
    simpl in E. lia.
  - rewrite trade_results_app, T4. reflexivity.
  - exists (effects s4). reflexivity.
Qed.

Lemma same_books_cooldown (s : TradingBot) : same_books s (cooldown s).
Proof.
  unfold cooldown.
  eapply same_books_trans; apply same_books_emit; reflexivity.
Qed.

Lemma same_books_recovery (e : Exception) (s : TradingBot) :
  same_books s (recovery e s).
Proof.
  unfold recovery.
  eapply same_books_trans; apply same_books_emit; reflexivity.
Qed.

Lemma same_books_pause (s : TradingBot) : same_books s (pause s).
Proof. unfold pause. apply same_books_emit. reflexivity. Qed.

(** What the loop body adds after the cycle leaves the books alone. *)
Lemma run_body_after_cycle (s : TradingBot) :
  same_books (final (execute_trade_cycle s)) (final (run_body s)).
Proof.
  rewrite run_body_unfold.
  destruct (execute_trade_cycle s) as [[|] s1|s1|e s1]; simpl.
  - destruct (PrimFloat.leb _ _); simpl;
      [apply same_books_emit; reflexivity|apply same_books_pause].
  - apply same_books_cooldown.
  - apply same_books_refl.
  - apply same_books_recovery.
Qed.

(** * Rounding in binary64 *)

(** Powers of two and values. *)
Lemma bpow_pos e : (0 < bpow e)%R.
Proof. apply powerRZ_lt; lra. Qed.

Lemma bpow_add a b : bpow (a + b) = (bpow a * bpow b)%R.
Proof. apply powerRZ_add; lra. Qed.

Lemma bpow_IZR k : 0 <= k -> bpow k = IZR (2 ^ k).
Proof.
  destruct k as [|p|p]; [reflexivity| |lia]. intros _.
  unfold bpow. change (2 ^ Z.pos p) with (Z.pow_pos 2 p).
  rewrite Zpower_pos_powerRZ. reflexivity.
Qed.

Lemma bpow_ge_1 k : 0 <= k -> (1 <= bpow k)%R.
Proof.
  intros H. rewrite bpow_IZR by assumption. apply IZR_le.
  pose proof (Z.pow_pos_nonneg 2 k). lia.
Qed.

Lemma bpow_le a b : a <= b -> (bpow a <= bpow b)%R.
Proof.
  intros H. replace b with (a + (b - a)) by lia. rewrite bpow_add.
  assert (1 <= bpow (b - a))%R by (apply bpow_ge_1; lia).
  pose proof (bpow_pos a). nra.
Qed.

Lemma bpow_lt a b : a < b -> (bpow a < bpow b)%R.
Proof.
  intros H. replace b with (a + 1 + (b - a - 1)) by lia.
  rewrite !bpow_add.
  assert (bpow 1 = 2%R) as -> by (unfold bpow; simpl; lra).
  assert (1 <= bpow (b - a - 1))%R by (apply bpow_ge_1; lia).
  pose proof (bpow_pos a). nra.
Qed.

Lemma bpow_lt_inv a b : (bpow a < bpow b)%R -> a < b.
Proof.
  intros H. destruct (Z_lt_le_dec a b) as [L|L]; [assumption|].
  apply bpow_le in L. lra.
Qed.

Lemma bpow_le_inv a b : (bpow a <= bpow b)%R -> a <= b.
Proof.
  intros H. destruct (Z_le_gt_dec a b) as [L|L]; [assumption|].
  assert (b < a) as L' by lia. apply bpow_lt in L'. lra.
Qed.

Lemma val_shift m e k : 0 <= k -> val (m * 2 ^ k) e = val m (e + k).
Proof.
  intros H. unfold val. rewrite mult_IZR, bpow_add, <- bpow_IZR by assumption.
  ring.
Qed.

Lemma val_le m1 m2 e : m1 <= m2 -> (val m1 e <= val m2 e)%R.
Proof.
  intros H. unfold val. apply IZR_le in H. pose proof (bpow_pos e). nra.
Qed.

Lemma val_lt m1 m2 e : m1 < m2 -> (val m1 e < val m2 e)%R.
Proof.
  intros H. unfold val. apply IZR_lt in H. pose proof (bpow_pos e). nra.
Qed.

Lemma val_le_inv m1 m2 e : (val m1 e <= val m2 e)%R -> m1 <= m2.
Proof.
  intros H. destruct (Z_le_gt_dec m1 m2) as [L|L]; [assumption|].
  assert (m2 < m1) as L' by lia. apply (val_lt _ _ e) in L'. lra.
Qed.

Lemma val_lt_inv m1 m2 e : (val m1 e < val m2 e)%R -> m1 < m2.
Proof.
  intros H. destruct (Z_lt_le_dec m1 m2) as [L|L]; [assumption|].
  apply (val_le _ _ e) in L. lra.
Qed.

Lemma val_pos m e : 0 < m -> (0 < val m e)%R.
Proof.
  intros H. unfold val. apply IZR_lt in H. pose proof (bpow_pos e). nra.
Qed.

Lemma val_bpow k e : 0 <= k -> val (2 ^ k) e = bpow (k + e).
Proof.
  intros H. unfold val. rewrite <- bpow_IZR, bpow_add by assumption.
  reflexivity.
Qed.

Lemma digits2_bounds m :
  2 ^ (Zpos (digits2_pos m) - 1) <= Zpos m < 2 ^ Zpos (digits2_pos m).
Proof.
  induction m as [m IH|m IH|]; cbn [digits2_pos].
  - rewrite Pos2Z.inj_succ, Pos2Z.inj_xI.
    replace (Z.succ (Zpos (digits2_pos m)) - 1)
      with (Z.succ (Zpos (digits2_pos m) - 1)) by lia.
    rewrite !Z.pow_succ_r by lia. lia.
  - rewrite Pos2Z.inj_succ, (Pos2Z.inj_xO m).
    replace (Z.succ (Zpos (digits2_pos m)) - 1)
      with (Z.succ (Zpos (digits2_pos m) - 1)) by lia.
    rewrite !Z.pow_succ_r by lia. lia.
  - simpl. lia.
Qed.

Lemma val_mag m e :
  (bpow (mag m e - 1) <= val (Zpos m) e < bpow (mag m e))%R.
Proof.
  pose proof (digits2_bounds m) as [L U]. unfold mag.
  replace (Zpos (digits2_pos m) + e - 1)
    with ((Zpos (digits2_pos m) - 1) + e) by lia.
  rewrite <- !val_bpow by lia. split; [apply val_le|apply val_lt]; assumption.
Qed.

Lemma digits_unique m d :
  0 < d -> 2 ^ (d - 1) <= Zpos m < 2 ^ d -> Zpos (digits2_pos m) = d.
Proof.
  intros Hd [L U]. pose proof (digits2_bounds m) as [L' U'].
  assert (d - 1 < Zpos (digits2_pos m)).
  { apply (Z.pow_lt_mono_r_iff 2); lia. }
  assert (Zpos (digits2_pos m) - 1 < d).
  { apply (Z.pow_lt_mono_r_iff 2); lia. }
  lia.
Qed.

Lemma fexp_eq e : fexp prec emax e = Z.max (e - 53) (-1074).
Proof. reflexivity. Qed.

Lemma fexp_mono a b : a <= b -> fexp prec emax a <= fexp prec emax b.
Proof. rewrite !fexp_eq. lia. Qed.

Lemma canonical_inv m e :
  canonical_mantissa prec emax m e = true ->
  e = Z.max (mag m e - 53) (-1074).
Proof.
  unfold canonical_mantissa. rewrite fexp_eq. unfold mag. lia.
Qed.

Lemma bounded_inv m e :
  bounded prec emax m e = true ->
  e = Z.max (mag m e - 53) (-1074) /\ e <= 971.
Proof.
  unfold bounded. intros H. apply andb_prop in H as [C B].
  split; [apply canonical_inv; assumption|].
  change (emax - prec) with 971 in B. lia.
Qed.

(** Order of two canonical positive numbers. *)
Lemma canonical_lt_exp m1 e1 m2 e2 :
  canonical_mantissa prec emax m1 e1 = true ->
  canonical_mantissa prec emax m2 e2 = true ->
  e1 < e2 -> (val (Zpos m1) e1 < val (Zpos m2) e2)%R.
Proof.
  intros C1 C2 L. apply canonical_inv in C1, C2.
  pose proof (val_mag m1 e1) as [_ U]. pose proof (val_mag m2 e2) as [L2 _].
  assert (mag m1 e1 <= mag m2 e2 - 1) as M by lia.
  apply bpow_le in M. lra.
Qed.

Lemma SFcompare_val m1 e1 m2 e2 :
  canonical_mantissa prec emax m1 e1 = true ->
  canonical_mantissa prec emax m2 e2 = true ->
  SFcompare (S754_finite false m1 e1) (S754_finite false m2 e2) =
  Some (if Rlt_dec (val (Zpos m1) e1) (val (Zpos m2) e2) then Lt
        else if Rlt_dec (val (Zpos m2) e2) (val (Zpos m1) e1) then Gt
        else Eq).
Proof.
  intros C1 C2. cbn [SFcompare]. f_equal.
  destruct (Z.compare_spec e1 e2) as [E|L|G].
  - subst e2. rewrite Pos.compare_cont_spec. cbn [Pos.switch_Eq].
    fold (Pos.compare m1 m2).
    destruct (Pos.compare_spec m1 m2) as [E|L|G].
    + subst m2. destruct (Rlt_dec _ _) as [H|H]; [lra|reflexivity].
    + assert (Zpos m1 < Zpos m2) as H by lia. apply (val_lt _ _ e1) in H.
      destruct (Rlt_dec _ _); [reflexivity|lra].
    + assert (Zpos m2 < Zpos m1) as H by lia. apply (val_lt _ _ e1) in H.
      destruct (Rlt_dec _ _); [lra|]. destruct (Rlt_dec _ _); [reflexivity|lra].
  - pose proof (canonical_lt_exp _ _ _ _ C1 C2 L).
    destruct (Rlt_dec _ _); [reflexivity|lra].
  - assert (e2 < e1) as L by lia.
    pose proof (canonical_lt_exp _ _ _ _ C2 C1 L).
    destruct (Rlt_dec _ _); [lra|]. destruct (Rlt_dec _ _); [reflexivity|lra].
Qed.

Lemma SFleb_val m1 e1 m2 e2 :
  canonical_mantissa prec emax m1 e1 = true ->
  canonical_mantissa prec emax m2 e2 = true ->
  SFleb (S754_finite false m1 e1) (S754_finite false m2 e2) = true <->
  (val (Zpos m1) e1 <= val (Zpos m2) e2)%R.
Proof.
  intros C1 C2. unfold SFleb. rewrite (SFcompare_val _ _ _ _ C1 C2).
  destruct (Rlt_dec _ _); [split; [lra|reflexivity]|].
  destruct (Rlt_dec _ _); split; intros; try lra; try discriminate; reflexivity.
Qed.

Lemma SFltb_val m1 e1 m2 e2 :
  canonical_mantissa prec emax m1 e1 = true ->
  canonical_mantissa prec emax m2 e2 = true ->
  SFltb (S754_finite false m1 e1) (S754_finite false m2 e2) = true <->
  (val (Zpos m1) e1 < val (Zpos m2) e2)%R.
Proof.
  intros C1 C2. unfold SFltb. rewrite (SFcompare_val _ _ _ _ C1 C2).
  destruct (Rlt_dec _ _); [split; [intros; assumption|reflexivity]|].
  destruct (Rlt_dec _ _); split; intros; try lra; try discriminate.
Qed.


(** Shifting right. *)
Lemma shr_1_inv x0 m0 k x :
  0 <= k -> shr_inv x0 m0 k x -> shr_inv x0 m0 (k + 1) (shr_1 x).
Proof.
  intros Hk [Hm [rem [E [B F]]]]. destruct x as [m r s].
  cbn [shr_m shr_r shr_s] in *.
  assert (2 ^ (k + 1) = 2 * 2 ^ k) as P
    by (rewrite Z.pow_add_r, Z.pow_1_r by lia; lia).
  assert (orb r s = false <-> r = false /\ s = false) as O
    by (destruct r, s; simpl; intuition congruence).
  unfold shr_inv. rewrite P.
  destruct m as [|[p|p|]|]; cbn [shr_1 shr_m shr_r shr_s]; try lia.
  - split; [lia|]. exists rem.
    split; [lia|]. split; [lia|]. rewrite F, O. intuition.
  - split; [lia|]. exists (2 ^ k + rem). rewrite (Pos2Z.inj_xI p) in E.
    split; [lia|]. split; [lia|].
    split; [intros [? _]; lia|intros [? _]; discriminate].
  - split; [lia|]. exists rem. rewrite (Pos2Z.inj_xO p) in E.
    split; [lia|]. split; [lia|]. rewrite F, O. intuition.
  - split; [lia|]. exists (2 ^ k + rem).
    split; [lia|]. split; [lia|].
    split; [intros [? _]; lia|intros [? _]; discriminate].
Qed.

Lemma iter_shr_inv x0 p : forall m0 k x,
  0 <= k -> shr_inv x0 m0 k x ->
  shr_inv x0 m0 (k + Zpos p) (iter_pos shr_1 p x).
Proof.
  induction p as [p IH|p IH|]; intros m0 k x Hk H; cbn [iter_pos].
  - replace (k + Zpos p~1) with (k + 1 + Zpos p + Zpos p) by lia.
    apply IH; [lia|]. apply IH; [lia|]. apply shr_1_inv; assumption.
  - replace (k + Zpos p~0) with (k + Zpos p + Zpos p) by lia.
    apply IH; [lia|]. apply IH; assumption.
  - apply shr_1_inv; assumption.
Qed.

Lemma shr_loc_inv m l n e :
  0 <= m ->
  exists x, shr (shr_record_of_loc m l) e n = (x, e + Z.max n 0) /\
            shr_inv (loc_exact l) m (Z.max n 0) x.
Proof.
  intros Hm.
  assert (shr_inv (loc_exact l) m 0 (shr_record_of_loc m l)) as I.
  { destruct l as [|[| |]]; (split; [assumption|]); exists 0; cbn;
      (split; [lia|]); (split; [lia|]); intuition discriminate. }
  destruct n as [|p|p].
  - eexists. split; [cbn; rewrite Z.add_0_r; reflexivity|assumption].
  - eexists. split; [reflexivity|].
    rewrite Z.max_l by lia. apply (iter_shr_inv _ p m 0 _ (Z.le_refl 0) I).
  - eexists. split; [cbn; rewrite Z.add_0_r; reflexivity|assumption].
Qed.

Lemma round_nearest_even_cases x :
  round_nearest_even (shr_m x) (loc_of_shr_record x) = shr_m x \/
  (round_nearest_even (shr_m x) (loc_of_shr_record x) = shr_m x + 1 /\
   ~ (shr_r x = false /\ shr_s x = false)).
Proof.
  destruct x as [m [|] [|]]; cbn.
  - right. split; [reflexivity|intros [? _]; discriminate].
  - destruct (Z.even m); [left; reflexivity|].
    right. split; [reflexivity|intros [? _]; discriminate].
  - left. reflexivity.
  - left. reflexivity.
Qed.

Lemma Zdigits2_bounds m :
  0 <= m -> m + 1 <= 2 ^ Zdigits2 m /\ (0 < m -> 2 ^ (Zdigits2 m - 1) <= m).
Proof.
  intros H. destruct m as [|p|p]; [cbn; lia| |lia].
  pose proof (digits2_bounds p). cbn [Zdigits2]. split; [lia|]. intros _. lia.
Qed.

(** The two halves of [binary_round_aux]: the mantissa is cut at the
    exponent of the rounding and moved up by one or not; then it is
    renormalised, which cuts one more bit when the first half has carried
    into a new bit. *)
Lemma round_first s m0 e0 l :
  0 <= m0 -> e0 <= fexp prec emax (Zdigits2 m0 + e0) ->
  exists m1 m' rem,
    m0 = m' * 2 ^ (fexp prec emax (Zdigits2 m0 + e0) - e0) + rem /\
    0 <= rem < 2 ^ (fexp prec emax (Zdigits2 m0 + e0) - e0) /\ 0 <= m' /\
    (m1 = m' \/ (m1 = m' + 1 /\ ~ (rem = 0 /\ loc_exact l = true))) /\
    binary_round_aux prec emax s m0 e0 l =
    finish s m1 (fexp prec emax (Zdigits2 m0 + e0)).
Proof.
  intros H0 Hn. unfold binary_round_aux, finish.
  unfold shr_fexp at 1.
  destruct (shr_loc_inv m0 l (fexp prec emax (Zdigits2 m0 + e0) - e0) e0 H0)
    as [x [E [Hx [rem [E1 [B F]]]]]].
  rewrite E. rewrite Z.max_l in * by lia.
  replace (e0 + (fexp prec emax (Zdigits2 m0 + e0) - e0))
    with (fexp prec emax (Zdigits2 m0 + e0)) by lia.
  exists (round_nearest_even (shr_m x) (loc_of_shr_record x)), (shr_m x), rem.
  split; [assumption|]. split; [assumption|]. split; [assumption|].
  split; [|reflexivity].
  destruct (round_nearest_even_cases x) as [C|[C N]]; [left; assumption|].
  right. split; [assumption|]. intros R. apply N, F, R.
Qed.

Lemma round_second s m1 e' :
  0 <= m1 ->
  exists m'' rem2,
    let e'' := Z.max e' (fexp prec emax (Zdigits2 m1 + e')) in
    m1 = m'' * 2 ^ (e'' - e') + rem2 /\ 0 <= rem2 < 2 ^ (e'' - e') /\
    0 <= m'' /\
    finish s m1 e' =
    match m'' with
    | Z0 => S754_zero s
    | Zpos m => if Z.leb e'' (emax - prec) then S754_finite s m e''
                else S754_infinity s
    | Zneg _ => S754_nan
    end.
Proof.
  intros H1. unfold finish, shr_fexp.
  destruct (shr_loc_inv m1 loc_Exact
              (fexp prec emax (Zdigits2 m1 + e') - e') e' H1)
    as [x [E [Hx [rem [E1 [B F]]]]]].
  rewrite E. exists (shr_m x), rem. cbv zeta.
  replace (Z.max e' (fexp prec emax (Zdigits2 m1 + e')) - e')
    with (Z.max (fexp prec emax (Zdigits2 m1 + e') - e') 0) by lia.
  split; [assumption|]. split; [assumption|]. split; [assumption|].
  replace (e' + Z.max (fexp prec emax (Zdigits2 m1 + e') - e') 0)
    with (Z.max e' (fexp prec emax (Zdigits2 m1 + e'))) by lia.
  reflexivity.
Qed.

(** Rounding is monotone against binary64 numbers: a number at or below a
    positive binary64 number does not round above it ... *)
Lemma round_UB (X : R) l m0 e0 mb eb :
  0 <= m0 -> e0 <= fexp prec emax (Zdigits2 m0 + e0) ->
  (val m0 e0 <= X)%R -> (loc_exact l = false -> (val m0 e0 < X)%R) ->
  bounded prec emax mb eb = true ->
  (X <= val (Zpos mb) eb)%R ->
  valid_binary (binary_round_aux prec emax false m0 e0 l) = true ->
  SFleb (binary_round_aux prec emax false m0 e0 l)
        (S754_finite false mb eb) = true.
Proof.
  intros H0 Hn HX Hin HB Hv Hr.
  pose proof HB as HB'. apply andb_prop in HB' as [CB _].
  apply bounded_inv in HB as [Eb Ub].
  pose proof (val_mag mb eb) as [Lb Uub].
  destruct (round_first false m0 e0 l H0 Hn)
    as [m1 [m' [rem [E [Brem [Hm' [C R]]]]]]].
  rewrite R in *. clear R.
  remember (fexp prec emax (Zdigits2 m0 + e0)) as e' eqn:He'.
  rewrite fexp_eq in He'.
  assert (e' <= eb) as He.
  { destruct m0 as [|p|p]; [cbn [Zdigits2] in He'; lia| |lia].
    pose proof (val_mag p e0) as [Lx _]. cbn [Zdigits2] in He'.
    fold (mag p e0) in He'.
    assert (mag p e0 - 1 < mag mb eb) by (apply bpow_lt_inv; lra). lia. }
  assert (val (Zpos mb) eb = val (Zpos mb * 2 ^ (eb - e')) e') as VB.
  { rewrite val_shift by lia. f_equal. lia. }
  assert (val (m' * 2 ^ (e' - e0)) e0 = val m' e') as Vlo.
  { rewrite val_shift by lia. f_equal. lia. }
  assert (val m' e' <= val m0 e0)%R as Hlo.
  { rewrite <- Vlo. apply val_le. lia. }
  assert (m1 <= Zpos mb * 2 ^ (eb - e')) as H1.
  { destruct C as [C|[C N]]; subst m1.
    - apply (val_le_inv _ _ e'). rewrite <- VB. lra.
    - assert (m' < Zpos mb * 2 ^ (eb - e')); [|lia].
      apply (val_lt_inv _ _ e'). rewrite <- VB.
      apply Rlt_le_trans with (2 := Hv).
      destruct (Z.eq_dec rem 0) as [Q|Q].
      + destruct (loc_exact l); [exfalso; apply N; split; trivial|].
        specialize (Hin eq_refl). lra.
      + apply Rlt_le_trans with (2 := HX). rewrite <- Vlo.
        apply val_lt. lia. }
  assert (0 <= m1) as H0' by (destruct C as [C|[C _]]; lia).
  destruct (round_second false m1 e' H0') as [m'' [rem2 [E2 [B2 [Hm'' F]]]]].
  cbv zeta in *. rewrite F in *. clear F.
  destruct m'' as [|p|p]; [reflexivity| |lia].
  assert (0 < m1) as Hpos.
  { pose proof (Z.pow_pos_nonneg 2
                  (Z.max e' (fexp prec emax (Zdigits2 m1 + e')) - e')).
    nia. }
  destruct m1 as [|q|q]; try lia. cbn [Zdigits2] in *. fold (mag q e') in *.
  assert (val (Zpos q) e' <= val (Zpos mb) eb)%R as Vq.
  { rewrite VB. apply val_le. assumption. }
  pose proof (val_mag q e') as [Lq Uq].
  assert (mag q e' <= mag mb eb) as Hmq.
  { assert (mag q e' - 1 < mag mb eb) by (apply bpow_lt_inv; lra). lia. }
  remember (Z.max e' (fexp prec emax (mag q e'))) as e'' eqn:He''.
  rewrite fexp_eq in He''.
  assert (e'' <= eb) as Hle by lia.
  assert ((e'' <=? emax - prec) = true) as Le.
  { change (emax - prec) with 971. lia. }
  rewrite Le in *. cbn [valid_binary] in Hr. apply andb_prop in Hr as [Cr _].
  apply SFleb_val; [assumption|assumption|].
  apply Rle_trans with (2 := Vq).
  replace e'' with (e' + (e'' - e')) by lia. rewrite <- val_shift by lia.
  apply val_le. lia.
Qed.

(** ... and a number at or above a positive binary64 number does not round
    below it. *)
Lemma round_LB (X : R) l m0 e0 mb eb :
  0 <= m0 -> e0 <= fexp prec emax (Zdigits2 m0 + e0) ->
  (X < val (m0 + 1) e0)%R ->
  bounded prec emax mb eb = true ->
  (val (Zpos mb) eb <= X)%R ->
  valid_binary (binary_round_aux prec emax false m0 e0 l) = true ->
  SFleb (S754_finite false mb eb)
        (binary_round_aux prec emax false m0 e0 l) = true.
Proof.
  intros H0 Hn HX HB Hv Hr.
  pose proof HB as HB'. apply andb_prop in HB' as [CB _].
  apply bounded_inv in HB as [Eb Ub].
  pose proof (val_mag mb eb) as [Lb Uub].
  destruct (Zdigits2_bounds m0 H0) as [Du Dl].
  assert (X < bpow (Zdigits2 m0 + e0))%R as Ux.
  { apply Rlt_le_trans with (1 := HX).
    assert (0 <= Zdigits2 m0) by (destruct m0; cbn; lia).
    rewrite <- val_bpow by lia. apply val_le. lia. }
  assert (mag mb eb <= Zdigits2 m0 + e0) as Hmag.
  { assert (mag mb eb - 1 < Zdigits2 m0 + e0) by (apply bpow_lt_inv; lra).
    lia. }
  destruct (round_first false m0 e0 l H0 Hn)
    as [m1 [m' [rem [E [Brem [Hm' [C R]]]]]]].
  rewrite R in *. clear R.
  remember (fexp prec emax (Zdigits2 m0 + e0)) as e' eqn:He'.
  rewrite fexp_eq in He'.
  assert (eb <= e') as He by lia.
  remember (e' - e0) as n eqn:Hn'.
  assert (0 <= n) as Hn0 by lia.
  assert (val ((m' + 1) * 2 ^ n) e0 = val (m' + 1) e') as Vhi.
  { rewrite val_shift by lia. f_equal. lia. }
  assert (X < val (m' + 1) e')%R as Hhi.
  { rewrite <- Vhi. apply Rlt_le_trans with (1 := HX). apply val_le. lia. }
  assert (m' < 2 ^ 53) as M53.
  { destruct (Z.eq_dec m0 0) as [Q|Q].
    - pose proof (Z.pow_pos_nonneg 2 n). change (2 ^ 53) with 9007199254740992.
      nia.
    - assert (0 <= Zdigits2 m0) by (destruct m0; cbn; lia).
      assert (2 ^ Zdigits2 m0 <= 2 ^ 53 * 2 ^ n) as P2.
      { rewrite <- Z.pow_add_r by lia. apply Z.pow_le_mono_r; lia. }
      pose proof (Z.pow_pos_nonneg 2 n). nia. }
  assert (val (Zpos mb) eb <= val m1 e')%R as H1.
  { destruct C as [C|[C N]]; subst m1; [|lra].
    destruct (Z.eq_dec eb e') as [Q|Q].
    - rewrite Q in Hv |- *. apply val_le. assert (Zpos mb < m' + 1); [|lia].
      apply (val_lt_inv _ _ e'). lra.
    - assert (0 < m0) as Hp.
      { destruct m0 as [|p|p]; [cbn [Zdigits2] in He'; lia|lia|lia]. }
      specialize (Dl Hp). unfold mag in *.
      assert (2 ^ (Zdigits2 m0 - 1) = 2 ^ 52 * 2 ^ n) as P.
      { rewrite <- Z.pow_add_r by lia. f_equal. lia. }
      assert (2 ^ 52 <= m') as M.
      { pose proof (Z.pow_pos_nonneg 2 n). nia. }
      apply (val_le _ _ e') in M. rewrite val_bpow in M by lia.
      assert (Zpos (digits2_pos mb) + eb <= 52 + e') as M' by lia.
      apply bpow_le in M'. lra. }
  assert (0 < m1) as Hpos.
  { apply (val_lt_inv 0 m1 e'). unfold val at 1. rewrite Rmult_0_l.
    assert (0 < val (Zpos mb) eb)%R by (apply val_pos; lia). lra. }
  destruct (round_second false m1 e') as [m'' [rem2 [E2 [B2 [Hm'' F]]]]];
    [lia|].
  cbv zeta in *. rewrite F in *. clear F.
  destruct m1 as [|q|q]; try lia. cbn [Zdigits2] in E2, B2, Hr |- *.
  pose proof (digits2_bounds q) as [Ql Qu].
  remember (Z.max e' (fexp prec emax (Zpos (digits2_pos q) + e'))) as e''
    eqn:He''.
  rewrite fexp_eq in He''.
  assert (rem2 = 0) as Hex.
  { destruct (Z.eq_dec e'' e') as [Q|Q].
    - rewrite Q, Z.sub_diag in B2. simpl in B2. lia.
    - assert (53 < Zpos (digits2_pos q)) as Dq by lia.
      assert (2 ^ 53 <= 2 ^ (Zpos (digits2_pos q) - 1)) as P1
        by (apply Z.pow_le_mono_r; lia).
      assert (Zpos q = 2 ^ 53) as Hq by (destruct C as [C|[C _]]; lia).
      assert (Zpos (digits2_pos q) = 54) as D54.
      { apply digits_unique; [lia|]. rewrite Hq. simpl. lia. }
      assert (e'' - e' = 1) as S1 by lia.
      rewrite S1, Hq in *. change (2 ^ 1) with 2 in *.
      change (2 ^ 53) with 9007199254740992 in *. lia. }
  subst rem2.
  assert (0 < m'') as Hm2.
  { pose proof (Z.pow_pos_nonneg 2 (e'' - e')). nia. }
  destruct m'' as [|p|p]; try lia.
  destruct (e'' <=? emax - prec) eqn:Le; [|reflexivity].
  cbn [valid_binary] in Hr. apply andb_prop in Hr as [Cr _].
  apply SFleb_val; [assumption|assumption|].
  apply Rle_trans with (1 := H1).
  replace e'' with (e' + (e'' - e')) at 1 by lia. rewrite <- val_shift by lia.
  apply val_le. lia.
Qed.

(** A number at or above 2^1024 rounds to the infinity. *)
Lemma round_overflow (X : R) l m0 e0 :
  0 <= m0 -> e0 <= fexp prec emax (Zdigits2 m0 + e0) ->
  (X < val (m0 + 1) e0)%R -> (bpow 1024 <= X)%R ->
  binary_round_aux prec emax false m0 e0 l = S754_infinity false.
Proof.
  intros H0 Hn HX L.
  destruct (Zdigits2_bounds m0 H0) as [Du Dl].
  assert (0 <= Zdigits2 m0) as Dn by (destruct m0; cbn; lia).
  assert (X < bpow (Zdigits2 m0 + e0))%R as Ux.
  { apply Rlt_le_trans with (1 := HX).
    rewrite <- val_bpow by lia. apply val_le. lia. }
  assert (1024 < Zdigits2 m0 + e0) as M by (apply bpow_lt_inv; lra).
  destruct (round_first false m0 e0 l H0 Hn)
    as [m1 [m' [rem [E [Brem [Hm' [C R]]]]]]].
  rewrite R. clear R.
  remember (fexp prec emax (Zdigits2 m0 + e0)) as e' eqn:He'.
  rewrite fexp_eq in He'.
  assert (0 < m0) as Hp.
  { destruct m0 as [|p|p]; [cbn [Zdigits2] in *; lia|lia|lia]. }
  specialize (Dl Hp).
  assert (0 <= m1) as H0' by (destruct C as [C|[C _]]; lia).
  destruct (round_second false m1 e' H0') as [m'' [rem2 [E2 [B2 [Hm'' F]]]]].
  cbv zeta in *. rewrite F. clear F.
  remember (Z.max e' (fexp prec emax (Zdigits2 m1 + e'))) as e'' eqn:He''.
  assert (972 <= e'') as G by lia.
  assert (2 ^ (Zdigits2 m0 - 1) = 2 ^ 52 * 2 ^ (e' - e0)) as P.
  { rewrite <- Z.pow_add_r by lia. f_equal. lia. }
  assert (2 ^ 52 <= m') as M1.
  { pose proof (Z.pow_pos_nonneg 2 (e' - e0)). nia. }
  destruct m'' as [|p|p]; [|destruct (e'' <=? emax - prec) eqn:Le|lia].
  - exfalso.
    assert (e'' - e' <= 1) as S1.
    { subst e''. rewrite fexp_eq.
      assert (m1 <= 2 ^ 53) as M2.
      { assert (2 ^ Zdigits2 m0 = 2 ^ 53 * 2 ^ (e' - e0)) as P2.
        { rewrite <- Z.pow_add_r by lia. f_equal. lia. }
        pose proof (Z.pow_pos_nonneg 2 (e' - e0)).
        assert (m' < 2 ^ 53) by nia. destruct C as [C|[C _]]; lia. }
      destruct m1 as [|q|q]; try lia. cbn [Zdigits2].
      pose proof (digits2_bounds q) as [Ql Qu].
      assert (Zpos (digits2_pos q) - 1 < 54).
      { apply (Z.pow_lt_mono_r_iff 2); [lia|lia|].
        change (2 ^ 54) with (2 * 2 ^ 53). lia. }
      lia. }
    assert (0 <= e'' - e') by lia.
    assert (2 ^ (e'' - e') <= 2 ^ 1) as P3 by (apply Z.pow_le_mono_r; lia).
    change (2 ^ 1) with 2 in P3.
    change (2 ^ 52) with 4503599627370496 in *. nia.
  - change (emax - prec) with 971 in Le. lia.
  - reflexivity.
Qed.

(** What is rounded here is not negative, and neither is its rounding. *)
Lemma round_nonneg l m0 e0 :
  0 <= m0 -> e0 <= fexp prec emax (Zdigits2 m0 + e0) ->
  match binary_round_aux prec emax false m0 e0 l with
  | S754_zero s => s = false
  | S754_infinity s => s = false
  | S754_nan => False
  | S754_finite s _ _ => s = false
  end.
Proof.
  intros H0 Hn.
  destruct (round_first false m0 e0 l H0 Hn)
    as [m1 [m' [rem [E [Brem [Hm' [C R]]]]]]].
  rewrite R. clear R.
  assert (0 <= m1) as H0' by (destruct C as [C|[C _]]; lia).
  destruct (round_second false m1 (fexp prec emax (Zdigits2 m0 + e0)) H0')
    as [m'' [rem2 [E2 [B2 [Hm'' F]]]]].
  cbv zeta in F. rewrite F.
  destruct m'' as [|p|p]; [reflexivity| |lia].
  destruct (_ <=? _); reflexivity.
Qed.

(** Monotonicity, for whatever is rounded. *)
Lemma rounds_to_UB X r mb eb :
  rounds_to X r -> valid_binary r = true ->
  bounded prec emax mb eb = true ->
  (X <= val (Zpos mb) eb)%R ->
  SFleb r (S754_finite false mb eb) = true.
Proof.
  intros (m0 & e0 & l & -> & H0 & A & [L U] & Ex & In) V B H.
  apply (round_UB X); assumption.
Qed.

Lemma rounds_to_LB X r mb eb :
  rounds_to X r -> valid_binary r = true ->
  bounded prec emax mb eb = true ->
  (val (Zpos mb) eb <= X)%R ->
  SFleb (S754_finite false mb eb) r = true.
Proof.
  intros (m0 & e0 & l & -> & H0 & A & [L U] & Ex & In) V B H.
  apply (round_LB X); assumption.
Qed.

Lemma rounds_to_overflow X r :
  rounds_to X r -> (bpow 1024 <= X)%R -> r = S754_infinity false.
Proof.
  intros (m0 & e0 & l & -> & H0 & A & [L U] & Ex & In) H.
  apply (round_overflow X); assumption.
Qed.

(** A rounding between two positive binary64 numbers is one. *)
Lemma rounds_to_between X r ml el mh eh :
  rounds_to X r -> valid_binary r = true ->
  bounded prec emax ml el = true -> bounded prec emax mh eh = true ->
  (val (Zpos ml) el <= X <= val (Zpos mh) eh)%R ->
  exists mr er,
    r = S754_finite false mr er /\ bounded prec emax mr er = true /\
    (val (Zpos ml) el <= val (Zpos mr) er <= val (Zpos mh) eh)%R.
Proof.
  intros Hr V Bl Bh [L U].
  pose proof (rounds_to_UB _ _ _ _ Hr V Bh U) as HU.
  pose proof (rounds_to_LB _ _ _ _ Hr V Bl L) as HL.
  destruct r as [s|s| |s mr er].
  - destruct s; cbn in HL; discriminate.
  - destruct s; cbn in HL, HU; discriminate.
  - cbn in HL; discriminate.
  - destruct s; [cbn in HL; discriminate|]. exists mr, er.
    split; [reflexivity|]. split; [exact V|].
    cbn [valid_binary] in V. pose proof V as V'. apply andb_prop in V' as [C _].
    pose proof Bl as Bl'. apply andb_prop in Bl' as [Cl _].
    pose proof Bh as Bh'. apply andb_prop in Bh' as [Ch _].
    split; [apply (SFleb_val _ _ _ _ Cl C)|apply (SFleb_val _ _ _ _ C Ch)];
      assumption.
Qed.

(** Strict order after rounding: a binary64 number in between decides. *)
Lemma rounds_to_lt X r mb eb mc ec :
  rounds_to X r -> valid_binary r = true ->
  bounded prec emax mb eb = true -> bounded prec emax mc ec = true ->
  (X <= val (Zpos mb) eb)%R ->
  (val (Zpos mb) eb < val (Zpos mc) ec)%R ->
  SFltb r (S754_finite false mc ec) = true.
Proof.
  intros Hr V Bb Bc L1 L2.
  pose proof (rounds_to_UB _ _ _ _ Hr V Bb L1) as HU.
  destruct r as [s|s| |s mr er].
  - destruct s; reflexivity.
  - destruct s; [reflexivity|cbn in HU; discriminate].
  - cbn in HU; discriminate.
  - destruct s; [reflexivity|].
    cbn [valid_binary] in V. apply andb_prop in V as [C _].
    apply andb_prop in Bb as [Cb _]. apply andb_prop in Bc as [Cc _].
    apply (SFleb_val _ _ _ _ C Cb) in HU.
    apply (SFltb_val _ _ _ _ C Cc). lra.
Qed.

Lemma rounds_to_gt X r mb eb mc ec :
  rounds_to X r -> valid_binary r = true ->
  bounded prec emax mb eb = true -> bounded prec emax mc ec = true ->
  (val (Zpos mb) eb <= X)%R ->
  (val (Zpos mc) ec < val (Zpos mb) eb)%R ->
  SFltb (S754_finite false mc ec) r = true.
Proof.
  intros Hr V Bb Bc L1 L2.
  pose proof (rounds_to_LB _ _ _ _ Hr V Bb L1) as HL.
  destruct r as [s|s| |s mr er].
  - destruct s; cbn in HL; discriminate.
  - destruct s; [cbn in HL; discriminate|reflexivity].
  - cbn in HL; discriminate.
  - destruct s; [cbn in HL; discriminate|].
    cbn [valid_binary] in V. apply andb_prop in V as [C _].
    apply andb_prop in Bb as [Cb _]. apply andb_prop in Bc as [Cc _].
    apply (SFleb_val _ _ _ _ Cb C) in HL.
    apply (SFltb_val _ _ _ _ Cc C). lra.
Qed.

(** What the operations round. *)
Lemma val_sub a b e : val (a - b) e = (val a e - val b e)%R.
Proof. unfold val. rewrite minus_IZR. ring. Qed.

Lemma val_add a b e : val (a + b) e = (val a e + val b e)%R.
Proof. unfold val. rewrite plus_IZR. ring. Qed.

Lemma val_mul a ea b eb : val (a * b) (ea + eb) = (val a ea * val b eb)%R.
Proof. unfold val. rewrite mult_IZR, bpow_add. ring. Qed.

Lemma iter_xO m d :
  Zpos (Pos.iter xO m d) = Zpos m * 2 ^ Zpos d /\
  Zpos (digits2_pos (Pos.iter xO m d)) = Zpos (digits2_pos m) + Zpos d.
Proof.
  induction d as [|d [IH1 IH2]] using Pos.peano_ind.
  - cbn [Pos.iter digits2_pos]. split; lia.
  - rewrite Pos.iter_succ. cbn [digits2_pos].
    rewrite (Pos2Z.inj_xO (Pos.iter xO m d)), IH1, !Pos2Z.inj_succ, IH2.
    rewrite Z.pow_succ_r by lia. split; lia.
Qed.

Lemma shl_align_val m e ez :
  ez <= e -> val (Zpos (fst (shl_align m e ez))) ez = val (Zpos m) e.
Proof.
  intros H. unfold shl_align. destruct (ez - e) as [|d|d] eqn:D; cbn [fst].
  - f_equal. lia.
  - lia.
  - destruct (iter_xO m d) as [V _]. rewrite V.
    rewrite val_shift by lia. f_equal. lia.
Qed.

Lemma exact_rounds_to s m e :
  e <= fexp prec emax (mag m e) ->
  s = false ->
  rounds_to (val (Zpos m) e)
    (binary_round_aux prec emax s (Zpos m) e loc_Exact).
Proof.
  intros A ->. exists (Zpos m), e, loc_Exact.
  split; [reflexivity|]. split; [lia|]. split; [exact A|].
  split; [split; [apply Rle_refl|apply val_lt; lia]|].
  split; [reflexivity|discriminate].
Qed.

Lemma binary_round_rounds m e :
  rounds_to (val (Zpos m) e) (binary_round prec emax false m e).
Proof.
  unfold binary_round, shl_align.
  destruct (fexp prec emax (Z.pos (digits2_pos m) + e) - e) as [|d|d] eqn:D.
  - apply exact_rounds_to; [unfold mag; lia|reflexivity].
  - apply exact_rounds_to; [unfold mag; lia|reflexivity].
  - destruct (iter_xO m d) as [V G].
    replace (val (Zpos m) e)
      with (val (Zpos (Pos.iter xO m d))
              (fexp prec emax (Z.pos (digits2_pos m) + e))).
    + apply exact_rounds_to; [|reflexivity].
      unfold mag. rewrite G. rewrite !fexp_eq in *. lia.
    + rewrite V, val_shift by lia. f_equal. lia.
Qed.

Lemma binary_normalize_rounds M e :
  0 < M -> rounds_to (val M e) (binary_normalize prec emax M e false).
Proof.
  intros H. destruct M as [|m|m]; try lia. apply binary_round_rounds.
Qed.

Lemma SFmul_rounds mx ex my ey :
  canonical_mantissa prec emax mx ex = true ->
  canonical_mantissa prec emax my ey = true ->
  rounds_to (val (Zpos mx) ex * val (Zpos my) ey)
    (SFmul prec emax (S754_finite false mx ex) (S754_finite false my ey)).
Proof.
  intros Cx Cy. rewrite <- val_mul, <- Pos2Z.inj_mul.
  apply exact_rounds_to; [|reflexivity].
  apply canonical_inv in Cx, Cy. unfold mag in *. rewrite fexp_eq.
  pose proof (digits2_bounds mx) as [Lx Ux].
  pose proof (digits2_bounds my) as [Ly Uy].
  pose proof (digits2_bounds (mx * my)) as [_ U].
  assert (Zpos (digits2_pos mx) + Zpos (digits2_pos my) - 2
          < Zpos (digits2_pos (mx * my))) as D.
  { apply (Z.pow_lt_mono_r_iff 2); [lia|lia|].
    replace (Zpos (digits2_pos mx) + Zpos (digits2_pos my) - 2)
      with ((Zpos (digits2_pos mx) - 1) + (Zpos (digits2_pos my) - 1)) by lia.
    rewrite Z.pow_add_r by lia. rewrite Pos2Z.inj_mul in U.
    pose proof (Z.pow_pos_nonneg 2 (Zpos (digits2_pos mx) - 1)).
    pose proof (Z.pow_pos_nonneg 2 (Zpos (digits2_pos my) - 1)). nia. }
  lia.
Qed.

Lemma new_location_exact n k : loc_exact (new_location n k) = (k =? 0).
Proof.
  unfold new_location, new_location_even, new_location_odd.
  destruct (Z.even n), (k =? 0); reflexivity.
Qed.

(** The quotient that [SFdiv] hands to the rounding has enough bits. *)
Lemma SFdiv_rounds mx ex my ey :
  rounds_to (val (Zpos mx) ex / val (Zpos my) ey)
    (SFdiv prec emax (S754_finite false mx ex) (S754_finite false my ey)).
Proof.
  unfold SFdiv, SFdiv_core_binary. cbn [Zdigits2 xorb]. cbv zeta.
  pose proof (digits2_bounds mx) as [Lx Ux].
  pose proof (digits2_bounds my) as [Ly Uy].
  set (d1 := Zpos (digits2_pos mx)) in *.
  set (d2 := Zpos (digits2_pos my)) in *.
  set (e' := Z.min (fexp prec emax (d1 + ex - (d2 + ey))) (ex - ey)).
  set (s := ex - ey - e').
  assert (0 <= s) as Hs by (unfold s, e'; lia).
  set (m' := match s with
             | Z0 => Zpos mx
             | Zpos _ => Z.shiftl (Zpos mx) s
             | Zneg _ => 0
             end).
  assert (m' = Zpos mx * 2 ^ s) as Em.
  { unfold m'. destruct s as [|p|p] eqn:Es;
      [rewrite Z.pow_0_r; lia|rewrite Z.shiftl_mul_pow2 by lia; reflexivity
      |lia]. }
  clearbody m'.
  assert (Zpos my > 0) as Py by lia.
  pose proof (Z_div_mod m' (Zpos my) Py) as DM.
  destruct (Z.div_eucl m' (Zpos my)) as [q r]. destruct DM as [Ed Br].
  pose proof (Z.pow_pos_nonneg 2 s) as P2s.
  assert (0 <= q) as Hq by nia.
  assert (0 < val (Zpos my) ey)%R as Vy by (apply val_pos; lia).
  assert (val m' (e' + ey) = val (Zpos mx) ex) as Vx.
  { rewrite Em, val_shift by lia. f_equal. unfold s. lia. }
  set (X := (val (Zpos mx) ex / val (Zpos my) ey)%R).
  assert (X * val (Zpos my) ey = val m' (e' + ey))%R as HX.
  { rewrite Vx. unfold X. field. lra. }
  exists q, e', (new_location (Zpos my) r).
  split; [reflexivity|]. split; [exact Hq|]. split.
  { (* the exponent *)
    assert (e' = Z.min (Z.max (d1 + ex - (d2 + ey) - 53) (-1074)) (ex - ey))
      as Ee by reflexivity.
    clearbody e'. rewrite fexp_eq.
    destruct (Z_le_gt_dec 0 (d1 - 1 + s - d2)) as [K|K].
    - assert (2 ^ (d1 - 1) * 2 ^ s = 2 ^ (d1 - 1 + s - d2) * 2 ^ d2) as P.
      { rewrite <- !Z.pow_add_r by lia. f_equal. lia. }
      pose proof (Z.pow_pos_nonneg 2 (d1 - 1 + s - d2)) as PK.
      pose proof (Z.pow_pos_nonneg 2 d2) as Pd.
      assert (2 ^ (d1 - 1 + s - d2) <= q) as Q.
      { assert (2 ^ (d1 - 1 + s - d2) * Zpos my < (q + 1) * Zpos my);
          [nia|]. nia. }
      destruct (Zdigits2_bounds q Hq) as [Uq _].
      assert (d1 - 1 + s - d2 < Zdigits2 q).
      { apply (Z.pow_lt_mono_r_iff 2); [lia| |lia].
        destruct q; cbn; lia. }
      unfold s in *. lia.
    - unfold s in *. lia. }
  split; [split|split].
  - apply Rmult_le_reg_r with (1 := Vy). rewrite HX, <- val_mul.
    apply val_le. lia.
  - apply Rmult_lt_reg_r with (1 := Vy). rewrite HX, <- val_mul.
    apply val_lt. lia.
  - rewrite new_location_exact. intros Z. apply Z.eqb_eq in Z.
    apply Rmult_eq_reg_r with (val (Zpos my) ey); [|lra].
    rewrite HX, <- val_mul. f_equal. lia.
  - rewrite new_location_exact. intros Z. apply Z.eqb_neq in Z.
    apply Rmult_lt_reg_r with (1 := Vy). rewrite HX, <- val_mul.
    apply val_lt. lia.
Qed.

(** The binary64 numbers next to a normal one. *)
Lemma bounded_intro m e :
  e = Z.max (mag m e - 53) (-1074) -> e <= 971 ->
  bounded prec emax m e = true.
Proof.
  intros C B. unfold bounded, canonical_mantissa. rewrite fexp_eq.
  fold (mag m e). change (emax - prec) with 971.
  apply andb_true_intro. split; lia.
Qed.

Lemma full_mantissa m e :
  e = Z.max (mag m e - 53) (-1074) -> 2 ^ 52 <= Zpos m ->
  Zpos (digits2_pos m) = 53.
Proof.
  intros C N. pose proof (digits2_bounds m) as [Dl Du]. unfold mag in C.
  assert (52 < Zpos (digits2_pos m))
    by (apply (Z.pow_lt_mono_r_iff 2); lia).
  lia.
Qed.

Lemma below_exists m e :
  bounded prec emax m e = true -> 2 ^ 52 <= Zpos m ->
  exists mb eb, bounded prec emax mb eb = true /\
                val (Zpos mb) eb = val (Zpos m - 1) e.
Proof.
  intros B N. apply bounded_inv in B as [C U].
  pose proof (digits2_bounds m) as [Dl Du].
  pose proof (full_mantissa m e C N) as D.
  rewrite D in *. change (2 ^ 52) with 4503599627370496 in *.
  change (2 ^ 53) with 9007199254740992 in *.
  destruct (Z.eq_dec (Zpos m) 4503599627370496) as [Q|Q].
  - destruct (Z.eq_dec e (-1074)) as [Q'|Q'].
    + exists 4503599627370495%positive, (-1074). split; [reflexivity|].
      rewrite Q, Q'. reflexivity.
    + exists 9007199254740990%positive, (e - 1). split.
      * apply bounded_intro; [|lia]. unfold mag in *.
        change (Zpos (digits2_pos 9007199254740990)) with 53. lia.
      * rewrite Q.
        change (Zpos 9007199254740990) with (4503599627370495 * 2 ^ 1).
        rewrite val_shift by lia. f_equal. lia.
  - exists (Pos.pred m), e. rewrite Pos2Z.inj_pred by lia.
    replace (Z.pred (Zpos m)) with (Zpos m - 1) by lia. split; [|reflexivity].
    apply bounded_intro; [|lia]. unfold mag in *.
    rewrite (digits_unique (Pos.pred m) 53); [lia|lia|].
    rewrite Pos2Z.inj_pred by lia.
    change (2 ^ (53 - 1)) with 4503599627370496.
    change (2 ^ 53) with 9007199254740992. lia.
Qed.

Lemma above_exists m e :
  bounded prec emax m e = true -> 2 ^ 52 <= Zpos m ->
  (exists mb eb, bounded prec emax mb eb = true /\
                 val (Zpos mb) eb = val (Zpos m + 1) e) \/
  (bpow 1024 <= val (Zpos m + 1) e)%R.
Proof.
  intros B N. apply bounded_inv in B as [C U].
  pose proof (digits2_bounds m) as [Dl Du].
  pose proof (full_mantissa m e C N) as D.
  rewrite D in *. change (2 ^ 52) with 4503599627370496 in *.
  change (2 ^ 53) with 9007199254740992 in *.
  destruct (Z.eq_dec (Zpos m + 1) 9007199254740992) as [Q|Q].
  - rewrite Q. change 9007199254740992 with (4503599627370496 * 2 ^ 1).
    rewrite val_shift by lia.
    destruct (Z.eq_dec e 971) as [Q'|Q'].
    + right. rewrite Q'. change 4503599627370496 with (2 ^ 52).
      rewrite val_bpow by lia. apply Rle_refl.
    + left. exists 4503599627370496%positive, (e + 1). split; [|reflexivity].
      apply bounded_intro; [|lia]. unfold mag in *.
      change (Zpos (digits2_pos 4503599627370496)) with 53. lia.
  - left. exists (m + 1)%positive, e. rewrite Pos2Z.inj_add.
    split; [|reflexivity].
    apply bounded_intro; [|lia]. unfold mag in *.
    rewrite (digits_unique (m + 1) 53); [lia|lia|].
    rewrite Pos2Z.inj_add.
    change (2 ^ (53 - 1)) with 4503599627370496.
    change (2 ^ 53) with 9007199254740992. lia.
Qed.

(** A binary64 number at or above the smallest normal one has a full
    mantissa. *)
Lemma normal_mantissa m e :
  bounded prec emax m e = true ->
  (val 4503599627370496 (-1074) <= val (Zpos m) e)%R ->
  2 ^ 52 <= Zpos m.
Proof.
  intros B L. apply bounded_inv in B as [C _].
  pose proof (val_mag m e) as [_ U].
  change 4503599627370496 with (2 ^ 52) in L. rewrite val_bpow in L by lia.
  assert (52 + -1074 < mag m e) as M by (apply bpow_lt_inv; lra).
  pose proof (digits2_bounds m) as [Dl _]. unfold mag in *.
  assert (Zpos (digits2_pos m) = 53) as D by lia.
  rewrite D in Dl. exact Dl.
Qed.

Lemma rounds_to_nonneg X r :
  rounds_to X r ->
  match r with
  | S754_zero s => s = false
  | S754_infinity s => s = false
  | S754_nan => False
  | S754_finite s _ _ => s = false
  end.
Proof.
  intros (m0 & e0 & l & -> & H0 & A & _). apply round_nonneg; assumption.
Qed.

(** Two binary64 numbers in strict order are apart by a factor of at least
    1 - 2^-53. *)
Lemma below_ratio mp ep mq eq :
  bounded prec emax mp ep = true -> bounded prec emax mq eq = true ->
  (val (Zpos mp) ep < val (Zpos mq) eq)%R ->
  (val (Zpos mp) ep <= val (Zpos mq) eq * val 9007199254740991 (-53))%R.
Proof.
  intros Bp Bq L.
  pose proof Bp as Cp. apply andb_prop in Cp as [Cp _].
  pose proof Bq as Cq. apply andb_prop in Cq as [Cq _].
  apply bounded_inv in Bp as [Ep _]. apply bounded_inv in Bq as [Eq _].
  pose proof (digits2_bounds mp) as [Lp Up].
  pose proof (digits2_bounds mq) as [Lq Uq].
  assert (ep <= eq) as Hle.
  { destruct (Z_le_gt_dec ep eq) as [G|G]; [exact G|].
    assert (eq < ep) as G' by lia.
    pose proof (canonical_lt_exp _ _ _ _ Cq Cp G'). lra. }
  unfold mag in *.
  assert (Zpos mp < 2 ^ 53) as Hp.
  { apply Z.lt_le_trans with (1 := Up). apply Z.pow_le_mono_r; lia. }
  assert (Zpos mq < 2 ^ 53) as Hq.
  { apply Z.lt_le_trans with (1 := Uq). apply Z.pow_le_mono_r; lia. }
  rewrite <- val_mul.
  replace (val (Zpos mq * 9007199254740991) (eq + -53))
    with (val (Zpos mq * 9007199254740991 * 2 ^ (eq - ep)) (ep - 53)).
  2:{ rewrite val_shift by lia. f_equal. lia. }
  replace (val (Zpos mp) ep) with (val (Zpos mp * 2 ^ 53) (ep - 53)).
  2:{ rewrite val_shift by lia. f_equal. lia. }
  apply val_le.
  change (2 ^ 53) with 9007199254740992 in *.
  destruct (Z.eq_dec ep eq) as [Q|Q].
  - rewrite Q in *. rewrite Z.sub_diag. change (2 ^ 0) with 1.
    assert (Zpos mp < Zpos mq) by (apply (val_lt_inv _ _ eq); exact L).
    lia.
  - assert (2 ^ 52 <= Zpos mq) as N.
    { assert (Zpos (digits2_pos mq) = 53) as D by lia. rewrite D in Lq.
      exact Lq. }
    change (2 ^ 52) with 4503599627370496 in N.
    assert (2 ^ 1 <= 2 ^ (eq - ep)) as T by (apply Z.pow_le_mono_r; lia).
    change (2 ^ 1) with 2 in T. nia.
Qed.

(** Positive floats. *)
Lemma flt_0_inv x :
  flt 0 x ->
  Prim2SF x = S754_infinity false \/
  exists m e, Prim2SF x = S754_finite false m e /\ bounded prec emax m e = true.
Proof.
  unfold flt. rewrite ltb_spec. pose proof (Prim2SF_valid x) as V.
  change (Prim2SF 0) with (S754_zero false).
  intros H. destruct (Prim2SF x) as [s|s| |s m e].
  - destruct s; cbn in H; discriminate.
  - destruct s; [cbn in H; discriminate|]. left. reflexivity.
  - cbn in H; discriminate.
  - destruct s; [cbn in H; discriminate|]. right.
    exists m, e. split; [reflexivity|exact V].
Qed.

Lemma val_one : val 4503599627370496 (-52) = 1%R.
Proof.
  change 4503599627370496 with (2 ^ 52). rewrite val_bpow by lia. reflexivity.
Qed.

Lemma val_two : val 4503599627370496 (-51) = 2%R.
Proof.
  change 4503599627370496 with (2 ^ 52). rewrite val_bpow by lia.
  unfold bpow. simpl. lra.
Qed.

Lemma flt_1_inv x m e :
  Prim2SF x = S754_finite false m e -> bounded prec emax m e = true ->
  flt x 1 -> (val (Zpos m) e < 1)%R.
Proof.
  unfold flt. rewrite ltb_spec. intros -> B.
  change (Prim2SF 1) with (S754_finite false 4503599627370496 (-52)).
  apply andb_prop in B as [C _]. intros H.
  apply SFltb_val in H; [|assumption|reflexivity].
  rewrite val_one in H. exact H.
Qed.

(** 1 - p and 1 + p for 0 < p < 1: what is rounded, and where the rounding
    falls. *)
Lemma one_minus_rounds p m e :
  Prim2SF p = S754_finite false m e -> bounded prec emax m e = true ->
  (val (Zpos m) e < 1)%R ->
  rounds_to (1 - val (Zpos m) e) (Prim2SF (1 - p)%float) /\
  (val 1 (-1074) <= 1 - val (Zpos m) e)%R.
Proof.
  intros E B L.
  rewrite sub_spec, E.
  change (Prim2SF 1) with (S754_finite false 4503599627370496 (-52)).
  unfold SF64sub, SFsub. cbv zeta. cbn [cond_Zopp].
  apply bounded_inv in B as [Ce _].
  set (ez := Z.min (-52) e).
  set (M := Zpos (fst (shl_align 4503599627370496 (-52) ez)) -
            Zpos (fst (shl_align m e ez))).
  assert (val M ez = (1 - val (Zpos m) e)%R) as VM.
  { unfold M. rewrite val_sub, !shl_align_val by lia. rewrite val_one.
    reflexivity. }
  assert (0 < M) as HM.
  { apply (val_lt_inv 0 M ez). unfold val at 1. rewrite Rmult_0_l. lra. }
  rewrite <- VM. split; [apply binary_normalize_rounds; exact HM|].
  apply Rle_trans with (val 1 ez).
  - unfold val. apply Rmult_le_compat_l; [lra|]. apply bpow_le. lia.
  - apply val_le. lia.
Qed.

Lemma one_plus_rounds p m e :
  Prim2SF p = S754_finite false m e -> bounded prec emax m e = true ->
  rounds_to (1 + val (Zpos m) e) (Prim2SF (1 + p)%float).
Proof.
  intros E B.
  rewrite add_spec, E.
  change (Prim2SF 1) with (S754_finite false 4503599627370496 (-52)).
  unfold SF64add, SFadd. cbv zeta. cbn [cond_Zopp].
  apply bounded_inv in B as [Ce _].
  set (ez := Z.min (-52) e).
  set (M := Zpos (fst (shl_align 4503599627370496 (-52) ez)) +
            Zpos (fst (shl_align m e ez))).
  assert (val M ez = (1 + val (Zpos m) e)%R) as VM.
  { unfold M. rewrite val_add, !shl_align_val by lia. rewrite val_one.
    reflexivity. }
  assert (0 < M) as HM by (unfold M; lia).
  rewrite <- VM. apply binary_normalize_rounds. exact HM.
Qed.

Lemma one_minus_range p m e :
  Prim2SF p = S754_finite false m e -> bounded prec emax m e = true ->
  (val (Zpos m) e < 1)%R ->
  exists mr er,
    Prim2SF (1 - p)%float = S754_finite false mr er /\
    bounded prec emax mr er = true /\ (val (Zpos mr) er <= 1)%R.
Proof.
  intros E B L.
  destruct (one_minus_rounds p m e E B L) as [Hr Lo].
  destruct (rounds_to_between _ _ 1 (-1074) 4503599627370496 (-52) Hr
              (Prim2SF_valid _))
    as [mr [er [Er [Br [_ U]]]]]; [reflexivity|reflexivity| |].
  - split; [exact Lo|]. rewrite val_one.
    assert (0 < val (Zpos m) e)%R by (apply val_pos; lia). lra.
  - exists mr, er. rewrite val_one in U. auto.
Qed.

Lemma one_plus_range p m e :
  Prim2SF p = S754_finite false m e -> bounded prec emax m e = true ->
  (val (Zpos m) e < 1)%R ->
  exists mr er,
    Prim2SF (1 + p)%float = S754_finite false mr er /\
    bounded prec emax mr er = true /\ (1 <= val (Zpos mr) er)%R.
Proof.
  intros E B L.
  pose proof (one_plus_rounds p m e E B) as Hr.
  destruct (rounds_to_between _ _ 4503599627370496 (-52)
              4503599627370496 (-51) Hr (Prim2SF_valid _))
    as [mr [er [Er [Br [Lo _]]]]]; [reflexivity|reflexivity| |].
  - rewrite val_one, val_two.
    assert (0 < val (Zpos m) e)%R by (apply val_pos; lia). lra.
  - exists mr, er. rewrite val_one in Lo. auto.
Qed.

(** The machine epsilon 2^-52 and the smallest normal number 2^-1022. *)
Lemma val_eps_below :
  val 9007199254740990 (-53) = (1 - val 4503599627370496 (-104))%R.
Proof.
  rewrite <- val_one.
  change 4503599627370496 with (2 ^ 52) at 1.
  replace (-52) with (-53 + 1) by lia.
  rewrite <- (val_shift (2 ^ 52) (-53) 1) by lia.
  replace (-104) with (-53 + -51) by lia.
  change (val 4503599627370496 (-53 + -51)) with (val (2 ^ 52) (-53 + -51)).
  rewrite (val_bpow 52 (-53 + -51)) by lia.
  replace (52 + (-53 + -51)) with (1 + -53) by lia.
  rewrite <- (val_bpow 1 (-53)) by lia.
  rewrite <- val_sub. reflexivity.
Qed.

Lemma val_eps_above :
  val 4503599627370497 (-52) = (1 + val 4503599627370496 (-104))%R.
Proof.
  rewrite <- val_one.
  change (val 4503599627370496 (-104)) with (val (2 ^ 52) (-104)).
  rewrite (val_bpow 52 (-104)) by lia.
  replace (52 + -104) with (0 + -52) by lia.
  rewrite <- (val_bpow 0 (-52)) by lia.
  rewrite <- val_add. reflexivity.
Qed.

Lemma fle_eps_inv x :
  fle 2.220446049250313e-16 x ->
  Prim2SF x = S754_infinity false \/
  exists m e, Prim2SF x = S754_finite false m e /\
              bounded prec emax m e = true /\
              (val 4503599627370496 (-104) <= val (Zpos m) e)%R.
Proof.
  unfold fle. rewrite leb_spec. pose proof (Prim2SF_valid x) as V.
  change (Prim2SF 2.220446049250313e-16)
    with (S754_finite false 4503599627370496 (-104)).
  intros H. destruct (Prim2SF x) as [s|s| |s m e].
  - destruct s; cbn in H; discriminate.
  - destruct s; [cbn in H; discriminate|]. left. reflexivity.
  - cbn in H; discriminate.
  - destruct s; [cbn in H; discriminate|]. right.
    exists m, e. split; [reflexivity|]. split; [exact V|].
    cbn [valid_binary] in V. apply andb_prop in V as [C _].
    apply (SFleb_val 4503599627370496 (-104) m e);
      [reflexivity|exact C|exact H].
Qed.

Lemma normal_inv x :
  fle 2.2250738585072014e-308 x -> flt x infinity ->
  exists m e, Prim2SF x = S754_finite false m e /\
              bounded prec emax m e = true /\ 2 ^ 52 <= Zpos m.
Proof.
  unfold fle, flt. rewrite leb_spec, ltb_spec.
  pose proof (Prim2SF_valid x) as V.
  change (Prim2SF 2.2250738585072014e-308)
    with (S754_finite false 4503599627370496 (-1074)).
  change (Prim2SF infinity) with (S754_infinity false).
  intros H I. destruct (Prim2SF x) as [s|s| |s m e].
  - destruct s; cbn in H; discriminate.
  - destruct s; [cbn in H; discriminate|cbn in I; discriminate].
  - cbn in H; discriminate.
  - destruct s; [cbn in H; discriminate|].
    exists m, e. split; [reflexivity|]. split; [exact V|].
    apply (normal_mantissa m e V).
    cbn [valid_binary] in V. apply andb_prop in V as [C _].
    apply (SFleb_val 4503599627370496 (-1074) m e);
      [reflexivity|exact C|exact H].
Qed.

(** ** Sizing against the price *)

Lemma fle_0_inv x :
  fle 0 x ->
  (exists s, Prim2SF x = S754_zero s) \/
  Prim2SF x = S754_infinity false \/
  exists m e, Prim2SF x = S754_finite false m e /\ bounded prec emax m e = true.
Proof.
  unfold fle. rewrite leb_spec. pose proof (Prim2SF_valid x) as V.
  change (Prim2SF 0) with (S754_zero false).
  intros H. destruct (Prim2SF x) as [s|s| |s m e].
  - left. exists s. reflexivity.
  - destruct s; [cbn in H; discriminate|]. right. left. reflexivity.
  - cbn in H; discriminate.
  - destruct s; [cbn in H; discriminate|]. right. right.
    exists m, e. split; [reflexivity|exact V].
Qed.

(** The truncation of a positive binary64 number is zero exactly when the
    number is below 1. *)
Lemma truncate_finite_zero m e :
  truncate (finite_value false m e) = 0 <-> (val (Zpos m) e < 1)%R.
Proof.
  assert (forall k, 0 <= k -> (1 <= val (Zpos m) k)%R) as Big.
  { intros k Hk. apply Rle_trans with (val 1 k).
    - unfold val. rewrite Rmult_1_l. apply bpow_ge_1. exact Hk.
    - apply val_le. lia. }
  unfold truncate, finite_value. destruct e as [|p|p].
  - cbn [inject_Z Qnum Qden]. rewrite Z.quot_1_r. split; [nia|].
    intros H. specialize (Big 0 (Z.le_refl 0)). lra.
  - cbn [inject_Z Qnum Qden]. rewrite Z.quot_1_r.
    pose proof (Z.pow_pos_nonneg 2 (Zpos p)) as PP. split; [nia|].
    intros H. assert (0 <= Zpos p) as Hp by lia. specialize (Big _ Hp). lra.
  - cbn [Qnum Qden]. rewrite Z.quot_small_iff by lia.
    rewrite Pos2Z.inj_pow.
    assert (val (2 ^ Zpos p) (Zneg p) = 1%R) as One.
    { rewrite val_bpow by lia. replace (Zpos p + Zneg p) with 0 by lia.
      reflexivity. }
    rewrite <- One. split.
    + intros H. apply val_lt. lia.
    + intros H. apply val_lt_inv in H. lia.
Qed.

(** For a pot that is not negative and a price above zero, the quantity is
    zero exactly when the pot is below the price: the quotient of two
    binary64 numbers in strict order is at most 1 - 2^-53 and does not round
    up to 1, and a quotient of at least 1 does not round below 1. *)
Lemma sizing_zero_iff (pot0 price : float) :
  fle 0 pot0 -> flt 0 price ->
  (position_size pot0 price = Returns 0 <-> flt pot0 price).
Proof.
  intros Hp Hq. unfold position_size, int, flt.
  pose proof (Prim2SF_valid (pot0 / price)%float) as V.
  rewrite div_spec in *. rewrite ltb_spec. unfold SF64div in *.
  destruct (flt_0_inv price Hq) as [Iq|[mq [eq [Eq Bq]]]];
    destruct (fle_0_inv pot0 Hp) as [[s Zp]|[Ip|[mp [ep [Ep Bp]]]]];
    rewrite ?Iq, ?Eq, ?Zp, ?Ip, ?Ep in *.
  - destruct s; split; reflexivity.
  - split; discriminate.
  - split; reflexivity.
  - destruct s; split; reflexivity.
  - split; discriminate.
  - pose proof (SFdiv_rounds mp ep mq eq) as Hr.
    pose proof (rounds_to_nonneg _ _ Hr) as Sg.
    pose proof Bp as Cp. apply andb_prop in Cp as [Cp _].
    pose proof Bq as Cq. apply andb_prop in Cq as [Cq _].
    assert (0 < val (Zpos mq) eq)%R as Pq by (apply val_pos; lia).
    set (X := (val (Zpos mp) ep / val (Zpos mq) eq)%R) in *.
    assert (X * val (Zpos mq) eq = val (Zpos mp) ep)%R as HX.
    { unfold X. field. lra. }
    rewrite (SFltb_val _ _ _ _ Cp Cq).
    destruct (Rlt_dec (val (Zpos mp) ep) (val (Zpos mq) eq)) as [L|L].
    + split; [intros _; exact L|intros _].
      assert (X <= val 9007199254740991 (-53))%R as U.
      { apply Rmult_le_reg_r with (1 := Pq). rewrite HX, Rmult_comm.
        apply below_ratio; assumption. }
      assert (val 9007199254740991 (-53) < 1)%R as B1.
      { rewrite <- val_one.
        change 4503599627370496 with (2 ^ 52).
        replace (-52) with (-53 + 1) by lia.
        rewrite <- (val_shift (2 ^ 52) (-53) 1) by lia.
        apply val_lt. reflexivity. }
      pose proof (rounds_to_UB _ _ 9007199254740991 (-53) Hr V eq_refl U)
        as HU.
      destruct (SFdiv prec emax _ _) as [s|s| |s m e].
      * reflexivity.
      * subst s. cbn in HU. discriminate.
      * contradiction.
      * subst s. cbn [valid_binary] in V. apply andb_prop in V as [C _].
        apply (SFleb_val m e 9007199254740991 (-53) C eq_refl) in HU.
        f_equal. apply truncate_finite_zero. lra.
    + split; [intros H; exfalso|intros H; contradiction].
      assert (val 4503599627370496 (-52) <= X)%R as Lo.
      { rewrite val_one. apply Rmult_le_reg_r with (1 := Pq).
        rewrite HX. lra. }
      pose proof (rounds_to_LB _ _ 4503599627370496 (-52) Hr V eq_refl Lo)
        as HL.
      destruct (SFdiv prec emax _ _) as [s|s| |s m e].
      * destruct s; cbn in HL; discriminate.
      * discriminate.
      * contradiction.
      * subst s. cbn [valid_binary] in V. apply andb_prop in V as [C _].
        apply (SFleb_val 4503599627370496 (-52) m e eq_refl C) in HL.
        rewrite val_one in HL.
        assert (truncate (finite_value false m e) = 0) as T by congruence.
        apply truncate_finite_zero in T. lra.
Qed.

(** The stages of a cycle up to sizing leave the books alone. *)
Lemma sizing_stage_books (s s0 s1 : TradingBot) (sym : string)
    (price : option float) :
  get_most_traded_stock s = Ret (Some sym) s0 ->
  api_get_latest_trade s0 = Ret price s1 ->
  same_books s s1.
Proof.
  intros E0 E1.
  pose proof (sb_get_most_traded_stock s) as H0. rewrite E0 in H0.
  pose proof (sb_api_get_latest_trade s0) as H1. rewrite E1 in H1.
  simpl in H0, H1. eapply same_books_trans; eassumption.
Qed.

Lemma same_books_pot (s s' : TradingBot) :
  same_books s s' ->
  pot s' = pot s /\ total_profit s' = total_profit s /\
  trades_completed s' = trades_completed s /\ config s' = config s.
Proof.
  intros (C & A & _). unfold account in A. inversion A. tauto.
Qed.

(** C1 (as stated, refuted). The quantity is computed from the rounded
    quotient: for a pot of 1951.5 and a price of 390.3 the quotient of the two
    binary64 values is below 5 and its floor is 4, but the rounded quotient is
    5.0 and the bot sizes the position at 5.  With a negative pot the
    quantity is the quotient truncated toward zero, which is neither the floor
    nor zero although the pot is below the price.  With a price so small that
    the quotient overflows, sizing raises and there is no quantity. *)
Lemma position_size_not_floor :
  (flt 0 390.3 /\ fle 0 1951.5 /\
   position_size 1951.5 390.3 = Returns 5 /\
   quotient_floor 1951.5 390.3 = Some 4) /\
  (flt 0 50 /\ flt (-75) 50 /\
   position_size (-75) 50 = Returns (-1) /\
   quotient_floor (-75) 50 = Some (-2)) /\
  (flt 0 1e-320 /\ fle 0 1000 /\
   position_size 1000 1e-320 =
     Raises (OverflowError "cannot convert float infinity to integer")).
Proof.
  repeat split; vm_compute; reflexivity.
Qed.

(** C1 (amended). The quantity is the binary64 quotient pot / price
    truncated toward zero: when that rounded quotient is finite, the quantity
    is its truncation, which is its floor when it is not negative, and which
    is zero exactly when it lies strictly between -1 and 1; when the rounded
    quotient is an infinity or NaN, sizing raises.  For a pot that is not
    negative and a price above zero, the quantity is zero if and only if the
    pot is below the price.  A cycle that reaches sizing with a zero
    quantity aborts with the insufficient-funds report, before any order; a
    cycle whose sizing raises stops right there, and the loop body logs the
    error and waits 60 seconds. *)
Theorem position_sizing (pot0 price : float) :
  match exact (pot0 / price) with
  | Some q =>
      position_size pot0 price = Returns (truncate q) /\
      ((0 <= q)%Q -> truncate q = Qfloor q) /\
      (truncate q = 0 <-> (- (1) < q /\ q < 1)%Q)
  | None => exists e, position_size pot0 price = Raises e
  end /\
  (fle 0 pot0 -> flt 0 price ->
   (position_size pot0 price = Returns 0 <-> flt pot0 price)) /\
  (forall s s0 s1 sym,
     pot s = pot0 ->
     get_most_traded_stock s = Ret (Some sym) s0 ->
     truthy_str sym = true ->
     get_current_price sym s0 = Ret (Some price) s1 ->
     truthy_float price = true ->
     match position_size pot0 price with
     | Returns qty =>
         qty = 0 ->
         execute_trade_cycle s =
           Ret false (emit (Log (InsufficientFunds sym price)) s1)
     | Raises e =>
         execute_trade_cycle s = Raised e s1 /\
         run_body s = Ret false (recovery e s1)
     end).
Proof.
  split.
  - unfold position_size. pose proof (int_exact (pot0 / price)) as H.
    destruct (exact (pot0 / price)) as [q|]; [|exact H].
    split; [exact H|]. split.
    + apply truncate_floor_nonneg.
    + apply truncate_zero_iff.
  - split; [apply sizing_zero_iff|].
    intros s s0 s1 sym P E0 T E1 F. unfold get_current_price in E1.
    destruct (same_books_pot s s1 (sizing_stage_books s s0 s1 sym _ E0 E1))
      as (P1 & _).
    assert (C : execute_trade_cycle s =
                match position_size pot0 price with
                | Raises e => Raised e s1
                | Returns qty =>
                    if qty =? 0 then
                      Ret false (emit (Log (InsufficientFunds sym price)) s1)
                    else
                      match api_submit_order sym qty buy s1 with
                      | Ret false s2 => Ret false s2
                      | Ret true s2 =>
                          match
                            monitor_position sym price qty
                              (stop_loss_of price (STOP_LOSS_PCT (config s1)))
                              (take_profit_of price
                                 (TAKE_PROFIT_PCT (config s1)))
                              (emit (Sleep 5) s2)
                          with
                          | Ret outcome s3 =>
                              Ret true
                                (emit (Log (TradeCompleted (snd outcome)
                                              (fst outcome)))
                                   (book (fst outcome) s3))
                          | Blocked s3 => Blocked s3
                          | Raised e s3 => Raised e s3
                          end
                      | Blocked s2 => Blocked s2
                      | Raised e s2 => Raised e s2
                      end
                end).
    { rewrite execute_trade_cycle_unfold, E0, T, E1, F, P1, P. reflexivity. }
    destruct (position_size pot0 price) as [qty|e].
    + intro Z0. rewrite C, Z0. reflexivity.
    + split; [exact C|]. rewrite run_body_unfold, C. reflexivity.
Qed.

(** C5 (as stated, refuted). The cycle that exits on the stop-loss in the
    scenario returns with the pot lowered from 1000 to 880, the total profit
    at -120 and one trade counted: the cycle itself has changed the account. *)
Lemma cycle_mutates_account :
  exists s',
    execute_trade_cycle stop_loss_bot = Ret true s' /\
    account stop_loss_bot = (1000%float, 0%float, 0) /\
    account s' = (880%float, (-120)%float, 1) /\
    account s' <> account stop_loss_bot.
Proof.
  eexists. split; [vm_compute; reflexivity|].
  split; [reflexivity|]. split; [reflexivity|]. discriminate.
Qed.

Lemma last_result_emit (why : ExitType) (result : float) (s : TradingBot) :
  last_result (emit (Log (TradeCompleted why result)) s) = Some result.
Proof.
  unfold last_result, emit. cbn [effects]. rewrite List.last_last.
  reflexivity.
Qed.

(** A cycle that returns success: the position it sized, the monitor's
    return for that position, and the booking of exactly that return. *)
Lemma cycle_success_books (s s' : TradingBot) :
  execute_trade_cycle s = Ret true s' ->
  exists sym entry qty s2 s3 why result,
    position_size (pot s) entry = Returns qty /\
    monitor_position sym entry qty
      (stop_loss_of entry (STOP_LOSS_PCT (config s)))
      (take_profit_of entry (TAKE_PROFIT_PCT (config s))) s2 =
      Ret (result, why) s3 /\
    s' = emit (Log (TradeCompleted why result)) (book result s3) /\
    same_books s s3.
Proof.
  rewrite execute_trade_cycle_unfold. intro H.
  destruct (get_most_traded_stock s) as [[sym|] s0|s0|e s0] eqn:E0;
    try discriminate.
  destruct (truthy_str sym); [|discriminate].
  destruct (api_get_latest_trade s0) as [[entry|] s1|s1|e s1] eqn:E1;
    try discriminate.
  destruct (truthy_float entry); [|discriminate].
  destruct (same_books_pot s s1 (sizing_stage_books s s0 s1 sym _ E0 E1))
    as (P1 & _ & _ & C1).
  pose proof (sizing_stage_books s s0 s1 sym _ E0 E1) as B1.
  rewrite P1, C1 in H.
  destruct (position_size (pot s) entry) as [qty|e] eqn:Sz; [|discriminate].
  destruct (qty =? 0); [discriminate|].
  pose proof (sb_api_submit_order sym qty buy s1) as H2.
  destruct (api_submit_order sym qty buy s1) as [[|] s2|s2|e s2];
    try discriminate.
  simpl in H2.
  pose proof (sb_monitor_position sym entry qty
                (stop_loss_of entry (STOP_LOSS_PCT (config s)))
                (take_profit_of entry (TAKE_PROFIT_PCT (config s)))
                (emit (Sleep 5) s2)) as H4.
  destruct (monitor_position sym entry qty _ _ (emit (Sleep 5) s2))
    as [[result why] s3|s3|e s3] eqn:Mon; try discriminate.
  simpl in H4. cbn [fst snd] in H. inversion H; subst s'.
  exists sym, entry, qty, (emit (Sleep 5) s2), s3, why, result.
  split; [exact Sz|]. split; [exact Mon|]. split; [reflexivity|].
  eapply same_books_trans; [exact B1|].
  eapply same_books_trans; [exact H2|].
  apply (same_books_trans _ (emit (Sleep 5) s2));
    [apply same_books_emit; reflexivity|exact H4].
Qed.

(** C5 (amended). A cycle that aborts, raises, or is still waiting on the
    gateway leaves pot, total profit and trade count as they were; a cycle
    that succeeds has itself, when it returns, added to pot and to total
    profit the result that the monitor returned for the position it sized
    (the result its last log line reports) and one to the trade count; the
    rest of the loop body changes none of the three. *)
Theorem cycle_frame (s : TradingBot) :
  match execute_trade_cycle s with
  | Ret true s' =>
      exists sym entry qty s2 s3 why result,
        position_size (pot s) entry = Returns qty /\
        monitor_position sym entry qty
          (stop_loss_of entry (STOP_LOSS_PCT (config s)))
          (take_profit_of entry (TAKE_PROFIT_PCT (config s))) s2 =
          Ret (result, why) s3 /\
        last_result s' = Some result /\
        account s' = ((pot s + result)%float, (total_profit s + result)%float,
                      trades_completed s + 1)
  | Ret false s' => account s' = account s
  | Blocked s' => account s' = account s
  | Raised _ s' => account s' = account s
  end /\
  account (final (run_body s)) = account (final (execute_trade_cycle s)).
Proof.
  split.
  - pose proof (execute_trade_cycle_books s) as H.
    destruct (execute_trade_cycle s) as [[|] s'|s'|e s'] eqn:E; simpl in H;
      try apply H.
    destruct (cycle_success_books s s' E)
      as (sym & entry & qty & s2 & s3 & why & result & Sz & Mon & Es & B).
    exists sym, entry, qty, s2, s3, why, result.
    split; [exact Sz|]. split; [exact Mon|]. subst s'.
    split; [apply last_result_emit|].
    destruct (same_books_pot s s3 B) as (P & T & N & _).
    unfold account, book, emit. simpl. rewrite P, T, N. reflexivity.
  - apply (run_body_after_cycle s).
Qed.

(** ** The monitor *)

(** Polls that make the monitor wait are consumed one by one, each followed
    by a sleep of the check interval. *)
Lemma monitor_loop_quiet (sym : string) (entry_price : float) (quantity : Z)
    (sl tp : float) (c : Config) (la : list (option (list Asset)))
    (bars : list BarReply) (orders : list bool) (p0 t0 : float) (n0 : Z) :
  forall (quiet rest : list (option float)) (fuel : nat) (es : list Effect),
    Forall (quiet_poll sl tp) quiet ->
    monitor_loop (List.length quiet + fuel) sym entry_price quantity sl tp
      (mkBot c (mkGateway la bars (quiet ++ rest) orders) p0 t0 n0 es) =
    monitor_loop fuel sym entry_price quantity sl tp
      (mkBot c (mkGateway la bars rest orders) p0 t0 n0
         (es ++ repeat (Sleep (CHECK_INTERVAL c)) (List.length quiet))).
Proof.
  induction quiet as [|reply quiet IH]; intros rest fuel es Hq.
  - simpl. rewrite List.app_nil_r. reflexivity.
  - inversion Hq as [|? ? Hr Hq']; subst.
    change (List.length (reply :: quiet) + fuel)%nat
      with (S (List.length quiet + fuel)).
    assert (step :
      monitor_loop (S (List.length quiet + fuel)) sym entry_price quantity sl tp
        (mkBot c (mkGateway la bars ((reply :: quiet) ++ rest) orders)
           p0 t0 n0 es) =
      monitor_loop (List.length quiet + fuel) sym entry_price quantity sl tp
        (mkBot c (mkGateway la bars (quiet ++ rest) orders) p0 t0 n0
           (es ++ [Sleep (CHECK_INTERVAL c)]))).
    { destruct reply as [p|]; simpl in Hr.
      - unfold breaches in Hr. apply orb_false_iff in Hr.
        destruct Hr as [H1 H2].
        cbn [monitor_loop]. unfold bind, get_current_price,
          api_get_latest_trade.
        cbn [api get_latest_trade_replies app]. rewrite H1, H2. reflexivity.
      - reflexivity. }
    rewrite step, IH by exact Hq'.
    rewrite <- List.app_assoc. reflexivity.
Qed.

Lemma bot_eta (s : TradingBot) :
  s = mkBot (config s)
        (mkGateway (list_assets_replies (api s)) (get_barset_replies (api s))
           (get_latest_trade_replies (api s)) (submit_order_replies (api s)))
        (pot s) (total_profit s) (trades_completed s) (effects s).
Proof. destruct s as [c [la bars prices orders] p0 t0 n0 es]. reflexivity. Qed.

Lemma monitor_position_breach (sym : string) (entry_price : float)
    (quantity : Z) (sl tp : float) (quiet : list (option float)) (p : float)
    (later : list (option float)) (ok : bool) (orders : list bool)
    (s : TradingBot) :
  get_latest_trade_replies (api s) = quiet ++ Some p :: later ->
  submit_order_replies (api s) = ok :: orders ->
  Forall (quiet_poll sl tp) quiet ->
  breaches sl tp p = true ->
  monitor_position sym entry_price quantity sl tp s =
    Ret (((p - entry_price) * float_of_int quantity)%float, exit_reason sl p)
      (emit_all
         (repeat (Sleep (CHECK_INTERVAL (config s))) (List.length quiet) ++
          [SubmitOrder sym quantity sell ok])
         (with_scripts later orders s)).
Proof.
  intros Hp Ho Hq Hb. unfold monitor_position. rewrite Hp.
  rewrite (bot_eta s) at 1. rewrite Hp, Ho.
  rewrite List.length_app. simpl List.length.
  replace (S (List.length quiet + S (List.length later)))
    with (List.length quiet + S (S (List.length later)))%nat by lia.
  rewrite monitor_loop_quiet by exact Hq.
  unfold emit_all, with_scripts, set_api.
  cbn [config api pot total_profit trades_completed effects
       list_assets_replies get_barset_replies].
  cbn [monitor_loop]. unfold bind, get_current_price, api_get_latest_trade.
  cbn [api get_latest_trade_replies]. unfold exit_reason.
  unfold breaches in Hb.
  destruct (PrimFloat.leb p sl) eqn:E1.
  - unfold place_sell_order, bind, api_submit_order, ret, emit, set_api.
    cbn [api submit_order_replies config pot total_profit trades_completed
         effects list_assets_replies get_barset_replies
         get_latest_trade_replies].
    rewrite List.app_assoc. reflexivity.
  - simpl in Hb. rewrite Hb.
    unfold place_sell_order, bind, api_submit_order, ret, emit, set_api.
    cbn [api submit_order_replies config pot total_profit trades_completed
         effects list_assets_replies get_barset_replies
         get_latest_trade_replies].
    rewrite List.app_assoc. reflexivity.
Qed.

(** C2. On a scripted price sequence the monitor waits through every poll
    that breaches nothing, exits on the first price that breaches a
    threshold, looks at the stop-loss before the take-profit, submits one
    market sell for the full quantity, and returns
    (trigger price - entry price) * quantity with the matching reason. *)
Theorem monitor_exit_rule (sym : string) (entry_price : float) (quantity : Z)
    (sl tp : float) (quiet : list (option float)) (p : float)
    (later : list (option float)) (ok : bool) (orders : list bool)
    (s : TradingBot) :
  get_latest_trade_replies (api s) = quiet ++ Some p :: later ->
  submit_order_replies (api s) = ok :: orders ->
  Forall (quiet_poll sl tp) quiet ->
  breaches sl tp p = true ->
  monitor_position sym entry_price quantity sl tp s =
    Ret (((p - entry_price) * float_of_int quantity)%float, exit_reason sl p)
      (emit_all
         (repeat (Sleep (CHECK_INTERVAL (config s))) (List.length quiet) ++
          [SubmitOrder sym quantity sell ok])
         (with_scripts later orders s)) /\
  (fle p sl -> exit_reason sl p = stop_loss) /\
  (flt sl p -> fle tp p /\ exit_reason sl p = take_profit).
Proof.
  intros Hp Ho Hq Hb. split.
  - apply monitor_position_breach; assumption.
  - unfold exit_reason. split; intro H.
    + unfold fle in H. rewrite H. reflexivity.
    + apply flt_not_fle in H. unfold breaches in Hb.
      rewrite H in *. simpl in Hb.
      split; [exact Hb|reflexivity].
Qed.

Lemma monitor_exit_rule_witness :
  monitor_position "AAPL" 50 20 45 55 monitor_demo_bot =
    Ret (((44 - 50) * float_of_int 20)%float, exit_reason 45 44)
      (emit_all
         (repeat (Sleep (CHECK_INTERVAL (config monitor_demo_bot))) 3 ++
          [SubmitOrder "AAPL" 20 sell true])
         (with_scripts [Some 60%float] [] monitor_demo_bot)).
Proof.
  apply (monitor_exit_rule "AAPL" 50 20 45 55 [Some 50; None; Some 48]%float
           44 [Some 60%float] true [] monitor_demo_bot).
  - reflexivity.
  - reflexivity.
  - repeat constructor.
  - reflexivity.
Defined.

(** The monitor returns only on a breaching price, after nothing but quiet
    polls. *)
Lemma monitor_loop_exit (sym : string) (entry_price : float) (quantity : Z)
    (sl tp : float) :
  forall (fuel : nat) (s s' : TradingBot) (outcome : float * ExitType),
    monitor_loop fuel sym entry_price quantity sl tp s = Ret outcome s' ->
    exists quiet p later,
      get_latest_trade_replies (api s) = quiet ++ Some p :: later /\
      Forall (quiet_poll sl tp) quiet /\
      breaches sl tp p = true /\
      outcome = (((p - entry_price) * float_of_int quantity)%float,
                 exit_reason sl p).
Proof.
  induction fuel as [|fuel IH]; intros s s' outcome H; [discriminate|].
  destruct s as [c [la bars prices orders] p0 t0 n0 es].
  destruct prices as [|reply prices]; [discriminate|].
  cbn [monitor_loop] in H.
  unfold bind at 1, get_current_price, api_get_latest_trade in H.
  cbn [api get_latest_trade_replies] in H.
  destruct reply as [p|].
  - destruct (PrimFloat.leb p sl) eqn:E1.
    + exists [], p, prices. simpl. split; [reflexivity|]. split; [constructor|].
      unfold breaches, exit_reason. rewrite E1. split; [reflexivity|].
      unfold bind, place_sell_order, api_submit_order in H.
      cbn [api submit_order_replies set_api] in H.
      destruct orders; [discriminate|]. inversion H. reflexivity.
    + destruct (PrimFloat.leb tp p) eqn:E2.
      * exists [], p, prices. simpl. split; [reflexivity|].
        split; [constructor|].
        unfold breaches, exit_reason. rewrite E1, E2. split; [reflexivity|].
        unfold bind, place_sell_order, api_submit_order in H.
        cbn [api submit_order_replies set_api] in H.
        destruct orders; [discriminate|]. inversion H. reflexivity.
      * apply IH in H. destruct H as (quiet & q & later & Hs & Hq & Hb & Ho).
        simpl in Hs. exists (Some p :: quiet), q, later. simpl.
        split; [rewrite Hs; reflexivity|]. split; [|tauto].
        constructor; [|exact Hq]. simpl. unfold breaches.
        rewrite E1, E2. reflexivity.
  - apply IH in H. destruct H as (quiet & q & later & Hs & Hq & Hb & Ho).
    simpl in Hs. exists (None :: quiet), q, later. simpl.
    split; [rewrite Hs; reflexivity|]. split; [|tauto].
    constructor; [exact I|exact Hq].
Qed.

(** C7. A poll whose price read fails changes no account field, submits no
    order and decides nothing: the monitor sleeps one check interval and goes
    on exactly as if started on the rest of the script.  Whatever the script,
    the monitor leaves the account alone; it returns only on a price that
    breaches a threshold; and as long as no price does, it keeps polling
    until the script is exhausted. *)
Theorem failed_poll_idempotent (sym : string) (entry_price : float)
    (quantity : Z) (sl tp : float) (s : TradingBot) :
  (forall rest,
     get_latest_trade_replies (api s) = None :: rest ->
     account (emit (Sleep (CHECK_INTERVAL (config s)))
                (with_scripts rest (submit_order_replies (api s)) s)) =
       account s /\
     monitor_position sym entry_price quantity sl tp s =
     monitor_position sym entry_price quantity sl tp
       (emit (Sleep (CHECK_INTERVAL (config s)))
          (with_scripts rest (submit_order_replies (api s)) s))) /\
  account (final (monitor_position sym entry_price quantity sl tp s)) =
    account s /\
  (forall outcome s',
     monitor_position sym entry_price quantity sl tp s = Ret outcome s' ->
     exists quiet p later,
       get_latest_trade_replies (api s) = quiet ++ Some p :: later /\
       Forall (quiet_poll sl tp) quiet /\
       breaches sl tp p = true /\
       outcome =
         (((p - entry_price) * float_of_int quantity)%float,
          exit_reason sl p)) /\
  (Forall (quiet_poll sl tp) (get_latest_trade_replies (api s)) ->
   monitor_position sym entry_price quantity sl tp s =
     Blocked
       (emit_all
          (repeat (Sleep (CHECK_INTERVAL (config s)))
             (List.length (get_latest_trade_replies (api s))))
          (with_scripts [] (submit_order_replies (api s)) s))).
Proof.
  split; [|split; [|split]].
  - intros rest Hs. split; [reflexivity|].
    destruct s as [c [la bars prices orders] p0 t0 n0 es].
    simpl in Hs. subst prices. reflexivity.
  - apply (sb_monitor_position sym entry_price quantity sl tp s).
  - intros outcome s' H. unfold monitor_position in H.
    eapply monitor_loop_exit. exact H.
  - intro Hq. unfold monitor_position.
    destruct s as [c [la bars prices orders] p0 t0 n0 es].
    cbn [api get_latest_trade_replies submit_order_replies config] in *.
    replace (S (List.length prices)) with (List.length prices + 1)%nat by lia.
    pose proof (monitor_loop_quiet sym entry_price quantity sl tp c la bars
                  orders p0 t0 n0 prices [] 1%nat es Hq) as L.
    rewrite List.app_nil_r in L. rewrite L. reflexivity.
Qed.

(** The monitor never raises. *)
Lemma monitor_loop_never_raises (sym : string) (entry_price : float)
    (quantity : Z) (sl tp : float) :
  forall (fuel : nat) (s s' : TradingBot) (e : Exception),
    monitor_loop fuel sym entry_price quantity sl tp s <> Raised e s'.
Proof.
  induction fuel as [|fuel IH]; intros s s' e H; [discriminate|].
  cbn [monitor_loop] in H.
  unfold bind at 1, get_current_price, api_get_latest_trade in H.
  destruct (get_latest_trade_replies (api s)) as [|reply prices];
    [discriminate|].
  assert (exit : forall (outcome : float * ExitType) s0,
            (place_sell_order sym quantity ;;; ret outcome) s0 <>
            Raised e s').
  { intros outcome s0. unfold place_sell_order, bind, api_submit_order, ret.
    destruct (submit_order_replies (api s0)); discriminate. }
  destruct reply as [p|].
  - destruct (PrimFloat.leb p sl); [exact (exit _ _ H)|].
    destruct (PrimFloat.leb tp p); [exact (exit _ _ H)|].
    exact (IH _ _ _ H).
  - exact (IH _ _ _ H).
Qed.

(** ** Thresholds *)

(** C4 (as stated, refuted). The thresholds are computed in binary64, and a
    percentage that validation accepts can be too small to move them: with
    1e-17 the factors 1 - pct and 1 + pct both round to 1.0, so that
    stop-loss price, entry price and take-profit price coincide at 50.0 and
    neither strict inequality holds.  With the default 0.1 the take-profit
    price for an entry at 50 is 55.00000000000001, just above 55. *)
Lemma threshold_collapse :
  validate (set_STOP_LOSS_PCT 1e-17 demo_config) = Returns tt /\
  flt 0 50 /\ flt 0 1e-17 /\ flt 1e-17 1 /\
  stop_loss_of 50 1e-17 = 50%float /\
  take_profit_of 50 1e-17 = 50%float /\
  PrimFloat.ltb (stop_loss_of 50 1e-17) 50 = false /\
  PrimFloat.ltb 50 (take_profit_of 50 1e-17) = false /\
  stop_loss_of 50 0.1 = 45%float /\
  take_profit_of 50 0.1 = 55.000000000000007%float /\
  PrimFloat.ltb 55 (take_profit_of 50 0.1) = true.
Proof. repeat split; vm_compute; reflexivity. Qed.

(** The factor 1 - pct rounds to at most 1 and the factor 1 + pct to at
    least 1, so the product with the first does not round above the entry
    price and the product with the second not below it. *)
Lemma thresholds_ordered (entry pct : float) :
  flt 0 entry -> flt 0 pct -> flt pct 1 ->
  fle (stop_loss_of entry pct) entry /\ fle entry (take_profit_of entry pct).
Proof.
  intros He Hp Hp1.
  destruct (flt_0_inv pct Hp) as [I|[mp [ep [Ep Bp]]]].
  { unfold flt in Hp1. rewrite ltb_spec, I in Hp1. discriminate. }
  pose proof (flt_1_inv pct mp ep Ep Bp Hp1) as Lp.
  destruct (one_minus_range pct mp ep Ep Bp Lp) as [mo [eo [Eo [Bo Vo]]]].
  destruct (one_plus_range pct mp ep Ep Bp Lp) as [mq [eq [Eq [Bq Vq]]]].
  unfold fle, stop_loss_of, take_profit_of. rewrite !leb_spec, !mul_spec.
  pose proof (Prim2SF_valid (entry * (1 - pct))%float) as V1.
  pose proof (Prim2SF_valid (entry * (1 + pct))%float) as V2.
  rewrite mul_spec in V1, V2. rewrite Eo, Eq in *.
  destruct (flt_0_inv entry He) as [I|[me [ee [Ee Be]]]]; rewrite ?I, ?Ee in *.
  - split; reflexivity.
  - pose proof Be as Ce. apply andb_prop in Ce as [Ce _].
    pose proof Bo as Co. apply andb_prop in Co as [Co _].
    pose proof Bq as Cq. apply andb_prop in Cq as [Cq _].
    assert (0 < val (Zpos me) ee)%R as Pe by (apply val_pos; lia).
    split.
    + apply (rounds_to_UB _ _ _ _ (SFmul_rounds me ee mo eo Ce Co) V1 Be).
      nra.
    + apply (rounds_to_LB _ _ _ _ (SFmul_rounds me ee mq eq Ce Cq) V2 Be).
      nra.
Qed.

(** From the machine epsilon up, the factors round to at most 1 - 2^-52 and
    to at least 1 + 2^-52, and the products with a normal entry price are
    at or beyond the binary64 numbers next to it. *)
Lemma thresholds_strict (entry pct : float) :
  fle 2.2250738585072014e-308 entry -> flt entry infinity ->
  fle 2.220446049250313e-16 pct -> flt pct 1 ->
  flt (stop_loss_of entry pct) entry /\ flt entry (take_profit_of entry pct).
Proof.
  intros Hn Hf Hp Hp1.
  destruct (fle_eps_inv pct Hp) as [I|[mp [ep [Ep [Bp Lp]]]]].
  { unfold flt in Hp1. rewrite ltb_spec, I in Hp1. discriminate. }
  pose proof (flt_1_inv pct mp ep Ep Bp Hp1) as Up.
  destruct (normal_inv entry Hn Hf) as [me [ee [Ee [Be Ne]]]].
  pose proof Be as Ce. apply andb_prop in Ce as [Ce _].
  assert (0 < val (Zpos me) ee)%R as Pe by (apply val_pos; lia).
  change (2 ^ 52) with 4503599627370496 in Ne.
  unfold flt, stop_loss_of, take_profit_of. rewrite !ltb_spec, !mul_spec.
  pose proof (Prim2SF_valid (entry * (1 - pct))%float) as V1.
  pose proof (Prim2SF_valid (entry * (1 + pct))%float) as V2.
  rewrite mul_spec in V1, V2. rewrite Ee in *.
  split.
  - destruct (one_minus_rounds pct mp ep Ep Bp Up) as [Hr Lo].
    destruct (rounds_to_between _ _ 1 (-1074) 9007199254740990 (-53) Hr
                (Prim2SF_valid _))
      as [mo [eo [Eo [Bo [_ Uo]]]]]; [reflexivity|reflexivity| |].
    { split; [exact Lo|]. rewrite val_eps_below. lra. }
    rewrite Eo in *.
    pose proof Bo as Co. apply andb_prop in Co as [Co _].
    destruct (below_exists me ee Be) as [mb [eb [Bb Vb]]]; [exact Ne|].
    apply (rounds_to_lt _ _ mb eb me ee (SFmul_rounds me ee mo eo Ce Co)
             V1 Bb Be).
    + rewrite Vb.
      apply Rle_trans with (val (Zpos me) ee * val 9007199254740990 (-53))%R.
      * apply Rmult_le_compat_l; [lra|exact Uo].
      * rewrite <- val_mul. replace (ee + -53) with (ee - 53) by lia.
        replace (val (Zpos me - 1) ee)
          with (val ((Zpos me - 1) * 2 ^ 53) (ee - 53)).
        -- apply val_le. change (2 ^ 53) with 9007199254740992. lia.
        -- rewrite val_shift by lia. f_equal. lia.
    + rewrite Vb. apply val_lt. lia.
  - pose proof (one_plus_rounds pct mp ep Ep Bp) as Hr.
    destruct (rounds_to_between _ _ 4503599627370497 (-52)
                4503599627370496 (-51) Hr (Prim2SF_valid _))
      as [mq [eq [Eq [Bq [Lq _]]]]]; [reflexivity|reflexivity| |].
    { rewrite val_eps_above, val_two. lra. }
    rewrite Eq in *.
    pose proof Bq as Cq. apply andb_prop in Cq as [Cq _].
    assert (val (Zpos me + 1) ee <= val (Zpos me) ee * val (Zpos mq) eq)%R
      as G.
    { apply Rle_trans with (val (Zpos me) ee * val 4503599627370497 (-52))%R.
      * rewrite <- val_mul. replace (ee + -52) with (ee - 52) by lia.
        replace (val (Zpos me + 1) ee)
          with (val ((Zpos me + 1) * 2 ^ 52) (ee - 52)).
        -- apply val_le. change (2 ^ 52) with 4503599627370496. lia.
        -- rewrite val_shift by lia. f_equal. lia.
      * apply Rmult_le_compat_l; [lra|exact Lq]. }
    destruct (above_exists me ee Be) as [[mb [eb [Bb Vb]]]|O]; [exact Ne| |].
    + apply (rounds_to_gt _ _ mb eb me ee (SFmul_rounds me ee mq eq Ce Cq)
               V2 Bb Be).
      * rewrite Vb. exact G.
      * rewrite Vb. apply val_lt. lia.
    + unfold SF64mul.
      rewrite (rounds_to_overflow _ _ (SFmul_rounds me ee mq eq Ce Cq)).
      * reflexivity.
      * lra.
Qed.

(** C4 (amended). For every entry price above zero, the positive infinity
    included, and every percentage strictly between 0 and 1, the thresholds
    that the code computes in binary64 are ordered around the entry price:
    stop-loss price = entry * (1 - pct) <= entry price <= take-profit price
    = entry * (1 + pct), each factor and each product being the rounded one.
    Both inequalities are strict when the entry price is a normal finite
    number (at least 2.2250738585072014e-308, the smallest normal binary64
    number) and the percentage is at least 2.220446049250313e-16 (2^-52,
    the machine epsilon). *)
Theorem threshold_ordering (entry pct : float) :
  flt 0 entry -> flt 0 pct -> flt pct 1 ->
  (fle (stop_loss_of entry pct) entry /\
   fle entry (take_profit_of entry pct)) /\
  (fle 2.2250738585072014e-308 entry -> flt entry infinity ->
   fle 2.220446049250313e-16 pct ->
   flt (stop_loss_of entry pct) entry /\
   flt entry (take_profit_of entry pct)).
Proof.
  intros He Hp Hp1. split.
  - apply thresholds_ordered; assumption.
  - intros Hn Hf Hm. apply thresholds_strict; assumption.
Qed.

Lemma threshold_ordering_witness :
  (fle (stop_loss_of 50 0.1) 50 /\ fle 50 (take_profit_of 50 0.1)) /\
  (flt (stop_loss_of 50 0.1) 50 /\ flt 50 (take_profit_of 50 0.1)).
Proof.
  destruct (threshold_ordering 50 0.1) as [A B]; try reflexivity.
  split; [exact A|]. apply B; reflexivity.
Defined.

(** With such a percentage the first poll at the entry price itself exits on
    the stop-loss, with a result of 0.0. *)
Lemma tiny_stop_scenario :
  exists s',
    execute_trade_cycle tiny_stop_bot = Ret true s' /\
    effects s' =
      [Log (MostTradedStock (Some "AAPL") 900);
       SubmitOrder "AAPL" 20 buy true; Sleep 5;
       SubmitOrder "AAPL" 20 sell true;
       Log (TradeCompleted stop_loss 0)] /\
    account s' = (1000%float, 0%float, 1).
Proof.
  eexists. split; [vm_compute; reflexivity|]. split; reflexivity.
Qed.

(** A poll at exactly 55 does not reach the take-profit price that the code
    computes for an entry at 50: the monitor waits, and sells at the next
    breaching price. *)
Lemma poll_at_55_scenario :
  exists s',
    execute_trade_cycle just_below_target_bot = Ret true s' /\
    effects s' =
      [Log (MostTradedStock (Some "AAPL") 900);
       SubmitOrder "AAPL" 20 buy true; Sleep 5; Sleep 30;
       SubmitOrder "AAPL" 20 sell true;
       Log (TradeCompleted take_profit 120)] /\
    account s' = (1120%float, 120%float, 1).
Proof.
  eexists. split; [vm_compute; reflexivity|]. split; reflexivity.
Qed.

(** ** The fuel of the loops is never what blocks them *)

Lemma nma_refl (s : TradingBot) : no_more_assets s s.
Proof. unfold no_more_assets. lia. Qed.

Lemma nma_trans (s1 s2 s3 : TradingBot) :
  no_more_assets s1 s2 -> no_more_assets s2 s3 -> no_more_assets s1 s3.
Proof. unfold no_more_assets. lia. Qed.

Lemma nma_bind {A B : Type} (m : M A) (k : A -> M B) :
  preserves no_more_assets m -> (forall a, preserves no_more_assets (k a)) ->
  preserves no_more_assets (bind m k).
Proof. apply preserves_bind, nma_trans. Qed.

Lemma nma_ret {A : Type} (a : A) : preserves no_more_assets (ret a).
Proof. apply preserves_ret, nma_refl. Qed.

Lemma nma_reads {A : Type} (attr : TradingBot -> A) :
  preserves no_more_assets (reads attr).
Proof. apply preserves_reads, nma_refl. Qed.

Lemma nma_lift {A : Type} (o : Outcome A) : preserves no_more_assets (lift o).
Proof. apply preserves_lift, nma_refl. Qed.

Lemma nma_modify_emit (e : Effect) : preserves no_more_assets (modify (emit e)).
Proof. intro s. unfold no_more_assets, assets_left. simpl. lia. Qed.

Lemma nma_modify_book (result : float) :
  preserves no_more_assets (modify (book result)).
Proof. intro s. unfold no_more_assets, assets_left. simpl. lia. Qed.

Lemma nma_api_list_assets : preserves no_more_assets api_list_assets.
Proof.
  intro s. unfold api_list_assets, no_more_assets, assets_left.
  destruct (list_assets_replies (api s)) eqn:E; simpl; rewrite ?E; simpl; lia.
Qed.

Lemma nma_api_get_barset : preserves no_more_assets api_get_barset.
Proof.
  intro s. unfold api_get_barset, no_more_assets, assets_left.
  destruct (get_barset_replies (api s)); simpl; lia.
Qed.

Lemma nma_api_get_latest_trade : preserves no_more_assets api_get_latest_trade.
Proof.
  intro s. unfold api_get_latest_trade, no_more_assets, assets_left.
  destruct (get_latest_trade_replies (api s)); simpl; lia.
Qed.

Lemma nma_api_submit_order (sym : string) (qty : Z) (side : Side) :
  preserves no_more_assets (api_submit_order sym qty side).
Proof.
  intro s. unfold api_submit_order, no_more_assets, assets_left.
  destruct (submit_order_replies (api s)); simpl; lia.
Qed.

Create HintDb assets.

#[local] Hint Resolve nma_ret nma_reads nma_lift nma_modify_emit
  nma_modify_book nma_api_list_assets nma_api_get_barset
  nma_api_get_latest_trade nma_api_submit_order : assets.

Ltac assets :=
  unfold sleep, log;
  repeat first
    [ apply nma_bind; [|intro]
    | solve [auto with assets]
    | match goal with
      | |- preserves _ (match ?x with _ => _ end) => destruct x
      | |- preserves _ (if ?x then _ else _) => destruct x
      end ].

Lemma nma_scan_assets (assets : list Asset) :
  forall max_volume top_symbol,
    preserves no_more_assets (scan_assets assets max_volume top_symbol).
Proof.
  induction assets as [|asset rest IH]; intros; simpl; assets.
Qed.

#[local] Hint Resolve nma_scan_assets : assets.

Lemma nma_monitor_loop (fuel : nat) (sym : string) (entry_price : float)
    (quantity : Z) (sl tp : float) :
  preserves no_more_assets (monitor_loop fuel sym entry_price quantity sl tp).
Proof.
  induction fuel as [|fuel IH]; simpl.
  - intro s. apply nma_refl.
  - unfold get_current_price, place_sell_order. assets; exact IH.
Qed.

Lemma nma_monitor_position (sym : string) (entry_price : float)
    (quantity : Z) (sl tp : float) :
  preserves no_more_assets (monitor_position sym entry_price quantity sl tp).
Proof. intro s. unfold monitor_position. apply nma_monitor_loop. Qed.

#[local] Hint Resolve nma_monitor_position : assets.





(** Blocking happens only at a gateway call whose script is empty. *)
Lemma bd_bind {A B : Type} (m : M A) (k : A -> M B) :
  blocks_dry m -> (forall a, blocks_dry (k a)) -> blocks_dry (bind m k).
Proof.
  intros Hm Hk s s' E. unfold bind in E.
  destruct (m s) as [a s1|s1|e s1] eqn:E1.
  - exact (Hk a s1 s' E).
  - inversion E; subst. exact (Hm s s' E1).
  - discriminate.
Qed.

Lemma bd_ret {A : Type} (a : A) : blocks_dry (ret a).
Proof. intros s s' E. discriminate. Qed.

Lemma bd_reads {A : Type} (attr : TradingBot -> A) : blocks_dry (reads attr).
Proof. intros s s' E. discriminate. Qed.

Lemma bd_lift {A : Type} (o : Outcome A) : blocks_dry (lift o).
Proof. intros s s' E. unfold lift in E. destruct o; discriminate. Qed.

Lemma bd_modify (f : TradingBot -> TradingBot) : blocks_dry (modify f).
Proof. intros s s' E. discriminate. Qed.

Lemma bd_api_list_assets : blocks_dry api_list_assets.
Proof.
  intros s s' E. unfold api_list_assets in E.
  destruct (list_assets_replies (api s)) eqn:L; [|discriminate].
  inversion E; subst. left. exact L.
Qed.

Lemma bd_api_get_barset : blocks_dry api_get_barset.
Proof.
  intros s s' E. unfold api_get_barset in E.
  destruct (get_barset_replies (api s)) eqn:L; [|discriminate].
  inversion E; subst. right. left. exact L.
Qed.

Lemma bd_api_get_latest_trade : blocks_dry api_get_latest_trade.
Proof.
  intros s s' E. unfold api_get_latest_trade in E.
  destruct (get_latest_trade_replies (api s)) eqn:L; [|discriminate].
  inversion E; subst. right. right. left. exact L.
Qed.

Lemma bd_api_submit_order (sym : string) (qty : Z) (side : Side) :
  blocks_dry (api_submit_order sym qty side).
Proof.
  intros s s' E. unfold api_submit_order in E.
  destruct (submit_order_replies (api s)) eqn:L; [|discriminate].
  inversion E; subst. right. right. right. exact L.
Qed.

Create HintDb dry.

#[local] Hint Resolve bd_ret bd_reads bd_lift bd_modify bd_api_list_assets
  bd_api_get_barset bd_api_get_latest_trade bd_api_submit_order : dry.

Ltac dry :=
  unfold sleep, log;
  repeat first
    [ apply bd_bind; [|intro]
    | solve [auto with dry]
    | match goal with
      | |- blocks_dry (match ?x with _ => _ end) => destruct x
      | |- blocks_dry (if ?x then _ else _) => destruct x
      end ].

Lemma bd_scan_assets (assets : list Asset) :
  forall max_volume top_symbol,
    blocks_dry (scan_assets assets max_volume top_symbol).
Proof.
  induction assets as [|asset rest IH]; intros; simpl; dry.
Qed.

#[local] Hint Resolve bd_scan_assets : dry.

Lemma bd_monitor_loop (sym : string) (entry_price : float) (quantity : Z)
    (sl tp : float) :
  forall (fuel : nat) (s s' : TradingBot),
    (List.length (get_latest_trade_replies (api s)) < fuel)%nat ->
    monitor_loop fuel sym entry_price quantity sl tp s = Blocked s' ->
    exhausted (api s').
Proof.
  induction fuel as [|fuel IH]; intros s s' Hf E; [lia|].
  destruct s as [c [la bars prices orders] p0 t0 n0 es].
  cbn [api get_latest_trade_replies] in Hf.
  destruct prices as [|reply prices].
  - inversion E; subst. right. right. left. reflexivity.
  - cbn [monitor_loop] in E.
    unfold bind at 1, get_current_price, api_get_latest_trade in E.
    cbn [api get_latest_trade_replies] in E. simpl List.length in Hf.
    assert (again : forall s0,
      (List.length (get_latest_trade_replies (api s0)) < fuel)%nat ->
      (interval <- reads (fun self => CHECK_INTERVAL (config self)) ;;
       sleep interval ;;;
       monitor_loop fuel sym entry_price quantity sl tp) s0 = Blocked s' ->
      exhausted (api s')).
    { intros s0 H0 E0.
      apply (IH (emit (Sleep (CHECK_INTERVAL (config s0))) s0) s');
        [exact H0|exact E0]. }
    assert (exit : forall (outcome : float * ExitType) s0,
      (place_sell_order sym quantity ;;; ret outcome) s0 = Blocked s' ->
      exhausted (api s')).
    { intros outcome s0 E0.
      refine (bd_bind _ _ _ _ s0 s' E0); [|intro; apply bd_ret].
      unfold place_sell_order. dry. }
    destruct reply as [p|].
    + destruct (PrimFloat.leb p sl); [exact (exit _ _ E)|].
      destruct (PrimFloat.leb tp p); [exact (exit _ _ E)|].
      refine (again _ _ E); simpl; lia.
    + refine (again _ _ E); simpl; lia.
Qed.

Lemma bd_monitor_position (sym : string) (entry_price : float) (quantity : Z)
    (sl tp : float) :
  blocks_dry (monitor_position sym entry_price quantity sl tp).
Proof.
  intros s s' E. unfold monitor_position in E.
  eapply bd_monitor_loop; [|exact E]. lia.
Qed.

#[local] Hint Resolve bd_monitor_position : dry.






(** ** The run loop *)


Lemma accumulate_snoc (x r : float) (results : list float) :
  accumulate x (results ++ [r]) = (accumulate x results + r)%float.
Proof. unfold accumulate. rewrite fold_left_app. reflexivity. Qed.







Lemma run_retry_scenario :
  exists s',
    run false retry_bot = Ret tt s' /\
    account s' = (1120%float, 120%float, 1) /\
    trade_results (effects s') = [120%float] /\
    failed_cycles (effects s') = 1%nat.
Proof.
  eexists. split; [vm_compute; reflexivity|].
  split; [reflexivity|]. split; reflexivity.
Qed.

(** ** Capital accounting *)

Lemma reachable_run_loop (c : Config) (gw : Gateway) (ctrl_c : bool) :
  forall (fuel : nat) (s : TradingBot),
    reachable c gw s -> reachable c gw (final (run_loop ctrl_c fuel s)).
Proof.
  induction fuel as [|fuel IH]; intros s Hs.
  - simpl. destruct (PrimFloat.ltb _ _); exact Hs.
  - cbn [run_loop]. destruct (PrimFloat.ltb _ _); [|exact Hs].
    pose proof (reach_iteration c gw s Hs) as Hi.
    destruct (run_body s) as [[|] s1|s1|e s1]; simpl in *.
    + exact Hi.
    + apply IH. exact Hi.
    + destruct ctrl_c; simpl; [apply reach_interrupt|]; exact Hi.
    + exact Hi.
Qed.

Lemma ledger_same_books (c : Config) (s s' : TradingBot) :
  same_books s s' -> ledger c s -> ledger c s'.
Proof.
  intros B (Hc & Hp & Ht & Hn).
  destruct (same_books_pot s s' B) as (P & T & N & C).
  destruct B as (_ & _ & R). unfold ledger. rewrite P, T, N, C, R.
  repeat split; assumption.
Qed.

Lemma ledger_cycle (c : Config) (s : TradingBot) :
  ledger c s -> ledger c (final (execute_trade_cycle s)).
Proof.
  intro L. pose proof (execute_trade_cycle_books s) as B.
  destruct (execute_trade_cycle s) as [[|] s1|s1|e s1]; simpl in *;
    try exact (ledger_same_books c s s1 B L).
  destruct B as (why & result & C & A & _ & R & _).
  destruct L as (Hc & Hp & Ht & Hn).
  unfold account in A. inversion A as [[P T N]].
  unfold ledger. rewrite C, P, T, N, R, !accumulate_snoc, List.length_app.
  rewrite <- Hp, <- Ht, Hn. simpl List.length.
  repeat split; try assumption. lia.
Qed.

Lemma ledger_reachable (c : Config) (gw : Gateway) (s : TradingBot) :
  reachable c gw s -> ledger c s.
Proof.
  induction 1 as [|s Hs IH|s Hs IH|s Hs IH].
  - repeat split.
  - apply (ledger_same_books c (final (execute_trade_cycle s)));
      [apply run_body_after_cycle|apply ledger_cycle; exact IH].
  - apply ledger_cycle. exact IH.
  - apply (ledger_same_books c s); [|exact IH].
    apply same_books_emit. reflexivity.
Qed.

(** C10 (as stated, refuted). After the two take-profit trades of the
    scenario (results 110 and 119.69999999999995) the run has returned with a
    pot of 1229.7 and a total profit of 229.69999999999993, while the initial
    pot plus that total profit is 1229.6999999999998, and the pot minus the
    total profit is no longer the initial pot of 1000: the two sums are
    rounded separately. *)
Lemma pot_drifts_from_profit :
  reachable (config two_trades_bot) (api two_trades_bot)
    (final (run false two_trades_bot)) /\
  INITIAL_POT (config two_trades_bot) = 1000%float /\
  trade_results (effects (final (run false two_trades_bot))) =
    [110; 119.69999999999995]%float /\
  pot (final (run false two_trades_bot)) = 1229.7%float /\
  total_profit (final (run false two_trades_bot)) =
    229.69999999999993%float /\
  (INITIAL_POT (config two_trades_bot) +
   total_profit (final (run false two_trades_bot)))%float =
    1229.6999999999998%float /\
  PrimFloat.eqb (pot (final (run false two_trades_bot)))
    (INITIAL_POT (config two_trades_bot) +
     total_profit (final (run false two_trades_bot))) = false /\
  PrimFloat.eqb
    (pot (final (run false two_trades_bot)) -
     total_profit (final (run false two_trades_bot)))
    (INITIAL_POT (config two_trades_bot)) = false.
Proof.
  split.
  - unfold run. apply reachable_run_loop. apply reach_init.
  - repeat split; vm_compute; reflexivity.
Qed.

(** C10 (amended). In every state the run loop can be observed in (after
    initialisation, after every cycle and every loop iteration however they
    ended, and after an interrupt), the pot is the initial pot with the
    results of the trades completed so far added one after the other, and
    the total profit is 0.0 with the same results added one after the other,
    each addition rounded to binary64 on its own; the trade count is the
    number of these results.  So pot and total profit move by the same
    results, but the pot equals the initial pot plus the total profit only
    up to rounding.  The state in which [run] ends is one of these states. *)
Theorem capital_accounting (c : Config) (gw : Gateway) (s : TradingBot) :
  reachable c gw s ->
  pot s = accumulate (INITIAL_POT c) (trade_results (effects s)) /\
  total_profit s = accumulate 0 (trade_results (effects s)) /\
  trades_completed s = Z.of_nat (List.length (trade_results (effects s))) /\
  config s = c /\
  (forall ctrl_c, reachable c gw (final (run ctrl_c (TradingBot_init c gw)))).
Proof.
  intro Hs. destruct (ledger_reachable c gw s Hs) as (Hc & Hp & Ht & Hn).
  repeat split; try assumption.
  intro ctrl_c. unfold run. apply reachable_run_loop. apply reach_init.
Qed.

Lemma capital_accounting_witness :
  pot (final (run false two_trades_bot)) =
    accumulate (INITIAL_POT (config two_trades_bot))
      (trade_results (effects (final (run false two_trades_bot)))) /\
  total_profit (final (run false two_trades_bot)) =
    accumulate 0
      (trade_results (effects (final (run false two_trades_bot)))).
Proof.
  destruct (capital_accounting (config two_trades_bot) (api two_trades_bot)
              (final (run false two_trades_bot))) as (P & T & _).
  - apply (reachable_run_loop _ _ false
             (S (List.length (list_assets_replies (api two_trades_bot))))
             two_trades_bot).
    apply reach_init.
  - split; assumption.
Defined.

(** ** The risk-management settings are never read *)

Section Blind.

Variables (mcl : Z) (lo hi : float).

Abbreviation f := (with_risk mcl lo hi) (only parsing).

Lemma blind_ret {A : Type} (a : A) : blind f (ret a).
Proof. intro s. reflexivity. Qed.

Lemma blind_reads {A : Type} (attr : TradingBot -> A) :
  (forall s, attr (f s) = attr s) -> blind f (reads attr).
Proof. intros H s. unfold reads. rewrite H. reflexivity. Qed.

Lemma blind_lift {A : Type} (o : Outcome A) : blind f (lift o).
Proof. intro s. unfold lift. destruct o; reflexivity. Qed.

Lemma blind_modify (g : TradingBot -> TradingBot) :
  (forall s, g (f s) = f (g s)) -> blind f (modify g).
Proof. intros H s. unfold modify. rewrite H. reflexivity. Qed.

Lemma blind_bind {A B : Type} (m : M A) (k : A -> M B) :
  blind f m -> (forall a, blind f (k a)) -> blind f (bind m k).
Proof.
  intros Hm Hk s. unfold bind. rewrite Hm.
  destruct (m s) as [a s1|s1|e s1]; simpl; [apply Hk|reflexivity|reflexivity].
Qed.

Lemma blind_sleep (seconds : Z) : blind f (sleep seconds).
Proof. apply blind_modify. reflexivity. Qed.

Lemma blind_log (r : LogRecord) : blind f (log r).
Proof. apply blind_modify. reflexivity. Qed.

Lemma blind_book (result : float) : blind f (modify (book result)).
Proof. apply blind_modify. reflexivity. Qed.

Lemma blind_api_list_assets : blind f api_list_assets.
Proof.
  intro s. unfold api_list_assets. simpl.
  destruct (list_assets_replies (api s)); reflexivity.
Qed.

Lemma blind_api_get_barset : blind f api_get_barset.
Proof.
  intro s. unfold api_get_barset. simpl.
  destruct (get_barset_replies (api s)); reflexivity.
Qed.

Lemma blind_api_get_latest_trade : blind f api_get_latest_trade.
Proof.
  intro s. unfold api_get_latest_trade. simpl.
  destruct (get_latest_trade_replies (api s)); reflexivity.
Qed.

Lemma blind_api_submit_order (sym : string) (qty : Z) (side : Side) :
  blind f (api_submit_order sym qty side).
Proof.
  intro s. unfold api_submit_order. simpl.
  destruct (submit_order_replies (api s)); reflexivity.
Qed.

Ltac blind :=
  repeat first
    [ apply blind_bind; [|intro]
    | apply blind_ret
    | apply blind_sleep
    | apply blind_log
    | apply blind_book
    | apply blind_lift
    | apply blind_reads; reflexivity
    | apply blind_api_list_assets
    | apply blind_api_get_barset
    | apply blind_api_get_latest_trade
    | apply blind_api_submit_order
    | assumption
    | match goal with
      | |- blind _ (match ?x with _ => _ end) => destruct x
      | |- blind _ (if ?x then _ else _) => destruct x
      end ].

Lemma blind_scan_assets (assets : list Asset) :
  forall max_volume top_symbol,
    blind f (scan_assets assets max_volume top_symbol).
Proof.
  induction assets as [|asset rest IH]; intros; simpl; blind; apply IH.
Qed.

Lemma blind_get_most_traded_stock : blind f get_most_traded_stock.
Proof. unfold get_most_traded_stock. blind. apply blind_scan_assets. Qed.

Lemma blind_monitor_loop (fuel : nat) (sym : string) (entry_price : float)
    (quantity : Z) (sl tp : float) :
  blind f (monitor_loop fuel sym entry_price quantity sl tp).
Proof.
  induction fuel as [|fuel IH]; simpl.
  - intro s. reflexivity.
  - unfold get_current_price, place_sell_order. blind.
Qed.

Lemma blind_monitor_position (sym : string) (entry_price : float)
    (quantity : Z) (sl tp : float) :
  blind f (monitor_position sym entry_price quantity sl tp).
Proof.
  intro s. unfold monitor_position.
  change (api (f s)) with (api s). apply blind_monitor_loop.
Qed.

Lemma blind_execute_trade_cycle : blind f execute_trade_cycle.
Proof.
  unfold execute_trade_cycle, get_current_price, place_buy_order.
  apply blind_bind; [apply blind_get_most_traded_stock|]. intro top.
  blind. apply blind_monitor_position.
Qed.

Lemma blind_try_body : blind f try_body.
Proof.
  unfold try_body. apply blind_bind; [apply blind_execute_trade_cycle|].
  intro ok. blind.
Qed.

Lemma blind_run_body : blind f run_body.
Proof.
  intro s. unfold run_body. rewrite blind_try_body.
  destruct (try_body s) as [stop s1|s1|e s1]; reflexivity.
Qed.

Lemma blind_run_loop (ctrl_c : bool) (fuel : nat) :
  blind f (run_loop ctrl_c fuel).
Proof.
  induction fuel as [|fuel IH]; intro s.
  - simpl. destruct (PrimFloat.ltb _ _); reflexivity.
  - cbn [run_loop].
    change (total_profit (f s)) with (total_profit s).
    change (PROFIT_TARGET (config (f s))) with (PROFIT_TARGET (config s)).
    destruct (PrimFloat.ltb _ _); [|reflexivity].
    rewrite blind_run_body.
    destruct (run_body s) as [[|] s1|s1|e s1]; simpl; try reflexivity.
    + apply IH.
    + destruct ctrl_c; reflexivity.
Qed.

Lemma blind_run (ctrl_c : bool) : blind f (run ctrl_c).
Proof.
  intro s. unfold run. change (api (f s)) with (api s). apply blind_run_loop.
Qed.

Lemma behaviour_with_risk {A : Type} (r : Result A) :
  behaviour (map_state f r) = behaviour r.
Proof. destruct r; reflexivity. Qed.

End Blind.

(** C9. Replacing the configured maximum of consecutive losses and the
    minimum and maximum stock price by any other values changes nothing an
    observer can see: validation gives the same verdict, and against the same
    gateway replies the run makes the same gateway calls, picks the same
    symbols, submits the same orders, sleeps and logs the same, ends (or
    blocks) the same way and leaves the same account. *)
Theorem risk_settings_unread (c : Config) (gw : Gateway) (mcl : Z)
    (lo hi : float) :
  validate (set_risk mcl lo hi c) = validate c /\
  (forall ctrl_c,
     behaviour (run ctrl_c (TradingBot_init (set_risk mcl lo hi c) gw)) =
       behaviour (run ctrl_c (TradingBot_init c gw))) /\
  (forall s,
     behaviour (execute_trade_cycle (with_risk mcl lo hi s)) =
       behaviour (execute_trade_cycle s)).
Proof.
  split; [reflexivity|]. split.
  - intro ctrl_c.
    change (TradingBot_init (set_risk mcl lo hi c) gw)
      with (with_risk mcl lo hi (TradingBot_init c gw)).
    rewrite blind_run. apply behaviour_with_risk.
  - intro s. rewrite blind_execute_trade_cycle. apply behaviour_with_risk.
Qed.

(** ** Rejected orders *)

Lemma buy_rejected_aborts (s s0 s1 : TradingBot) (sym : string)
    (entry_price : float) (qty : Z) (orders : list bool) :
  get_most_traded_stock s = Ret (Some sym) s0 ->
  truthy_str sym = true ->
  get_current_price sym s0 = Ret (Some entry_price) s1 ->
  truthy_float entry_price = true ->
  position_size (pot s) entry_price = Returns qty ->
  qty <> 0 ->
  submit_order_replies (api s1) = false :: orders ->
  exists s2,
    execute_trade_cycle s = Ret false s2 /\
    account s2 = account s /\
    effects s2 = effects s1 ++ [SubmitOrder sym qty buy false] /\
    exists s3,
      run_body s = Ret false s3 /\
      account s3 = account s /\
      effects s3 = effects s2 ++ [Log TradeCycleFailed; Sleep 60].
Proof.
  intros E0 T E1 F Sz Z0 O. unfold get_current_price in E1.
  pose proof (sizing_stage_books s s0 s1 sym _ E0 E1) as B.
  destruct (same_books_pot s s1 B) as (P & _).
  destruct B as (_ & A & _).
  apply Z.eqb_neq in Z0.
  assert (C : execute_trade_cycle s =
              Ret false (emit (SubmitOrder sym qty buy false)
                           (set_api (mkGateway (list_assets_replies (api s1))
                              (get_barset_replies (api s1))
                              (get_latest_trade_replies (api s1)) orders) s1))).
  { rewrite execute_trade_cycle_unfold, E0, T, E1, F, P, Sz, Z0.
    unfold api_submit_order. rewrite O. reflexivity. }
  eexists. split; [exact C|]. split; [exact A|]. split; [reflexivity|].
  eexists. rewrite run_body_unfold, C.
  split; [reflexivity|]. split; [exact A|].
  unfold cooldown, emit. simpl. rewrite <- !List.app_assoc. reflexivity.
Qed.

(** C6 (the defect, evaluated). In the scenario whose sell order the gateway
    rejects, the cycle still returns success, books the result of -120 and
    counts a trade; the loop body reports no failure and takes no cooldown.
    With the buy order rejected instead, the cycle returns failure, the
    account is untouched, and the loop body reports the failure and sleeps
    60 seconds. *)
Theorem sell_rejection_ignored :
  (exists s',
     execute_trade_cycle sell_rejected_bot = Ret true s' /\
     In (SubmitOrder "AAPL" 20 sell false) (effects s') /\
     account s' = (880%float, (-120)%float, 1) /\
     failed_cycles (effects (final (run_body sell_rejected_bot))) = 0%nat /\
     ~ In (Sleep 60) (effects (final (run_body sell_rejected_bot)))) /\
  (exists s',
     run_body buy_rejected_bot = Ret false s' /\
     account s' = account buy_rejected_bot /\
     effects s' =
       [Log (MostTradedStock (Some "AAPL") 900);
        SubmitOrder "AAPL" 20 buy false; Log TradeCycleFailed; Sleep 60]).
Proof.
  split.
  - eexists. split; [vm_compute; reflexivity|].
    split; [simpl; tauto|]. split; [reflexivity|]. split; [reflexivity|].
    vm_compute. intro H.
    repeat (destruct H as [H|H]; [inversion H|]). exact H.
  - eexists. split; [vm_compute; reflexivity|].
    split; reflexivity.
Qed.

(** * Further properties of the code *)

(** ** The selector *)

Lemma scan_assets_inv (c : Config) (la : list (option (list Asset)))
    (prices : list (option float)) (orders : list bool) (p0 t0 : float)
    (n0 : Z) (es : list Effect) :
  forall (assets : list Asset) (bars : list BarReply) (m : Z)
         (t : option string) (r : Z * option string) (s' : TradingBot),
    scan_assets assets m t
      (mkBot c (mkGateway la bars prices orders) p0 t0 n0 es) = Ret r s' ->
    exists used bars',
      bars = used ++ bars' /\
      List.length used = List.length (filter eligible assets) /\
      s' = mkBot c (mkGateway la bars' prices orders) p0 t0 n0 es /\
      r = pick (m, t) (combine (filter eligible assets) used).
Proof.
  induction assets as [|asset rest IH]; intros bars m t r s' H.
  - inversion H; subst. exists [], bars. repeat split.
  - cbn [scan_assets] in H. unfold eligible at 1 2. cbn [filter].
    destruct (tradable asset), (shortable asset); cbn [negb orb andb] in *;
      try (apply IH in H; exact H).
    unfold bind at 1, api_get_barset in H.
    cbn [api get_barset_replies] in H.
    destruct bars as [|reply bars]; [discriminate|].
    unfold set_api in H.
    cbn [api config pot total_profit trades_completed effects
         list_assets_replies get_latest_trade_replies submit_order_replies]
      in H.
    assert (K : exists m1 t1,
               better (m, t) (asset, reply) = (m1, t1) /\
               scan_assets rest m1 t1
                 (mkBot c (mkGateway la bars prices orders) p0 t0 n0 es) =
               Ret r s').
    { unfold better. cbn [fst snd].
      destruct reply as [| |volume]; try (exists m, t; split; [reflexivity|exact H]).
      destruct (volume >? m).
      - exists volume, (Some (symbol asset)). split; [reflexivity|exact H].
      - exists m, t. split; [reflexivity|exact H]. }
    destruct K as (m1 & t1 & Hb & Hs).
    apply IH in Hs. destruct Hs as (used & bars' & E1 & E2 & E3 & E4).
    exists (reply :: used), bars'. repeat split.
    + simpl. rewrite E1. reflexivity.
    + simpl. rewrite E2. reflexivity.
    + exact E3.
    + unfold pick. cbn [combine fold_left]. rewrite Hb. exact E4.
Qed.

(** The selector's scan never raises. *)
Lemma scan_assets_never_raises :
  forall (assets : list Asset) (m : Z) (t : option string)
         (s s' : TradingBot) (e : Exception),
    scan_assets assets m t s <> Raised e s'.
Proof.
  induction assets as [|asset rest IH]; intros m t s s' e H.
  - discriminate.
  - cbn [scan_assets] in H.
    destruct (negb (tradable asset) || negb (shortable asset));
      [exact (IH _ _ _ _ _ H)|].
    unfold bind at 1, api_get_barset in H.
    destruct (get_barset_replies (api s)) as [|reply bars]; [discriminate|].
    destruct reply as [| |volume]; try exact (IH _ _ _ _ _ H).
    destruct (volume >? m); exact (IH _ _ _ _ _ H).
Qed.

(** The outcome of the running maximum: either nothing beat the start value,
    or the winner is the first reading that carries the final maximum. *)
Lemma pick_spec :
  forall (readings : list (Asset * BarReply)) (m : Z) (t : option string),
    (fst (pick (m, t) readings) = m /\ snd (pick (m, t) readings) = t /\
     forall a v, In (a, BarsVolume v) readings -> v <= m) \/
    (exists pre a post,
       readings = pre ++ (a, BarsVolume (fst (pick (m, t) readings))) :: post /\
       snd (pick (m, t) readings) = Some (symbol a) /\
       m < fst (pick (m, t) readings) /\
       (forall a' v', In (a', BarsVolume v') pre ->
                      v' < fst (pick (m, t) readings)) /\
       (forall a' v', In (a', BarsVolume v') post ->
                      v' <= fst (pick (m, t) readings))).
Proof.
  induction readings as [|[a reply] rest IH]; intros m t.
  - left. simpl. repeat split. intros a v [].
  - unfold pick. cbn [fold_left]. fold (pick (better (m, t) (a, reply)) rest).
    assert (keep : (forall v, reply = BarsVolume v -> v <= m) ->
                   (fst (pick (m, t) rest) = m /\
                    snd (pick (m, t) rest) = t /\
                    forall a0 v, In (a0, BarsVolume v) ((a, reply) :: rest) ->
                                 v <= m) \/
                   (exists pre a0 post,
                      (a, reply) :: rest =
                        pre ++ (a0, BarsVolume (fst (pick (m, t) rest))) :: post /\
                      snd (pick (m, t) rest) = Some (symbol a0) /\
                      m < fst (pick (m, t) rest) /\
                      (forall a' v', In (a', BarsVolume v') pre ->
                                     v' < fst (pick (m, t) rest)) /\
                      (forall a' v', In (a', BarsVolume v') post ->
                                     v' <= fst (pick (m, t) rest)))).
    { intros Hle.
      destruct (IH m t)
        as [(E1 & E2 & E3)|(pre & a0 & post & E1 & E2 & E3 & E4 & E5)].
      - left. repeat split; try assumption.
        intros a1 v [Hin|Hin]; [|exact (E3 a1 v Hin)].
        inversion Hin; subst. apply Hle. reflexivity.
      - right. exists ((a, reply) :: pre), a0, post.
        repeat split; try assumption.
        + simpl. rewrite <- E1. reflexivity.
        + intros a' v' [Hin|Hin]; [|exact (E4 a' v' Hin)].
          inversion Hin; subst. specialize (Hle v' eq_refl). lia. }
    destruct reply as [| |v].
    + change (better (m, t) (a, BarsRaise)) with (m, t).
      apply keep. intros v0 Hv. discriminate.
    + change (better (m, t) (a, BarsWithoutSymbol)) with (m, t).
      apply keep. intros v0 Hv. discriminate.
    + destruct (Z.gtb_spec v m) as [G|G].
      * assert (Hb : better (m, t) (a, BarsVolume v) = (v, Some (symbol a))).
        { unfold better. cbn [fst snd].
          destruct (Z.gtb_spec v m); [reflexivity|lia]. }
        rewrite Hb. right.
        destruct (IH v (Some (symbol a)))
          as [(E1 & E2 & E3)|(pre & a0 & post & E1 & E2 & E3 & E4 & E5)].
        -- exists [], a, rest. rewrite E1, E2.
           repeat split; try assumption. intros a' v' [].
        -- exists ((a, BarsVolume v) :: pre), a0, post.
           repeat split; try assumption.
           ++ simpl. rewrite <- E1. reflexivity.
           ++ lia.
           ++ intros a' v' [Hin|Hin]; [|exact (E4 a' v' Hin)].
              inversion Hin; subst. exact E3.
      * assert (Hb : better (m, t) (a, BarsVolume v) = (m, t)).
        { unfold better. cbn [fst snd].
          destruct (Z.gtb_spec v m); [lia|reflexivity]. }
        rewrite Hb. apply keep.
        intros v0 Hv. inversion Hv; subst. exact G.
Qed.

Lemma get_most_traded_stock_inv (s s' : TradingBot) (assets : list Asset)
    (rest : list (option (list Asset))) (top : option string) :
  list_assets_replies (api s) = Some assets :: rest ->
  get_most_traded_stock s = Ret top s' ->
  exists used bars',
    get_barset_replies (api s) = used ++ bars' /\
    List.length used = List.length (filter eligible (firstn 100 assets)) /\
    top = snd (pick (0, None) (readings_of assets used)) /\
    s' = mkBot (config s)
           (mkGateway rest bars' (get_latest_trade_replies (api s))
              (submit_order_replies (api s)))
           (pot s) (total_profit s) (trades_completed s)
           (effects s ++
            [Log (MostTradedStock top
                    (fst (pick (0, None) (readings_of assets used))))]).
Proof.
  intros Hla H.
  destruct s as [c [la bars prices orders] p0 t0 n0 es].
  cbn [api list_assets_replies] in Hla. subst la.
  unfold get_most_traded_stock, bind, api_list_assets, set_api in H.
  cbn [api list_assets_replies get_barset_replies get_latest_trade_replies
       submit_order_replies config pot total_profit trades_completed effects]
    in H.
  destruct (scan_assets (firstn 100 assets) 0 None _) as [r s1|s1|e s1] eqn:Hs;
    [|discriminate|discriminate].
  apply scan_assets_inv in Hs.
  destruct Hs as (used & bars' & E1 & E2 & E3 & E4).
  subst s1. unfold log, modify, ret, emit in H.
  cbn [api config pot total_profit trades_completed effects] in H.
  inversion H; subst.
  exists used, bars'.
  cbn [api list_assets_replies get_barset_replies get_latest_trade_replies
       submit_order_replies config pot total_profit trades_completed effects].
  unfold readings_of. repeat split; assumption.
Qed.

Lemma get_most_traded_stock_never_raises (s s' : TradingBot)
    (e : Exception) :
  get_most_traded_stock s <> Raised e s'.
Proof.
  unfold get_most_traded_stock, bind, api_list_assets. intro H.
  destruct (list_assets_replies (api s)) as [|[assets|] rest];
    try discriminate.
  destruct (scan_assets (firstn 100 assets) 0 None _) as [r s1|s1|e1 s1] eqn:Hs;
    try discriminate.
  inversion H; subst. exact (scan_assets_never_raises _ _ _ _ _ _ Hs).
Qed.

Lemma scan_assets_returns (c : Config) (la : list (option (list Asset)))
    (prices : list (option float)) (orders : list bool) (p0 t0 : float)
    (n0 : Z) (es : list Effect) :
  forall (assets : list Asset) (bars : list BarReply) (m : Z)
         (t : option string),
    (List.length (filter eligible assets) <= List.length bars)%nat ->
    exists r s',
      scan_assets assets m t
        (mkBot c (mkGateway la bars prices orders) p0 t0 n0 es) = Ret r s'.
Proof.
  induction assets as [|asset rest IH]; intros bars m t Hlen.
  - eexists; eexists. reflexivity.
  - cbn [scan_assets]. cbn [filter] in Hlen. unfold eligible at 1 in Hlen.
    destruct (tradable asset), (shortable asset); cbn [negb orb andb] in *;
      try (apply IH; exact Hlen).
    cbn [List.length] in Hlen.
    destruct bars as [|reply bars]; [cbn [List.length] in Hlen; lia|].
    cbn [List.length] in Hlen.
    unfold bind at 1, api_get_barset, set_api.
    cbn [api config pot total_profit trades_completed effects
         list_assets_replies get_barset_replies get_latest_trade_replies
         submit_order_replies].
    destruct reply as [| |volume]; try (apply IH; lia).
    destruct (volume >? m); apply IH; lia.
Qed.

Lemma filter_eligible_bound (assets : list Asset) :
  (List.length (filter eligible (firstn 100 assets)) <= 100)%nat.
Proof.
  eapply Nat.le_trans; [apply List.filter_length_le|].
  apply List.firstn_le_length.
Qed.

Lemma skipn_length_app {A : Type} (l1 l2 : list A) :
  skipn (List.length l1) (l1 ++ l2) = l2.
Proof. induction l1 as [|x l1 IH]; simpl; [reflexivity|exact IH]. Qed.

Lemma reading_eligible (assets : list Asset) (used : list BarReply)
    (a : Asset) (reply : BarReply) :
  In (a, reply) (readings_of assets used) ->
  eligible a = true /\ In a (firstn 100 assets).
Proof.
  intro H. unfold readings_of in H. apply in_combine_l in H.
  apply filter_In in H. tauto.
Qed.

(** X1. When the selector returns a symbol, it is the symbol of the first
    bar reading that carries the largest volume read: every earlier reading
    is strictly smaller (ties go to the asset seen first), every later one is
    no larger, the volume is positive, and the asset is a tradable, shortable
    one among the first hundred listed. *)
Theorem selector_picks_first_maximum (s s' : TradingBot)
    (assets : list Asset) (rest : list (option (list Asset))) (sym : string) :
  list_assets_replies (api s) = Some assets :: rest ->
  get_most_traded_stock s = Ret (Some sym) s' ->
  exists used pre a v post,
    get_barset_replies (api s) = used ++ get_barset_replies (api s') /\
    readings_of assets used = pre ++ (a, BarsVolume v) :: post /\
    symbol a = sym /\ tradable a = true /\ shortable a = true /\
    In a (firstn 100 assets) /\ 0 < v /\
    (forall a' v', In (a', BarsVolume v') pre -> v' < v) /\
    (forall a' v', In (a', BarsVolume v') post -> v' <= v) /\
    effects s' = effects s ++ [Log (MostTradedStock (Some sym) v)].
Proof.
  intros Hla H.
  destruct (get_most_traded_stock_inv s s' assets rest (Some sym) Hla H)
    as (used & bars' & E1 & E2 & E3 & E4).
  destruct (pick_spec (readings_of assets used) 0 None)
    as [(P1 & P2 & P3)|(pre & a & post & P1 & P2 & P3 & P4 & P5)].
  - rewrite P2 in E3. discriminate.
  - set (v := fst (pick (0, None) (readings_of assets used))) in *.
    exists used, pre, a, v, post.
    assert (Hin : In (a, BarsVolume v) (readings_of assets used)).
    { rewrite P1. apply in_or_app. right. left. reflexivity. }
    apply reading_eligible in Hin. destruct Hin as [He Hin].
    unfold eligible in He. apply andb_true_iff in He.
    rewrite P2 in E3. inversion E3 as [E5].
    subst s'. cbn [api get_barset_replies effects].
    repeat split; try tauto; try assumption; congruence.
Qed.

Lemma selector_picks_first_maximum_witness :
  exists used pre a v post,
    get_barset_replies (api stop_loss_bot) =
      used ++
      get_barset_replies (api (final (get_most_traded_stock stop_loss_bot))) /\
    readings_of demo_assets used = pre ++ (a, BarsVolume v) :: post /\
    symbol a = "AAPL" /\ tradable a = true /\ shortable a = true /\
    In a (firstn 100 demo_assets) /\ 0 < v /\
    (forall a' v', In (a', BarsVolume v') pre -> v' < v) /\
    (forall a' v', In (a', BarsVolume v') post -> v' <= v) /\
    effects (final (get_most_traded_stock stop_loss_bot)) =
      effects stop_loss_bot ++ [Log (MostTradedStock (Some "AAPL") v)].
Proof.
  apply (selector_picks_first_maximum stop_loss_bot
           (final (get_most_traded_stock stop_loss_bot)) demo_assets []).
  - reflexivity.
  - reflexivity.
Defined.

(** X2. When the asset listing succeeds, the selector returns no symbol
    exactly when no bar reading had a positive volume (in particular when no
    listed asset is both tradable and shortable); when the listing raises, it
    returns no symbol without a bar request and without a log line. *)
Theorem selector_none_iff (s : TradingBot) :
  (forall s' assets rest top,
     list_assets_replies (api s) = Some assets :: rest ->
     get_most_traded_stock s = Ret top s' ->
     exists used,
       get_barset_replies (api s) = used ++ get_barset_replies (api s') /\
       (top = None <->
        forall a v, In (a, BarsVolume v) (readings_of assets used) -> v <= 0)) /\
  (forall rest,
     list_assets_replies (api s) = None :: rest ->
     get_most_traded_stock s =
       Ret None
         (set_api (mkGateway rest (get_barset_replies (api s))
                     (get_latest_trade_replies (api s))
                     (submit_order_replies (api s))) s)).
Proof.
  split.
  - intros s' assets rest top Hla H.
    destruct (get_most_traded_stock_inv s s' assets rest top Hla H)
      as (used & bars' & E1 & E2 & E3 & E4).
    exists used. split.
    { subst s'. cbn [api get_barset_replies]. exact E1. }
    destruct (pick_spec (readings_of assets used) 0 None)
      as [(P1 & P2 & P3)|(pre & a & post & P1 & P2 & P3 & P4 & P5)].
    + rewrite P2 in E3. split; [intros _; exact P3|intros _; exact E3].
    + rewrite P2 in E3. split; [intro E; congruence|].
      intro Hall. exfalso.
      assert (Hin : In (a, BarsVolume (fst (pick (0, None)
                                              (readings_of assets used))))
                      (readings_of assets used)).
      { rewrite P1 at 2. apply in_or_app. right. left. reflexivity. }
      apply Hall in Hin. lia.
  - intros rest Hla. unfold get_most_traded_stock, bind, api_list_assets.
    rewrite Hla. reflexivity.
Qed.

(** X3. Given the asset listing and at least as many bar replies as there
    are tradable, shortable assets among the first hundred listed, the
    selector returns; it has made exactly that many bar requests (never more
    than a hundred), logged its pick, and touched neither the price script,
    the order script nor the account. *)
Theorem selector_reads_only (s : TradingBot) (assets : list Asset)
    (rest : list (option (list Asset))) :
  list_assets_replies (api s) = Some assets :: rest ->
  (List.length (filter eligible (firstn 100 assets)) <=
   List.length (get_barset_replies (api s)))%nat ->
  (List.length (filter eligible (firstn 100 assets)) <= 100)%nat /\
  exists top v,
    get_most_traded_stock s =
      Ret top
        (mkBot (config s)
           (mkGateway rest
              (skipn (List.length (filter eligible (firstn 100 assets)))
                 (get_barset_replies (api s)))
              (get_latest_trade_replies (api s))
              (submit_order_replies (api s)))
           (pot s) (total_profit s) (trades_completed s)
           (effects s ++ [Log (MostTradedStock top v)])).
Proof.
  intros Hla Hlen. split; [apply filter_eligible_bound|].
  assert (R : exists top s', get_most_traded_stock s = Ret top s').
  { destruct s as [c [la bars prices orders] p0 t0 n0 es].
    cbn [api list_assets_replies get_barset_replies] in *. subst la.
    destruct (scan_assets_returns c rest prices orders p0 t0 n0 es
                (firstn 100 assets) bars 0 None Hlen) as (r & s1 & Hs).
    unfold get_most_traded_stock, bind, api_list_assets, set_api.
    cbn [api list_assets_replies get_barset_replies get_latest_trade_replies
         submit_order_replies config pot total_profit trades_completed
         effects].
    rewrite Hs. eexists; eexists. reflexivity. }
  destruct R as (top & s' & H).
  destruct (get_most_traded_stock_inv s s' assets rest top Hla H)
    as (used & bars' & E1 & E2 & E3 & E4).
  exists top, (fst (pick (0, None) (readings_of assets used))).
  rewrite H, E4. rewrite <- E2, E1, skipn_length_app. reflexivity.
Qed.

Lemma selector_reads_only_witness :
  exists top v,
    get_most_traded_stock stop_loss_bot =
      Ret top
        (mkBot (config stop_loss_bot)
           (mkGateway []
              (skipn (List.length (filter eligible (firstn 100 demo_assets)))
                 (get_barset_replies (api stop_loss_bot)))
              (get_latest_trade_replies (api stop_loss_bot))
              (submit_order_replies (api stop_loss_bot)))
           (pot stop_loss_bot) (total_profit stop_loss_bot)
           (trades_completed stop_loss_bot)
           (effects stop_loss_bot ++ [Log (MostTradedStock top v)])).
Proof.
  apply (selector_reads_only stop_loss_bot demo_assets []).
  - reflexivity.
  - vm_compute. lia.
Defined.

(** ** Anatomy of a trade cycle *)

Lemma api_get_latest_trade_inv (s s' : TradingBot) (price : option float) :
  api_get_latest_trade s = Ret price s' ->
  exists rest,
    get_latest_trade_replies (api s) = price :: rest /\
    s' = with_scripts rest (submit_order_replies (api s)) s.
Proof.
  unfold api_get_latest_trade, with_scripts.
  destruct (get_latest_trade_replies (api s)) as [|r rest]; [discriminate|].
  cbn zeta. intro H. inversion H; subst. exists rest. split; reflexivity.
Qed.

Lemma api_submit_order_inv (s s' : TradingBot) (sym : string) (qty : Z)
    (side : Side) (accepted : bool) :
  api_submit_order sym qty side s = Ret accepted s' ->
  exists rest,
    submit_order_replies (api s) = accepted :: rest /\
    s' = emit (SubmitOrder sym qty side accepted)
           (with_scripts (get_latest_trade_replies (api s)) rest s).
Proof.
  unfold api_submit_order, with_scripts.
  destruct (submit_order_replies (api s)) as [|r rest]; [discriminate|].
  cbn zeta. intro H. inversion H; subst. exists rest. split; reflexivity.
Qed.

(** A monitor that returns has read quiet polls up to the first breaching
    price, and then sent the sell order. *)
Lemma monitor_position_inv (sym : string) (entry_price : float)
    (quantity : Z) (sl tp : float) (s s' : TradingBot)
    (outcome : float * ExitType) :
  monitor_position sym entry_price quantity sl tp s = Ret outcome s' ->
  exists quiet p later ok orders,
    get_latest_trade_replies (api s) = quiet ++ Some p :: later /\
    submit_order_replies (api s) = ok :: orders /\
    Forall (quiet_poll sl tp) quiet /\
    breaches sl tp p = true /\
    outcome = (((p - entry_price) * float_of_int quantity)%float,
               exit_reason sl p) /\
    s' = emit_all
           (repeat (Sleep (CHECK_INTERVAL (config s))) (List.length quiet) ++
            [SubmitOrder sym quantity sell ok])
           (with_scripts later orders s).
Proof.
  intro H. pose proof H as H0. unfold monitor_position in H0.
  apply monitor_loop_exit in H0.
  destruct H0 as (quiet & p & later & Hp & Hq & Hb & Ho).
  destruct (submit_order_replies (api s)) as [|ok orders] eqn:Hord.
  - exfalso. unfold monitor_position in H. rewrite Hp in H.
    rewrite (bot_eta s) in H. rewrite Hp, Hord in H.
    rewrite List.length_app in H. simpl List.length in H.
    replace (S (List.length quiet + S (List.length later)))
      with (List.length quiet + S (S (List.length later)))%nat in H by lia.
    rewrite monitor_loop_quiet in H by exact Hq.
    cbn [monitor_loop] in H.
    unfold bind, get_current_price, api_get_latest_trade, place_sell_order,
      api_submit_order in H.
    cbn [api get_latest_trade_replies submit_order_replies set_api] in H.
    unfold breaches in Hb.
    destruct (PrimFloat.leb p sl); [discriminate|].
    simpl in Hb. rewrite Hb in H. discriminate.
  - exists quiet, p, later, ok, orders.
    pose proof (monitor_position_breach sym entry_price quantity sl tp quiet p
                  later ok orders s Hp Hord Hq Hb) as E.
    rewrite E in H. inversion H; subst.
    repeat split; try assumption; reflexivity.
Qed.

Lemma get_most_traded_stock_stage (s s0 : TradingBot) (top : option string) :
  get_most_traded_stock s = Ret top s0 ->
  exists r bars' pre,
    list_assets_replies (api s) = r :: list_assets_replies (api s0) /\
    s0 = mkBot (config s)
           (mkGateway (list_assets_replies (api s0)) bars'
              (get_latest_trade_replies (api s))
              (submit_order_replies (api s)))
           (pot s) (total_profit s) (trades_completed s) (effects s ++ pre) /\
    ((pre = [] /\ top = None) \/ exists v, pre = [Log (MostTradedStock top v)]).
Proof.
  intro H. destruct (list_assets_replies (api s)) as [|[assets|] rest] eqn:Hla.
  - unfold get_most_traded_stock, bind, api_list_assets in H.
    rewrite Hla in H. discriminate.
  - destruct (get_most_traded_stock_inv s s0 assets rest top Hla H)
      as (used & bars' & _ & _ & _ & E).
    exists (Some assets), bars',
      [Log (MostTradedStock top
              (fst (pick (0, None) (readings_of assets used))))].
    subst s0. cbn [api list_assets_replies].
    split; [reflexivity|]. split; [reflexivity|]. right. eexists. reflexivity.
  - unfold get_most_traded_stock, bind, api_list_assets in H.
    rewrite Hla in H. inversion H; subst.
    exists None, (get_barset_replies (api s)), [].
    cbn [api set_api list_assets_replies].
    split; [reflexivity|]. split; [|left; split; reflexivity].
    unfold set_api. rewrite List.app_nil_r. reflexivity.
Qed.

Lemma truthy_str_nonempty (sym : string) : truthy_str sym = true -> sym <> "".
Proof. intros T E. subst sym. discriminate. Qed.

(** The full anatomy of a cycle that returns success. *)
Lemma cycle_success_anatomy (s s' : TradingBot) :
  execute_trade_cycle s = Ret true s' ->
  exists sym v entry qty polls p later ok orders r,
    sym <> "" /\ truthy_float entry = true /\
    position_size (pot s) entry = Returns qty /\ qty <> 0 /\
    get_latest_trade_replies (api s) = Some entry :: polls ++ Some p :: later /\
    get_latest_trade_replies (api s') = later /\
    submit_order_replies (api s) = true :: ok :: orders /\
    submit_order_replies (api s') = orders /\
    Forall (quiet_poll (stop_loss_of entry (STOP_LOSS_PCT (config s)))
              (take_profit_of entry (TAKE_PROFIT_PCT (config s)))) polls /\
    breaches (stop_loss_of entry (STOP_LOSS_PCT (config s)))
      (take_profit_of entry (TAKE_PROFIT_PCT (config s))) p = true /\
    effects s' =
      effects s ++
      [Log (MostTradedStock (Some sym) v);
       SubmitOrder sym qty buy true; Sleep 5] ++
      repeat (Sleep (CHECK_INTERVAL (config s))) (List.length polls) ++
      [SubmitOrder sym qty sell ok;
       Log (TradeCompleted
              (exit_reason (stop_loss_of entry (STOP_LOSS_PCT (config s))) p)
              ((p - entry) * float_of_int qty)%float)] /\
    config s' = config s /\
    account s' =
      ((pot s + (p - entry) * float_of_int qty)%float,
       (total_profit s + (p - entry) * float_of_int qty)%float,
       trades_completed s + 1) /\
    list_assets_replies (api s) = r :: list_assets_replies (api s').
Proof.
  rewrite execute_trade_cycle_unfold. intro H.
  destruct (get_most_traded_stock s) as [[sym|] s0|s0|e s0] eqn:E0;
    try discriminate.
  destruct (truthy_str sym) eqn:Tsym; [|discriminate].
  destruct (api_get_latest_trade s0) as [[entry|] s1|s1|e s1] eqn:E1;
    try discriminate.
  destruct (truthy_float entry) eqn:Tentry; [|discriminate].
  destruct (position_size (pot s1) entry) as [qty|e] eqn:Sz; [|discriminate].
  destruct (Z.eqb_spec qty 0) as [Z0|Z0]; [discriminate|].
  destruct (api_submit_order sym qty buy s1) as [[|] s2|s2|e s2] eqn:E2;
    try discriminate.
  destruct (monitor_position sym entry qty _ _ (emit (Sleep 5) s2))
    as [[result why] s3|s3|e s3] eqn:Mon; try discriminate.
  cbn [fst snd] in H. inversion H; subst s'. clear H.
  apply get_most_traded_stock_stage in E0.
  destruct E0 as (r & bars' & pre & Hla & Hs0 & [[_ F]|[v Hpre]]);
    [discriminate|].
  apply api_get_latest_trade_inv in E1. destruct E1 as (rest & Hp0 & Hs1).
  apply api_submit_order_inv in E2. destruct E2 as (orders1 & Ho1 & Hs2).
  apply monitor_position_inv in Mon.
  destruct Mon as (polls & p & later & ok & orders & Hp2 & Ho2 & Hq & Hb
                   & Hout & Hs3).
  inversion Hout as [[Hres Hwhy]].
  set (la' := list_assets_replies (api s0)) in *.
  subst pre s3 s2 s1. rewrite Hs0 in *. clear Hs0.
  cbn [api config pot total_profit trades_completed account
       get_latest_trade_replies submit_order_replies list_assets_replies
       get_barset_replies with_scripts set_api emit emit_all book effects]
    in *.
  exists sym, v, entry, qty, polls, p, later, ok, orders, r.
  split; [apply truthy_str_nonempty; exact Tsym|].
  split; [exact Tentry|]. split; [exact Sz|]. split; [exact Z0|].
  split; [rewrite Hp0, Hp2; reflexivity|].
  split; [reflexivity|].
  split; [rewrite Ho1, Ho2; reflexivity|].
  split; [reflexivity|].
  split; [exact Hq|]. split; [exact Hb|].
  subst why result.
  split; [rewrite <- !List.app_assoc; reflexivity|].
  split; [reflexivity|]. split; [reflexivity|].
  exact Hla.
Qed.

(** X6. A cycle that returns success has done exactly this, in this order:
    logged its pick, bought the quantity [int(pot / entry)] (not zero) of the
    picked symbol at a truthy entry price with the first order accepted,
    slept 5 seconds, slept one check interval per poll that breached neither
    of the thresholds the code computed, sold the same quantity of the same
    symbol on the first price that breached one, and logged the completed
    trade with the result computed from that price.  It has used up one
    entry price, the polls up to the breach, and two order replies. *)
Theorem successful_cycle_trace (s s' : TradingBot) :
  execute_trade_cycle s = Ret true s' ->
  exists sym v entry qty polls p later ok orders,
    sym <> "" /\ truthy_float entry = true /\
    position_size (pot s) entry = Returns qty /\ qty <> 0 /\
    get_latest_trade_replies (api s) = Some entry :: polls ++ Some p :: later /\
    get_latest_trade_replies (api s') = later /\
    submit_order_replies (api s) = true :: ok :: orders /\
    submit_order_replies (api s') = orders /\
    Forall (quiet_poll (stop_loss_of entry (STOP_LOSS_PCT (config s)))
              (take_profit_of entry (TAKE_PROFIT_PCT (config s)))) polls /\
    breaches (stop_loss_of entry (STOP_LOSS_PCT (config s)))
      (take_profit_of entry (TAKE_PROFIT_PCT (config s))) p = true /\
    effects s' =
      effects s ++
      [Log (MostTradedStock (Some sym) v);
       SubmitOrder sym qty buy true; Sleep 5] ++
      repeat (Sleep (CHECK_INTERVAL (config s))) (List.length polls) ++
      [SubmitOrder sym qty sell ok;
       Log (TradeCompleted
              (exit_reason (stop_loss_of entry (STOP_LOSS_PCT (config s))) p)
              ((p - entry) * float_of_int qty)%float)].
Proof.
  intro H.
  destruct (cycle_success_anatomy s s' H)
    as (sym & v & entry & qty & polls & p & later & ok & orders & r & A1 & A2
        & A3 & A4 & A5 & A6 & A7 & A8 & A9 & A10 & A11 & _).
  exists sym, v, entry, qty, polls, p, later, ok, orders.
  repeat split; assumption.
Qed.

Lemma successful_cycle_trace_witness :
  exists sym v entry qty polls p later ok orders,
    sym <> "" /\ truthy_float entry = true /\
    position_size (pot take_profit_bot) entry = Returns qty /\ qty <> 0 /\
    get_latest_trade_replies (api take_profit_bot) =
      Some entry :: polls ++ Some p :: later /\
    get_latest_trade_replies
      (api (final (execute_trade_cycle take_profit_bot))) = later /\
    submit_order_replies (api take_profit_bot) = true :: ok :: orders /\
    submit_order_replies
      (api (final (execute_trade_cycle take_profit_bot))) = orders /\
    Forall (quiet_poll
              (stop_loss_of entry (STOP_LOSS_PCT (config take_profit_bot)))
              (take_profit_of entry (TAKE_PROFIT_PCT (config take_profit_bot))))
      polls /\
    breaches (stop_loss_of entry (STOP_LOSS_PCT (config take_profit_bot)))
      (take_profit_of entry (TAKE_PROFIT_PCT (config take_profit_bot))) p =
      true /\
    effects (final (execute_trade_cycle take_profit_bot)) =
      effects take_profit_bot ++
      [Log (MostTradedStock (Some sym) v);
       SubmitOrder sym qty buy true; Sleep 5] ++
      repeat (Sleep (CHECK_INTERVAL (config take_profit_bot)))
        (List.length polls) ++
      [SubmitOrder sym qty sell ok;
       Log (TradeCompleted
              (exit_reason
                 (stop_loss_of entry (STOP_LOSS_PCT (config take_profit_bot)))
                 p)
              ((p - entry) * float_of_int qty)%float)].
Proof.
  apply (successful_cycle_trace take_profit_bot
           (final (execute_trade_cycle take_profit_bot))).
  vm_compute. reflexivity.
Defined.

(** The anatomy of a cycle that returns failure. *)
Lemma cycle_failure_anatomy (s s' : TradingBot) :
  execute_trade_cycle s = Ret false s' ->
  account s' = account s /\ config s' = config s /\
  exists pre last used r,
    effects s' = effects s ++ pre ++ [last] /\
    (pre = [] \/ exists top v, pre = [Log (MostTradedStock top v)]) /\
    (last = Log CouldNotFindStock \/
     (exists sym, last = Log (CouldNotGetPrice sym)) \/
     (exists sym entry,
        last = Log (InsufficientFunds sym entry) /\
        position_size (pot s) entry = Returns 0) \/
     (exists sym entry qty,
        last = SubmitOrder sym qty buy false /\
        position_size (pot s) entry = Returns qty /\ qty <> 0)) /\
    get_latest_trade_replies (api s) =
      used ++ get_latest_trade_replies (api s') /\
    (List.length used <= 1)%nat /\
    list_assets_replies (api s) = r :: list_assets_replies (api s').
Proof.
  rewrite execute_trade_cycle_unfold. intro H.
  destruct (get_most_traded_stock s) as [top s0|s0|e s0] eqn:E0;
    [|discriminate|discriminate].
  apply get_most_traded_stock_stage in E0.
  destruct E0 as (r & bars' & pre & Hla & Hs0 & Hpre).
  assert (Hpre' : pre = [] \/ exists top v, pre = [Log (MostTradedStock top v)]).
  { destruct Hpre as [[E _]|[v E]]; [left; exact E|].
    right. exists top, v. exact E. }
  assert (stage0 : forall last,
            s' = emit last s0 ->
            last = Log CouldNotFindStock ->
            account s' = account s /\ config s' = config s /\
            exists pre last used r,
              effects s' = effects s ++ pre ++ [last] /\
              (pre = [] \/ exists top v, pre = [Log (MostTradedStock top v)]) /\
              (last = Log CouldNotFindStock \/
               (exists sym, last = Log (CouldNotGetPrice sym)) \/
               (exists sym entry,
                  last = Log (InsufficientFunds sym entry) /\
                  position_size (pot s) entry = Returns 0) \/
               (exists sym entry qty,
                  last = SubmitOrder sym qty buy false /\
                  position_size (pot s) entry = Returns qty /\ qty <> 0)) /\
              get_latest_trade_replies (api s) =
                used ++ get_latest_trade_replies (api s') /\
              (List.length used <= 1)%nat /\
              list_assets_replies (api s) = r :: list_assets_replies (api s')).
  { intros last Es' El. subst s'. rewrite Hs0.
    cbn [api config pot total_profit trades_completed effects emit
         get_latest_trade_replies list_assets_replies account].
    split; [reflexivity|]. split; [reflexivity|].
    exists pre, last, [], r. rewrite <- List.app_assoc.
    split; [reflexivity|]. split; [exact Hpre'|]. split; [left; exact El|].
    split; [reflexivity|]. split; [simpl; lia|exact Hla]. }
  destruct top as [sym|];
    [|apply (stage0 (Log CouldNotFindStock)); [congruence|reflexivity]].
  destruct (truthy_str sym);
    [|apply (stage0 (Log CouldNotFindStock)); [congruence|reflexivity]].
  clear stage0.
  destruct (api_get_latest_trade s0) as [price s1|s1|e s1] eqn:E1;
    [|discriminate|discriminate].
  apply api_get_latest_trade_inv in E1. destruct E1 as (rest & Hp0 & Hs1).
  rewrite Hs0 in Hs1, Hp0.
  cbn [api config pot total_profit trades_completed
       get_latest_trade_replies submit_order_replies list_assets_replies
       get_barset_replies with_scripts set_api effects] in Hs1, Hp0.
  assert (stage1 : forall last,
            s' = emit last s1 ->
            ((exists sym, last = Log (CouldNotGetPrice sym)) \/
             (exists sym entry,
                last = Log (InsufficientFunds sym entry) /\
                position_size (pot s) entry = Returns 0)) ->
            account s' = account s /\ config s' = config s /\
            exists pre last used r,
              effects s' = effects s ++ pre ++ [last] /\
              (pre = [] \/ exists top v, pre = [Log (MostTradedStock top v)]) /\
              (last = Log CouldNotFindStock \/
               (exists sym, last = Log (CouldNotGetPrice sym)) \/
               (exists sym entry,
                  last = Log (InsufficientFunds sym entry) /\
                  position_size (pot s) entry = Returns 0) \/
               (exists sym entry qty,
                  last = SubmitOrder sym qty buy false /\
                  position_size (pot s) entry = Returns qty /\ qty <> 0)) /\
              get_latest_trade_replies (api s) =
                used ++ get_latest_trade_replies (api s') /\
              (List.length used <= 1)%nat /\
              list_assets_replies (api s) = r :: list_assets_replies (api s')).
  { intros last Es' El. subst s'. rewrite Hs1.
    unfold with_scripts, set_api.
    cbn [api config pot total_profit trades_completed effects emit
         get_latest_trade_replies list_assets_replies account].
    split; [reflexivity|]. split; [reflexivity|].
    exists pre, last, [price], r. rewrite <- List.app_assoc.
    split; [reflexivity|]. split; [exact Hpre'|].
    split; [destruct El as [El|El]; tauto|].
    split; [rewrite Hp0; reflexivity|]. split; [simpl; lia|exact Hla]. }
  destruct price as [entry|].
  2:{ apply (stage1 (Log (CouldNotGetPrice sym))); [congruence|].
      left. eexists. reflexivity. }
  destruct (truthy_float entry).
  2:{ apply (stage1 (Log (CouldNotGetPrice sym))); [congruence|].
      left. eexists. reflexivity. }
  assert (P1 : pot s1 = pot s) by (rewrite Hs1; reflexivity).
  rewrite P1 in H.
  destruct (position_size (pot s) entry) as [qty|e] eqn:Sz; [|discriminate].
  destruct (Z.eqb_spec qty 0) as [Z0|Z0].
  { apply (stage1 (Log (InsufficientFunds sym entry))); [congruence|].
    right. exists sym, entry. subst qty. split; [reflexivity|exact Sz]. }
  clear stage1.
  destruct (api_submit_order sym qty buy s1) as [[|] s2|s2|e s2] eqn:E2;
    try discriminate.
  { destruct (monitor_position sym entry qty _ _ (emit (Sleep 5) s2))
      as [outcome s3|s3|e s3]; discriminate. }
  inversion H; subst s'. clear H.
  apply api_submit_order_inv in E2. destruct E2 as (orders1 & Ho1 & Hs2).
  rewrite Hs1 in Hs2.
  cbn [api config pot total_profit trades_completed
       get_latest_trade_replies submit_order_replies list_assets_replies
       get_barset_replies with_scripts set_api emit effects] in Hs2.
  rewrite Hs2. unfold with_scripts, set_api.
  cbn [api config pot total_profit trades_completed effects emit
       get_latest_trade_replies list_assets_replies account].
  split; [reflexivity|]. split; [reflexivity|].
  exists pre, (SubmitOrder sym qty buy false), [Some entry], r.
  rewrite <- List.app_assoc.
  split; [reflexivity|]. split; [exact Hpre'|].
  split.
  { right. right. right. exists sym, entry, qty.
    split; [reflexivity|]. split; [exact Sz|exact Z0]. }
  split; [rewrite Hp0; reflexivity|]. split; [simpl; lia|exact Hla].
Qed.

(** X7. A cycle that returns failure has left the account and the
    configuration alone and has added to the trace at most the log of its
    pick and then exactly one last entry: the report that no stock or no
    price was found, the report of insufficient funds (the quantity was
    zero), or a buy order that the gateway rejected.  So no order was
    accepted, nothing was sold, at most one order was sent, and at most one
    price was read. *)
Theorem failed_cycle_trace (s s' : TradingBot) :
  execute_trade_cycle s = Ret false s' ->
  account s' = account s /\ config s' = config s /\
  exists pre last used,
    effects s' = effects s ++ pre ++ [last] /\
    (pre = [] \/ exists top v, pre = [Log (MostTradedStock top v)]) /\
    (last = Log CouldNotFindStock \/
     (exists sym, last = Log (CouldNotGetPrice sym)) \/
     (exists sym entry,
        last = Log (InsufficientFunds sym entry) /\
        position_size (pot s) entry = Returns 0) \/
     (exists sym entry qty,
        last = SubmitOrder sym qty buy false /\
        position_size (pot s) entry = Returns qty /\ qty <> 0)) /\
    (forall sym qty side, ~ In (SubmitOrder sym qty side true) (pre ++ [last])) /\
    (forall sym qty ok, ~ In (SubmitOrder sym qty sell ok) (pre ++ [last])) /\
    (List.length (submitted (pre ++ [last])) <= 1)%nat /\
    get_latest_trade_replies (api s) =
      used ++ get_latest_trade_replies (api s') /\
    (List.length used <= 1)%nat.
Proof.
  intro H.
  destruct (cycle_failure_anatomy s s' H)
    as (Ha & Hc & pre & last & used & r & He & Hpre & Hlast & Hp & Hu & _).
  split; [exact Ha|]. split; [exact Hc|].
  exists pre, last, used.
  split; [exact He|]. split; [exact Hpre|]. split; [exact Hlast|].
  assert (Hin : forall e, In e (pre ++ [last]) ->
                  e = last \/ exists top v, e = Log (MostTradedStock top v)).
  { intros e Hin. apply in_app_or in Hin. destruct Hin as [Hin|[Hin|[]]].
    - right. destruct Hpre as [E|(top & v & E)]; subst pre.
      + destruct Hin.
      + destruct Hin as [Hin|[]]. exists top, v. symmetry. exact Hin.
    - left. symmetry. exact Hin. }
  split; [|split; [|split; [|split; [exact Hp|exact Hu]]]].
  - intros sym qty side Hi. apply Hin in Hi.
    destruct Hi as [E|(top & v & E)]; [|discriminate].
    destruct Hlast as [L|[(x & L)|[(x & y & L & _)|(x & y & z & L & _)]]];
      rewrite L in E; discriminate.
  - intros sym qty ok Hi. apply Hin in Hi.
    destruct Hi as [E|(top & v & E)]; [|discriminate].
    destruct Hlast as [L|[(x & L)|[(x & y & L & _)|(x & y & z & L & _)]]];
      rewrite L in E; discriminate.
  - unfold submitted. rewrite List.filter_app, List.length_app.
    assert (P0 : List.length (filter is_order pre) = 0%nat).
    { destruct Hpre as [E|(top & v & E)]; subst pre; reflexivity. }
    rewrite P0. simpl. destruct (is_order last); simpl; lia.
Qed.

Lemma failed_cycle_trace_witness :
  account (final (execute_trade_cycle buy_rejected_bot)) =
    account buy_rejected_bot.
Proof.
  apply (failed_cycle_trace buy_rejected_bot
           (final (execute_trade_cycle buy_rejected_bot))).
  vm_compute. reflexivity.
Defined.

(** ** The sell order's fate is never looked at *)

(** X13. Whether the gateway accepts or rejects the sell order makes no
    difference to what the monitor returns or leaves behind, apart from the
    flag recorded with the order in the trace: same result and exit reason,
    same account, same remaining gateway replies. *)
Theorem sell_reply_irrelevant (sym : string) (entry_price : float)
    (quantity : Z) (sl tp : float) (s s1 : TradingBot)
    (prices : list (option float)) (orders : list bool) (ok ok' : bool)
    (outcome : float * ExitType) :
  monitor_position sym entry_price quantity sl tp
    (with_scripts prices (ok :: orders) s) = Ret outcome s1 ->
  exists s2 es,
    monitor_position sym entry_price quantity sl tp
      (with_scripts prices (ok' :: orders) s) = Ret outcome s2 /\
    account s2 = account s1 /\ api s2 = api s1 /\ config s2 = config s1 /\
    effects s1 = es ++ [SubmitOrder sym quantity sell ok] /\
    effects s2 = es ++ [SubmitOrder sym quantity sell ok'].
Proof.
  intro H. apply monitor_position_inv in H.
  destruct H as (quiet & p & later & ok0 & orders0 & Hp & Ho & Hq & Hb
                 & Hout & Hs1).
  cbn [with_scripts set_api api get_latest_trade_replies
       submit_order_replies config] in Hp, Ho, Hs1.
  inversion Ho; subst ok0 orders0.
  pose proof (monitor_position_breach sym entry_price quantity sl tp quiet p
                later ok' orders (with_scripts prices (ok' :: orders) s)
                Hp eq_refl Hq Hb) as E.
  eexists. exists (effects s ++
                   repeat (Sleep (CHECK_INTERVAL (config s)))
                     (List.length quiet)).
  split; [rewrite E, Hout; reflexivity|].
  subst s1.
  cbn [with_scripts set_api emit_all api config account pot total_profit
       trades_completed effects get_latest_trade_replies
       submit_order_replies list_assets_replies get_barset_replies].
  repeat split; try reflexivity; apply List.app_assoc.
Qed.

Lemma sell_reply_irrelevant_witness :
  exists s2 es,
    monitor_position "AAPL" 50 20 45 55
      (with_scripts [Some 50; Some 44]%float [false] monitor_demo_bot) =
      Ret (((44 - 50) * float_of_int 20)%float, stop_loss) s2 /\
    account s2 =
      account (final (monitor_position "AAPL" 50 20 45 55
                        (with_scripts [Some 50; Some 44]%float [true]
                           monitor_demo_bot))) /\
    api s2 =
      api (final (monitor_position "AAPL" 50 20 45 55
                    (with_scripts [Some 50; Some 44]%float [true]
                       monitor_demo_bot))) /\
    config s2 =
      config (final (monitor_position "AAPL" 50 20 45 55
                       (with_scripts [Some 50; Some 44]%float [true]
                          monitor_demo_bot))) /\
    effects (final (monitor_position "AAPL" 50 20 45 55
                      (with_scripts [Some 50; Some 44]%float [true]
                         monitor_demo_bot))) =
      es ++ [SubmitOrder "AAPL" 20 sell true] /\
    effects s2 = es ++ [SubmitOrder "AAPL" 20 sell false].
Proof.
  apply (sell_reply_irrelevant "AAPL" 50 20 45 55 monitor_demo_bot
           (final (monitor_position "AAPL" 50 20 45 55
                     (with_scripts [Some 50; Some 44]%float [true]
                        monitor_demo_bot)))
           [Some 50; Some 44]%float [] true false).
  vm_compute. reflexivity.
Defined.

(** ** A cycle that raises *)

Lemma api_get_latest_trade_never_raises (s s' : TradingBot) (e : Exception) :
  api_get_latest_trade s <> Raised e s'.
Proof.
  unfold api_get_latest_trade.
  destruct (get_latest_trade_replies (api s)); discriminate.
Qed.

Lemma api_submit_order_never_raises (sym : string) (qty : Z) (side : Side)
    (s s' : TradingBot) (e : Exception) :
  api_submit_order sym qty side s <> Raised e s'.
Proof.
  unfold api_submit_order.
  destruct (submit_order_replies (api s)); discriminate.
Qed.

(** The anatomy of a cycle that raises: only sizing can raise. *)
Lemma cycle_raise_anatomy (s s' : TradingBot) (e : Exception) :
  execute_trade_cycle s = Raised e s' ->
  exists sym v entry r,
    sym <> "" /\ truthy_float entry = true /\
    position_size (pot s) entry = Raises e /\
    list_assets_replies (api s) = r :: list_assets_replies (api s') /\
    get_latest_trade_replies (api s) =
      Some entry :: get_latest_trade_replies (api s') /\
    submit_order_replies (api s') = submit_order_replies (api s) /\
    effects s' = effects s ++ [Log (MostTradedStock (Some sym) v)] /\
    config s' = config s /\ account s' = account s.
Proof.
  rewrite execute_trade_cycle_unfold. intro H.
  destruct (get_most_traded_stock s) as [[sym|] s0|s0|e0 s0] eqn:E0;
    try discriminate.
  2:{ exfalso. exact (get_most_traded_stock_never_raises _ _ _ E0). }
  destruct (truthy_str sym) eqn:Tsym; [|discriminate].
  destruct (api_get_latest_trade s0) as [[entry|] s1|s1|e1 s1] eqn:E1;
    try discriminate.
  2:{ exfalso. exact (api_get_latest_trade_never_raises _ _ _ E1). }
  destruct (truthy_float entry) eqn:Tentry; [|discriminate].
  destruct (position_size (pot s1) entry) as [qty|e1] eqn:Sz.
  { exfalso. destruct (qty =? 0); [discriminate|].
    destruct (api_submit_order sym qty buy s1) as [[|] s2|s2|e2 s2] eqn:E2;
      try discriminate.
    - destruct (monitor_position sym entry qty _ _ (emit (Sleep 5) s2))
        as [outcome s3|s3|e3 s3] eqn:Mon; try discriminate.
      unfold monitor_position in Mon.
      exact (monitor_loop_never_raises _ _ _ _ _ _ _ _ _ Mon).
    - exact (api_submit_order_never_raises _ _ _ _ _ _ E2). }
  inversion H; subst e1 s'. clear H.
  apply get_most_traded_stock_stage in E0.
  destruct E0 as (r & bars' & pre & Hla & Hs0 & [[_ F]|[v Hpre]]);
    [discriminate|].
  apply api_get_latest_trade_inv in E1. destruct E1 as (rest & Hp0 & Hs1).
  set (la' := list_assets_replies (api s0)) in *.
  subst pre s1. rewrite Hs0 in *. clear Hs0.
  unfold with_scripts, set_api in *.
  cbn [api config pot total_profit trades_completed account
       get_latest_trade_replies submit_order_replies list_assets_replies
       get_barset_replies effects] in *.
  exists sym, v, entry, r.
  split; [apply truthy_str_nonempty; exact Tsym|].
  split; [exact Tentry|]. split; [exact Sz|]. split; [exact Hla|].
  split; [exact Hp0|]. repeat split.
Qed.

(** X15. A cycle raises only when sizing does, that is when the rounded
    quotient pot / price is an infinity or NaN: by then it has picked a
    symbol, logged the pick and read one truthy price; it has sent no order
    and left the account alone.  The loop body catches the exception, logs
    it, sleeps 60 seconds and reports neither a failed cycle nor a break. *)
Theorem raising_cycle_trace (s s' : TradingBot) (e : Exception) :
  execute_trade_cycle s = Raised e s' ->
  (exists sym v entry,
     sym <> "" /\ truthy_float entry = true /\
     position_size (pot s) entry = Raises e /\
     exact (pot s / entry) = None /\
     get_latest_trade_replies (api s) =
       Some entry :: get_latest_trade_replies (api s') /\
     submit_order_replies (api s') = submit_order_replies (api s) /\
     effects s' = effects s ++ [Log (MostTradedStock (Some sym) v)]) /\
  account s' = account s /\
  run_body s =
    Ret false (emit (Sleep 60) (emit (Log (UnexpectedError e)) s')).
Proof.
  intro H.
  destruct (cycle_raise_anatomy s s' e H)
    as (sym & v & entry & r & A1 & A2 & A3 & _ & A5 & A6 & A7 & _ & A9).
  split; [|split; [exact A9|rewrite run_body_unfold, H; reflexivity]].
  exists sym, v, entry. repeat split; try assumption.
  unfold position_size in A3. pose proof (int_exact (pot s / entry)) as I.
  destruct (exact (pot s / entry)); [congruence|reflexivity].
Qed.

Lemma raising_cycle_trace_witness :
  account (final (execute_trade_cycle overflow_bot)) = account overflow_bot.
Proof.
  apply (raising_cycle_trace overflow_bot
           (final (execute_trade_cycle overflow_bot))
           (OverflowError "cannot convert float infinity to integer")).
  vm_compute. reflexivity.
Defined.

(** ** Orders *)

Lemma submitted_app (es1 es2 : list Effect) :
  submitted (es1 ++ es2) = submitted es1 ++ submitted es2.
Proof. apply List.filter_app. Qed.

Lemma submitted_sleeps (seconds : Z) (n : nat) :
  submitted (repeat (Sleep seconds) n) = [].
Proof. induction n as [|n IH]; simpl; [reflexivity|exact IH]. Qed.

(** The orders and the trade count of one cycle that returns or raises. *)
Lemma cycle_orders (s : TradingBot) :
  match execute_trade_cycle s with
  | Blocked _ => True
  | r =>
      exists eps,
        submitted (effects (final r)) =
          submitted (effects s) ++ List.concat eps /\
        Forall episode eps /\
        trades_completed (final r) =
          trades_completed s +
          Z.of_nat (List.length (filter is_round_trip eps))
  end.
Proof.
  destruct (execute_trade_cycle s) as [[|] s'|s'|e s'] eqn:H;
    [| | exact I|]; cbn [final].
  - destruct (cycle_success_anatomy s s' H)
      as (sym & v & entry & qty & polls & p & later & ok & orders & r & _ & _
          & _ & A4 & _ & _ & _ & _ & _ & _ & A10 & _ & A12 & _).
    exists [[SubmitOrder sym qty buy true; SubmitOrder sym qty sell ok]].
    split; [|split].
    + rewrite A10. rewrite !submitted_app, submitted_sleeps. reflexivity.
    + constructor; [|constructor]. apply round_trip. exact A4.
    + unfold account in A12. inversion A12 as [[Hp Ht Hn]].
      rewrite Hn. reflexivity.
  - destruct (cycle_failure_anatomy s s' H)
      as (Ha & _ & pre & last & used & r & He & Hpre & Hlast & _).
    assert (P0 : submitted pre = []).
    { destruct Hpre as [E|(top & v & E)]; subst pre; reflexivity. }
    assert (T : trades_completed s' = trades_completed s).
    { unfold account in Ha. inversion Ha. reflexivity. }
    rewrite He, !submitted_app, P0. cbn [app].
    destruct Hlast as [L|[(x & L)|[(x & y & L & _)|(x & y & z & L & _ & Z0)]]];
      subst last.
    + exists []. simpl. rewrite T. repeat split; [constructor|lia].
    + exists []. simpl. rewrite T. repeat split; [constructor|lia].
    + exists []. simpl. rewrite T. repeat split; [constructor|lia].
    + exists [[SubmitOrder x z buy false]].
      simpl. rewrite T. repeat split; [|lia].
      constructor; [|constructor]. apply rejected_buy. exact Z0.
  - destruct (cycle_raise_anatomy s s' e H)
      as (sym & v & entry & r & _ & _ & _ & _ & _ & _ & A7 & _ & A9).
    exists []. rewrite A7, submitted_app. simpl.
    unfold account in A9. inversion A9 as [[Hp Ht Hn]]. rewrite Hn.
    repeat split; [constructor|lia].
Qed.

(** What the loop body adds to the trace after the cycle. *)
Lemma run_body_tail (s : TradingBot) :
  exists tail,
    effects (final (run_body s)) =
      effects (final (execute_trade_cycle s)) ++ tail /\
    submitted tail = [] /\ trade_results tail = [] /\
    match execute_trade_cycle s with
    | Ret true _ => failed_cycles tail = 0%nat /\ crashed_cycles tail = 0%nat
    | Ret false _ => failed_cycles tail = 1%nat /\ crashed_cycles tail = 0%nat
    | Raised _ _ => failed_cycles tail = 0%nat /\ crashed_cycles tail = 1%nat
    | Blocked _ => tail = []
    end.
Proof.
  rewrite run_body_unfold.
  destruct (execute_trade_cycle s) as [[|] s1|s1|e s1]; cbn [final].
  - destruct (PrimFloat.leb _ _); cbn [final pause emit effects];
      eexists; (split; [reflexivity|]); repeat split.
  - exists [Log TradeCycleFailed; Sleep 60]. unfold cooldown, emit.
    cbn [effects]. rewrite <- List.app_assoc. repeat split.
  - exists []. rewrite List.app_nil_r. repeat split.
  - exists [Log (UnexpectedError e); Sleep 60]. unfold recovery, emit.
    cbn [effects]. rewrite <- List.app_assoc. repeat split.
Qed.

Lemma run_body_orders (s s' : TradingBot) (stop : bool) :
  run_body s = Ret stop s' ->
  exists eps,
    submitted (effects s') = submitted (effects s) ++ List.concat eps /\
    Forall episode eps /\
    trades_completed s' =
      trades_completed s +
      Z.of_nat (List.length (filter is_round_trip eps)).
Proof.
  intro H.
  destruct (run_body_tail s) as (tail & E & T0 & _).
  pose proof (run_body_after_cycle s) as B.
  destruct (same_books_pot _ _ B) as (_ & _ & N & _).
  pose proof (cycle_orders s) as O.
  rewrite H in E, N. cbn [final] in E, N.
  destruct (execute_trade_cycle s) as [ok s0|s0|e s0] eqn:Hc.
  - destruct O as (eps & O & F & Ntr). exists eps. cbn [final] in *.
    split; [|split; [exact F|congruence]].
    rewrite E, submitted_app, T0, List.app_nil_r. exact O.
  - rewrite run_body_unfold, Hc in H. discriminate.
  - destruct O as (eps & O & F & Ntr). exists eps. cbn [final] in *.
    split; [|split; [exact F|congruence]].
    rewrite E, submitted_app, T0, List.app_nil_r. exact O.
Qed.

Lemma run_loop_orders (ctrl_c : bool) :
  forall (fuel : nat) (s s' : TradingBot),
    run_loop ctrl_c fuel s = Ret tt s' ->
    (ctrl_c = true /\ interrupted s') \/
    exists eps,
      submitted (effects s') = submitted (effects s) ++ List.concat eps /\
      Forall episode eps /\
      trades_completed s' =
        trades_completed s +
        Z.of_nat (List.length (filter is_round_trip eps)).
Proof.
  assert (stay : forall s, exists eps,
            submitted (effects s) = submitted (effects s) ++ List.concat eps /\
            Forall episode eps /\
            trades_completed s =
              trades_completed s +
              Z.of_nat (List.length (filter is_round_trip eps))).
  { intro s. exists []. simpl. rewrite List.app_nil_r.
    repeat split; [constructor|lia]. }
  induction fuel as [|fuel IH]; intros s s' H.
  - simpl in H. destruct (PrimFloat.ltb _ _); [discriminate|].
    inversion H; subst. right. apply stay.
  - cbn [run_loop] in H. destruct (PrimFloat.ltb _ _).
    2:{ inversion H; subst. right. apply stay. }
    destruct (run_body s) as [stop s1|s1|e s1] eqn:B.
    + destruct (run_body_orders s s1 stop B) as (eps1 & O1 & F1 & N1).
      destruct stop.
      * inversion H; subst. right. exists eps1. repeat split; assumption.
      * destruct (IH s1 s' H) as [I|(eps2 & O2 & F2 & N2)]; [left; exact I|].
        right. exists (eps1 ++ eps2). split; [|split].
        -- rewrite O2, O1, List.concat_app. symmetry. apply List.app_assoc.
        -- apply Forall_app. split; assumption.
        -- rewrite N2, N1, List.filter_app, List.length_app. lia.
    + destruct ctrl_c; [|discriminate]. inversion H; subst. left.
      split; [reflexivity|]. exists (effects s1). reflexivity.
    + discriminate.
Qed.

(** X10. When [run] returns without having been interrupted, the orders it
    has sent fall into episodes, one per cycle that reached the order
    gateway: either a single rejected buy, or an accepted buy followed
    directly by the sell of the same non-zero quantity of the same symbol.
    Nothing is sold that was not bought just before, no second buy follows
    an accepted buy without the sell in between, and the trade count has
    grown by exactly the number of buy-and-sell pairs.  (A run that the
    operator interrupts ends with the interrupt handler's log line, and can
    leave a position open.) *)
Theorem run_orders_in_episodes (ctrl_c : bool) (s s' : TradingBot) :
  run ctrl_c s = Ret tt s' ->
  (ctrl_c = true /\ interrupted s') \/
  exists eps,
    submitted (effects s') = submitted (effects s) ++ List.concat eps /\
    Forall episode eps /\
    trades_completed s' =
      trades_completed s +
      Z.of_nat (List.length (filter is_round_trip eps)).
Proof.
  intro H. unfold run in H.
  destruct (run_loop_orders ctrl_c _ s s' H) as [I|(eps & O & F & N)];
    [left; exact I|].
  right. exists eps. repeat split; assumption.
Qed.

Lemma run_orders_in_episodes_witness :
  (false = true /\ interrupted (final (run false two_trades_bot))) \/
  exists eps,
    submitted (effects (final (run false two_trades_bot))) =
      submitted (effects two_trades_bot) ++ List.concat eps /\
    Forall episode eps /\
    trades_completed (final (run false two_trades_bot)) =
      trades_completed two_trades_bot +
      Z.of_nat (List.length (filter is_round_trip eps)).
Proof.
  apply (run_orders_in_episodes false two_trades_bot
           (final (run false two_trades_bot))).
  vm_compute. reflexivity.
Defined.

(** The interrupted run of the scenario: the buy was accepted, the price
    script ran dry during monitoring, and the run returned through the
    interrupt handler with the position still open. *)
Lemma interrupted_run_scenario :
  exists s',
    run true open_position_bot = Ret tt s' /\
    submitted (effects s') = [SubmitOrder "AAPL" 20 buy true] /\
    interrupted s' /\
    account s' = account open_position_bot.
Proof.
  eexists. split; [vm_compute; reflexivity|].
  split; [reflexivity|]. split; [|reflexivity].
  eexists. cbn [effects].
  change [Log (MostTradedStock (Some "AAPL") 900);
          SubmitOrder "AAPL" 20 buy true; Sleep 5; Sleep 30; Sleep 30;
          Log StoppedByUser]
    with ([Log (MostTradedStock (Some "AAPL") 900);
           SubmitOrder "AAPL" 20 buy true; Sleep 5; Sleep 30; Sleep 30] ++
          [Log StoppedByUser]).
  reflexivity.
Qed.

(** ** How the run loop ends *)

Lemma run_loop_ends (ctrl_c : bool) :
  forall (fuel : nat) (s s' : TradingBot),
    flt (total_profit s) (PROFIT_TARGET (config s)) ->
    run_loop ctrl_c fuel s = Ret tt s' ->
    config s' = config s /\
    trades_completed s <= trades_completed s' /\
    ((trades_completed s < trades_completed s' /\
      fle (PROFIT_TARGET (config s')) (total_profit s') /\
      exists es, effects s' = es ++ [Log ProfitTargetReached]) \/
     (ctrl_c = true /\ interrupted s') \/
     (PrimFloat.ltb (total_profit s') (PROFIT_TARGET (config s')) = false /\
      PrimFloat.leb (PROFIT_TARGET (config s')) (total_profit s') = false)).
Proof.
  induction fuel as [|fuel IH]; intros s s' L H.
  - simpl in H. unfold flt in L. rewrite L in H. discriminate.
  - cbn [run_loop] in H. unfold flt in L. rewrite L in H.
    rewrite run_body_unfold in H.
    pose proof (execute_trade_cycle_books s) as B.
    destruct (execute_trade_cycle s) as [[|] s1|s1|e s1] eqn:C;
      cbn [cycle_books] in B.
    + destruct B as (why & result & Bc & Ba & _).
      unfold account in Ba. inversion Ba as [[Hp Ht Hn]].
      destruct (PrimFloat.leb (PROFIT_TARGET (config s1)) (total_profit s1))
        eqn:Reached.
      * inversion H; subst s'. cbn [config total_profit trades_completed emit].
        split; [exact Bc|]. split; [lia|]. left.
        split; [lia|]. split; [exact Reached|].
        exists (effects s1). reflexivity.
      * destruct (PrimFloat.ltb (total_profit (pause s1))
                    (PROFIT_TARGET (config (pause s1)))) eqn:L1.
        -- destruct (IH (pause s1) s' L1 H) as (Hc & Hn' & Hd).
           cbn [config trades_completed pause emit] in Hc, Hn'.
           split; [congruence|]. split; [lia|].
           destruct Hd as [(N & R)|[I|U]]; [left; split; [|exact R]|tauto|tauto].
           cbn [trades_completed pause emit] in N. lia.
        -- assert (E : s' = pause s1).
           { destruct fuel; cbn [run_loop] in H; rewrite L1 in H;
               inversion H; reflexivity. }
           subst s'. cbn [config total_profit trades_completed pause emit] in *.
           split; [exact Bc|]. split; [lia|]. right. right.
           split; assumption.
    + destruct (same_books_pot s s1 B) as (_ & T & N & Cf).
      assert (L1 : flt (total_profit (cooldown s1))
                     (PROFIT_TARGET (config (cooldown s1)))).
      { unfold flt. cbn [config total_profit cooldown emit].
        rewrite T, Cf. exact L. }
      destruct (IH (cooldown s1) s' L1 H) as (Hc & Hn' & Hd).
      cbn [config trades_completed cooldown emit] in Hc, Hn', Hd.
      split; [congruence|]. split; [lia|].
      destruct Hd as [(N' & R)|[I|U]]; [left; split; [lia|exact R]|tauto|tauto].
    + destruct ctrl_c; [|discriminate]. inversion H; subst s'.
      destruct (same_books_pot s s1 B) as (_ & T & N & Cf).
      cbn [config trades_completed emit].
      split; [exact Cf|]. split; [lia|]. right. left.
      split; [reflexivity|]. exists (effects s1). reflexivity.
    + destruct (same_books_pot s s1 B) as (_ & T & N & Cf).
      assert (L1 : flt (total_profit (recovery e s1))
                     (PROFIT_TARGET (config (recovery e s1)))).
      { unfold flt. cbn [config total_profit recovery emit].
        rewrite T, Cf. exact L. }
      destruct (IH (recovery e s1) s' L1 H) as (Hc & Hn' & Hd).
      cbn [config trades_completed recovery emit] in Hc, Hn', Hd.
      split; [congruence|]. split; [lia|].
      destruct Hd as [(N' & R)|[I|U]]; [left; split; [lia|exact R]|tauto|tauto].
Qed.

(** X11. A run that starts below the profit target returns in one of three
    ways only: through the [break] after a completed trade that brought the
    total to the target, with the target-reached banner as the last thing in
    its trace; through the interrupt handler; or because after a trade the
    total compares neither below nor at-or-above the target (it is NaN, or
    the target is), so that the loop condition fails without the banner. *)
Theorem run_ends_with_banner (ctrl_c : bool) (s s' : TradingBot) :
  flt (total_profit s) (PROFIT_TARGET (config s)) ->
  run ctrl_c s = Ret tt s' ->
  (trades_completed s < trades_completed s' /\
   fle (PROFIT_TARGET (config s')) (total_profit s') /\
   exists es, effects s' = es ++ [Log ProfitTargetReached]) \/
  (ctrl_c = true /\ interrupted s') \/
  (PrimFloat.ltb (total_profit s') (PROFIT_TARGET (config s')) = false /\
   PrimFloat.leb (PROFIT_TARGET (config s')) (total_profit s') = false).
Proof.
  intros L H. unfold run in H.
  destruct (run_loop_ends ctrl_c _ s s' L H) as (_ & _ & D). exact D.
Qed.

Lemma run_ends_with_banner_witness :
  (trades_completed retry_bot < trades_completed (final (run false retry_bot)) /\
   fle (PROFIT_TARGET (config (final (run false retry_bot))))
     (total_profit (final (run false retry_bot))) /\
   exists es,
     effects (final (run false retry_bot)) = es ++ [Log ProfitTargetReached]) \/
  (false = true /\ interrupted (final (run false retry_bot))) \/
  (PrimFloat.ltb (total_profit (final (run false retry_bot)))
     (PROFIT_TARGET (config (final (run false retry_bot)))) = false /\
   PrimFloat.leb (PROFIT_TARGET (config (final (run false retry_bot))))
     (total_profit (final (run false retry_bot))) = false).
Proof.
  apply (run_ends_with_banner false retry_bot (final (run false retry_bot))).
  - reflexivity.
  - vm_compute. reflexivity.
Defined.

(** ** The entry point *)

(** X12. When the script runs to its end, the configuration was valid, and
    the run ended in one of three ways: with the banner, and then the total
    profit has reached the target and at least one trade was completed; or
    through the interrupt handler; or with a total profit that compares
    neither below nor at-or-above the target, which for a NaN target happens
    before any cycle. *)
Theorem main_stops_in_profit (c : Config) (gw : Gateway) (ctrl_c : bool)
    (s' : TradingBot) :
  main c gw ctrl_c = Returns (Ret tt s') ->
  validate c = Returns tt /\ config s' = c /\
  ((1 <= trades_completed s' /\
    fle (PROFIT_TARGET c) (total_profit s') /\
    exists es, effects s' = es ++ [Log ProfitTargetReached]) \/
   (ctrl_c = true /\ interrupted s') \/
   (PrimFloat.ltb (total_profit s') (PROFIT_TARGET c) = false /\
    PrimFloat.leb (PROFIT_TARGET c) (total_profit s') = false)).
Proof.
  unfold main, Config_init. intro H.
  destruct (validate c) as [[]|e] eqn:V; [|discriminate].
  inversion H as [R]. clear H. split; [reflexivity|].
  apply validate_ok_iff in V. destruct V as (_ & _ & _ & Ht & _).
  destruct (PrimFloat.ltb (total_profit (TradingBot_init c gw))
              (PROFIT_TARGET (config (TradingBot_init c gw)))) eqn:L.
  - unfold run in R.
    destruct (run_loop_ends ctrl_c _ (TradingBot_init c gw) s' L R)
      as (Hc & Hn & D).
    cbn [config trades_completed TradingBot_init] in Hc, Hn, D.
    split; [exact Hc|]. rewrite Hc in D.
    destruct D as [(N & F & B)|[I|U]]; [left|tauto|tauto].
    split; [lia|]. split; assumption.
  - unfold run in R. cbn [run_loop] in R. rewrite L in R.
    inversion R; subst s'. split; [reflexivity|]. right. right.
    cbn [config total_profit TradingBot_init] in *.
    split; [exact L|]. unfold fle in Ht.
    destruct (PrimFloat.leb (PROFIT_TARGET c) 0); [exfalso; auto|reflexivity].
Qed.

Lemma main_stops_in_profit_witness :
  validate (config retry_bot) = Returns tt /\
  config (final (run false retry_bot)) = config retry_bot.
Proof.
  destruct (main_stops_in_profit (config retry_bot) (api retry_bot) false
              (final (run false retry_bot))) as (A & B & _).
  - vm_compute. reflexivity.
  - split; assumption.
Defined.

(** ** One asset listing per cycle *)











